(** * align_multiple_visits: the notebook's orchestration, verified

    The repository is one notebook,
    [notebooks/DrizzlePac/align_multiple_visits/align_multiple_visits.ipynb].
    Its code cells fetch exposures from the archive, call the alignment
    routine ([tweakreg.TweakReg]) three times, call the combination routine
    ([astrodrizzle.AstroDrizzle]) once and look at the files they leave.

    The development embeds the code cells as computations of a small state
    and exception monad over a [world]: the file system of the working
    directory and the log of what the notebook asked of the outside (calls
    of library routines and reads of files).  The library routines are not
    part of the repository: they are the fields of an environment [Env].
    The statements that draw ([plt.*], [ZScaleInterval], the display
    formats of a table) read and write no file, but they belong to
    libraries and can raise: each is a step whose outcome the environment
    decides.  [print] is left out, and the imports of cell 3 are taken
    to have run.

    The file system is one of plain files and directories: it has no
    symbolic links and no two names for one file. *)

From Stdlib Require Import ZArith Ascii.
From stdpp Require Import gmap strings pretty list fin_maps sorting.

Local Open Scope Z_scope.
Local Open Scope string_scope.
Local Open Scope list_scope.
Local Open Scope stdpp_scope.

(** ** Python values passed to the library routines *)

(** A keyword argument's value.  [VDec m e] is the decimal literal
    [m * 10^e] ([searchrad=4.0] is [VDec 40 (-1)]); [VStrs] is a list of
    strings (file names, observation identifiers); [VObj] is an object
    the archive client returned, by the variable that holds it. *)
Inductive value :=
| VNone
| VBool (b : bool)
| VInt (z : Z)
| VDec (m e : Z)
| VStr (s : string)
| VStrs (l : list string)
| VObj (var : string).

Global Instance value_eq_dec : EqDecision value.
Proof. solve_decision. Defined.

Definition kwargs := list (string * value).

(** Look a keyword up; Python refuses a repeated keyword, so the first
    binding is the only one. *)
Fixpoint kwarg (k : string) (kw : kwargs) : option value :=
  match kw with
  | [] => None
  | (k', v) :: kw' => if decide (k = k') then Some v else kwarg k kw'
  end.

Definition keywords (kw : kwargs) : list string := kw.*1.

(** ** The log: what the notebook asks of the outside *)

Inductive event :=
| ECall (fn : string) (args : list value) (kw : kwargs)
    (* fn(args, **kw) *)
| EGetval (file key : string)
    (* fits.getval(file, key) *)
| EData (file : string) (extname : string) (extver : Z)
    (* fits.open(file)[extname, extver].data *)
| ETable (reader file : string) (names : option (list string))
    (* Table.read / ascii.read *)
| EImage (file : string).
    (* IPython.display.Image(filename=file) *)

Global Instance event_eq_dec : EqDecision event.
Proof. solve_decision. Defined.

(** ** Files *)

Abbreviation path := (list string).

(** A FITS file: the cards of its primary header and its named
    extensions [(EXTNAME, EXTVER)] with their pixel payload. *)
Record fits := Fits {
  header : list (string * string);
  hdus : list ((string * Z) * list Z)
}.

Inductive content :=
| FitsFile (f : fits)
| TextFile (lines : list string)
| Binary (bytes : list Z).

Inductive node :=
| File (c : content)
| Dir.

Global Instance fits_eq_dec : EqDecision fits.
Proof. solve_decision. Defined.
Global Instance content_eq_dec : EqDecision content.
Proof. solve_decision. Defined.
Global Instance node_eq_dec : EqDecision node.
Proof. solve_decision. Defined.

(** The file system below the working directory: paths are relative to
    it, [[]] is the working directory itself. *)
Abbreviation filesystem := (gmap path node).

Definition isdir (fs : filesystem) (p : path) : bool :=
  match p with
  | [] => true
  | _ => bool_decide (fs !! p = Some Dir)
  end.

Definition exists_path (fs : filesystem) (p : path) : bool :=
  match p with
  | [] => true
  | _ => bool_decide (is_Some (fs !! p))
  end.

(** [os.path.basename] and the directory part. *)
Definition basename (p : path) : string := default "" (last p).
Definition dirname (p : path) : path := removelast p.

(** [os.path.join] of a path's components, for the log. *)
Fixpoint path_str (p : path) : string :=
  match p with
  | [] => ""
  | [n] => n
  | n :: p' => n +:+ "/" +:+ path_str p'
  end.

(** ** Exceptions and results *)

Inductive exn :=
| FileNotFoundError
| IsADirectoryError
| NotADirectoryError
| SameFileError
| OSError
| KeyError
| InconsistentTableError
| TypeError
| LibraryError (code : nat).
    (* raised inside a library routine: a failed connection, a failed fit *)

Inductive outcome (A : Type) :=
| Ok (a : A)
| Raise (e : exn).
Arguments Ok {A} a.
Arguments Raise {A} e.

Definition is_ok {A} (r : outcome A) : bool :=
  match r with Ok _ => true | Raise _ => false end.

(** ** Pattern matching on names: [fnmatch] and [glob] *)

(** [fnmatch.fnmatch name pat] on POSIX for patterns made of literal
    characters, [*] and [?] (the notebook's patterns have no bracket
    expression). *)
Fixpoint fnmatch_star (rest : string → bool) (name : string) : bool :=
  rest name ||
  match name with
  | "" => false
  | String _ name' => fnmatch_star rest name'
  end.

Fixpoint fnmatch (pat name : string) : bool :=
  match pat with
  | "" => bool_decide (name = "")
  | String c pat' =>
      if bool_decide (c = "*"%char) then fnmatch_star (fnmatch pat') name
      else
        match name with
        | "" => false
        | String d name' =>
            (bool_decide (c = "?"%char) || bool_decide (c = d))
            && fnmatch pat' name'
        end
  end.

Fixpoint has_magic (pat : string) : bool :=
  match pat with
  | "" => false
  | String c pat' =>
      bool_decide (c = "*"%char) || bool_decide (c = "?"%char) || has_magic pat'
  end.

(** [glob._ishidden]: the name starts with a dot. *)
Definition ishidden (name : string) : bool :=
  match name with
  | String "."%char _ => true
  | _ => false
  end.

Fixpoint strip_prefix (d p : path) : option path :=
  match d, p with
  | [], _ => Some p
  | x :: d', y :: p' => if decide (x = y) then strip_prefix d' p' else None
  | _ :: _, [] => None
  end.

Definition child_of (d p : path) : option string :=
  match strip_prefix d p with
  | Some [n] => Some n
  | _ => None
  end.

(** [os.scandir] gives the names in a directory in an order of the
    operating system's choosing, which may depend on everything the file
    system holds.  The order is a parameter [ord]: the names come by the
    rank [ord fs d] gives them, names of equal rank by name.  Every
    order of the names is that of some ranking. *)
Abbreviation dir_order := (filesystem → path → string → nat).

Definition rank_le (rank : string → nat) (a b : string) : Prop :=
  (rank a < rank b)%nat ∨ (rank a = rank b ∧ String.le a b).

Global Instance rank_le_dec rank a b : Decision (rank_le rank a b).
Proof. unfold rank_le. apply _. Defined.

Definition listdir (ord : dir_order) (fs : filesystem) (d : path)
    : list string :=
  if isdir fs d
  then merge_sort (rank_le (ord fs d))
         (omap (λ kv, child_of d kv.1) (map_to_list fs))
  else [].

(** [glob._glob1] and [glob._glob0]: the names in [dir] that match one
    component of the pattern; [dironly] keeps directories only. *)
Definition glob1 (ord : dir_order) (fs : filesystem) (dir : path)
    (pat : string) (dironly : bool) : list string :=
  if has_magic pat then
    filter (λ n, fnmatch pat n && (ishidden pat || negb (ishidden n))
                 && (negb dironly || isdir fs (dir ++ [n])))
           (listdir ord fs dir)
  else if (if dironly then isdir fs (dir ++ [pat])
           else exists_path fs (dir ++ [pat]))
  then [pat] else [].

(** [glob.glob] of a relative pattern given by its components. *)
Fixpoint glob_from (ord : dir_order) (fs : filesystem) (dir : path)
    (pats : list string) : list path :=
  match pats with
  | [] => []
  | [pat] => (λ n, dir ++ [n]) <$> glob1 ord fs dir pat false
  | pat :: pats' =>
      n ← glob1 ord fs dir pat true; glob_from ord fs (dir ++ [n]) pats'
  end.

Definition glob (ord : dir_order) (fs : filesystem) (pattern : path)
    : list path :=
  glob_from ord fs [] pattern.

(** ** File operations of [shutil] and [os] *)

Definition below (p : path) (q : path) : bool :=
  bool_decide (is_Some (strip_prefix p q)).

(** [shutil.copy(src, dst)]: into [dst] when it is a directory. *)
Definition copy (src dst : path) (fs : filesystem) : outcome filesystem :=
  let dst' := if isdir fs dst then dst ++ [basename src] else dst in
  match fs !! src with
  | None => Raise FileNotFoundError
  | Some Dir => Raise IsADirectoryError
  | Some (File c) =>
      if bool_decide (src = dst') then Raise SameFileError
      else if isdir fs dst' then Raise IsADirectoryError
      else if negb (isdir fs (dirname dst')) then Raise FileNotFoundError
      else Ok (<[dst' := File c]> fs)
  end.

(** [shutil.rmtree(p)]. *)
Definition rmtree (p : path) (fs : filesystem) : outcome filesystem :=
  match fs !! p with
  | None => Raise FileNotFoundError
  | Some (File _) => Raise NotADirectoryError
  | Some Dir => Ok (filter (λ kv, negb (below p kv.1)) fs)
  end.

(** [os.remove(p)]. *)
Definition remove (p : path) (fs : filesystem) : outcome filesystem :=
  match fs !! p with
  | None => Raise FileNotFoundError
  | Some Dir => Raise IsADirectoryError
  | Some (File _) => Ok (delete p fs)
  end.

(** The entries at and below [p], by their path relative to [p]. *)
Definition subtree (p : path) (fs : filesystem) : list (path * node) :=
  omap (λ kv, (λ r, (r, kv.2)) <$> strip_prefix p kv.1) (map_to_list fs).

Definition graft (dst : path) (t : list (path * node)) (fs : filesystem)
    : filesystem :=
  list_to_map ((λ rn, (dst ++ rn.1, rn.2)) <$> t) ∪ fs.

(** [os.rename(src, dst)] on POSIX. *)
Definition rename (src dst : path) (fs : filesystem) : outcome filesystem :=
  match fs !! src with
  | None => Raise FileNotFoundError
  | Some (File c) =>
      if bool_decide (src = dst) then Ok fs
      else if isdir fs dst then Raise IsADirectoryError
      else if negb (isdir fs (dirname dst)) then Raise FileNotFoundError
      else Ok (<[dst := File c]> (delete src fs))
  | Some Dir =>
      if bool_decide (src = dst) then Ok fs
      else if below src dst then Raise OSError
      else if negb (isdir fs (dirname dst)) then Raise FileNotFoundError
      else match fs !! dst with
           | Some (File _) => Raise NotADirectoryError
           | Some Dir =>
               (* an empty directory gives way; the order plays no part *)
               if bool_decide (listdir (λ _ _ _, 0%nat) fs dst = []) then
                 Ok (graft dst (subtree src fs)
                       (filter (λ kv, negb (below src kv.1)) fs))
               else Raise OSError
           | None =>
               Ok (graft dst (subtree src fs)
                     (filter (λ kv, negb (below src kv.1)) fs))
           end
  end.

(** ** Text tables as [astropy] reads them *)

Record table := Table {
  colnames : list string;
  rows : list (list string)
}.

(** A comment line: optional blanks, then [#]. *)
Fixpoint is_comment (line : string) : bool :=
  match line with
  | "" => false
  | String c line' =>
      if Ascii.is_space c then is_comment line'
      else bool_decide (c = "#"%char)
  end.

Definition is_data_line (line : string) : bool :=
  negb (is_comment line) && negb (bool_decide (String.words line = [])).

(** The names of a table read without a header: [col1], [col2], ... *)
Definition auto_names (n : nat) : list string :=
  (λ i : nat, "col" +:+ pretty i) <$> seq 1 n.

(** The reader of a table without a header row, with the names of the
    columns given: the lines that are neither blank nor comments, each
    split into its fields by the library's splitter [split] (which has
    its own rules for quotes and for characters other than the blank).
    There must be a row, and every row must have as many fields as
    there are names. *)
Definition read_no_header (split : string → list string)
    (names : list string) (lines : list string) : outcome table :=
  let rs := split <$> filter is_data_line lines in
  match rs with
  | [] => Raise InconsistentTableError
  | _ :: _ =>
      if forallb (λ r, bool_decide (length r = length names)) rs
      then Ok (Table names rs)
      else Raise InconsistentTableError
  end.

(** [tab[name]]: the column of that name. *)
Definition column (t : table) (name : string) : outcome (list string) :=
  match list_find (λ n, n = name) (colnames t) with
  | Some (i, _) => Ok ((λ r, default "" (r !! i)) <$> rows t)
  | None => Raise KeyError
  end.

(** An integer literal: an optional sign and decimal digits. *)
Fixpoint parse_digits (acc : Z) (s : string) : option Z :=
  match s with
  | "" => Some acc
  | String c s' =>
      match Ascii.is_nat c with
      | Some d => parse_digits (10 * acc + Z.of_nat d) s'
      | None => None
      end
  end.

Definition parse_int (s : string) : option Z :=
  match s with
  | "" => None
  | String "-"%char "" | String "+"%char "" => None
  | String "-"%char s' => Z.opp <$> parse_digits 0 s'
  | String "+"%char s' => parse_digits 0 s'
  | _ => parse_digits 0 s
  end.

Definition int64 (z : Z) : bool := bool_decide (- 2 ^ 63 ≤ z < 2 ^ 63).

(** [col == z].  A column all of whose values are integer literals that
    fit 64 bits is an integer column, compared value by value.  Any
    other column (a value with a fraction or an exponent, a word, an
    integer too large) gets its type from the library, and so does the
    comparison: [other col z i] is the library's answer for row [i].
    The answer has one truth value for each row. *)
Definition column_eq (other : list string → Z → nat → bool)
    (col : list string) (z : Z) : list bool :=
  match mapM parse_int col with
  | Some zs =>
      if forallb int64 zs then (λ v, bool_decide (v = z)) <$> zs
      else other col z <$> seq 0 (length col)
  | None => other col z <$> seq 0 (length col)
  end.

(** [tab[mask]]: the rows where the mask holds. *)
Fixpoint select {A} (mask : list bool) (l : list A) : list A :=
  match mask, l with
  | b :: mask', x :: l' => if b then x :: select mask' l' else select mask' l'
  | _, _ => []
  end.

Definition mask_rows (t : table) (mask : list bool) : table :=
  Table (colnames t) (select mask (rows t)).

(** ** The world and the notebook's monad *)

Record world := World {
  fs : filesystem;
  log : list event
}.

Definition init (fs0 : filesystem) : world := World fs0 [].

(** A statement runs in a world and leaves a world, with a value or an
    exception; what it did before raising stays done. *)
Definition M (A : Type) : Type := world → world * outcome A.

Definition ret {A} (a : A) : M A := λ w, (w, Ok a).

Definition bind {A B} (m : M A) (f : A → M B) : M B :=
  λ w, match m w with
       | (w', Ok a) => f a w'
       | (w', Raise e) => (w', Raise e)
       end.

Global Instance M_ret : MRet M := @ret.
Global Instance M_bind : MBind M := λ A B f m, bind m f.

Definition emit (ev : event) : M unit :=
  λ w, (World (fs w) (log w ++ [ev]), Ok tt).

(** A file operation: the file system changes unless it raises. *)
Definition fs_op (f : filesystem → outcome filesystem) : M unit :=
  λ w, match f (fs w) with
       | Ok fs' => (World fs' (log w), Ok tt)
       | Raise e => (w, Raise e)
       end.

Definition fs_get {A} (f : filesystem → A) : M A :=
  λ w, (w, Ok (f (fs w))).

Definition fs_try {A} (f : filesystem → outcome A) : M A :=
  λ w, (w, f (fs w)).

(** [for x in l: body x]. *)
Fixpoint for_each {A} (l : list A) (body : A → M unit) : M unit :=
  match l with
  | [] => ret tt
  | x :: l' => body x ;; for_each l' body
  end.

(** ** The library routines *)

(** What the notebook calls and does not define.  A routine sees the
    world it is called in; the archive's answers are opaque handles.
    The routines that write files return the file system they leave,
    also when they raise.  The statements that draw or set a display
    format write no file; whether one raises is the library's matter. *)
Record Env := {
  handle : Type;
  query_criteria : kwargs → world → outcome handle;
  get_product_list : handle → world → outcome handle;
  download_products : handle → kwargs → world → filesystem * outcome unit;
  TweakReg : list string → kwargs → world → filesystem * outcome unit;
  AstroDrizzle : list string → kwargs → world → filesystem * outcome unit;
  (* the order in which the operating system lists a directory *)
  dir_rank : dir_order;
  (* astropy's splitter of a line of a text table into its fields *)
  tokens : string → list string;
  (* [ascii.read] of the lines of a file, the format guessed *)
  guess_table : list string → outcome table;
  (* astropy's comparison of a column that is no 64-bit integer column *)
  compare_column : list string → Z → nat → bool;
  (* a statement that draws or formats, by its name *)
  render : string → world → outcome unit
}.

(** A routine that only answers, and one that also writes files. *)
Definition ask {A} (routine : world → outcome A) : M A :=
  λ w, (w, routine w).

Definition act {A} (routine : world → filesystem * outcome A) : M A :=
  λ w, let '(fs', r) := routine w in (World fs' (log w), r).

(** A call is logged when it is made, then the routine runs. *)
Definition call {A} (fn : string) (args : list value) (kw : kwargs)
    (routine : world → outcome A) : M A :=
  emit (ECall fn args kw) ;; ask routine.

Definition call_io {A} (fn : string) (args : list value) (kw : kwargs)
    (routine : world → filesystem * outcome A) : M A :=
  emit (ECall fn args kw) ;; act routine.

(** ** Reading files *)

Definition to_upper_ascii (c : ascii) : ascii :=
  let n := Ascii.N_of_ascii c in
  if bool_decide (97 ≤ n ≤ 122)%N then Ascii.ascii_of_N (n - 32) else c.

Fixpoint to_upper (s : string) : string :=
  match s with
  | "" => ""
  | String c s' => String (to_upper_ascii c) (to_upper s')
  end.

Fixpoint assoc {A} (k : string) (l : list (string * A)) : option A :=
  match l with
  | [] => None
  | (k', v) :: l' => if decide (k = k') then Some v else assoc k l'
  end.

Definition open_file (file : string) (fs : filesystem) : outcome content :=
  match fs !! [file] with
  | None => Raise FileNotFoundError
  | Some Dir => Raise IsADirectoryError
  | Some (File c) => Ok c
  end.

Definition open_fits (file : string) (fs : filesystem) : outcome fits :=
  match open_file file fs with
  | Ok (FitsFile f) => Ok f
  | Ok _ => Raise OSError
  | Raise e => Raise e
  end.

Definition open_text (file : string) (fs : filesystem)
    : outcome (list string) :=
  match open_file file fs with
  | Ok (TextFile l) => Ok l
  | Ok _ => Raise OSError
  | Raise e => Raise e
  end.

(** [fits.getval(file, key)]: a card of the primary header; keywords
    are upper case in the file. *)
Definition getval (file key : string) : M string :=
  emit (EGetval file key) ;;
  fs_try (λ fs,
    match open_fits file fs with
    | Ok f => match assoc (to_upper key) (header f) with
              | Some v => Ok v
              | None => Raise KeyError
              end
    | Raise e => Raise e
    end).

(** [fits.open(file)[extname, extver].data]. *)
Definition fits_data (file extname : string) (extver : Z) : M (list Z) :=
  emit (EData file extname extver) ;;
  fs_try (λ fs,
    match open_fits file fs with
    | Ok f =>
        match list_find (λ h, h.1 = (to_upper extname, extver)) (hdus f) with
        | Some (_, h) => Ok h.2
        | None => Raise KeyError
        end
    | Raise e => Raise e
    end).

(** [Table.read(file, format='ascii.no_header', names=names)]. *)
Definition Table_read (split : string → list string) (file : string)
    (names : list string) : M table :=
  emit (ETable "Table.read" file (Some names)) ;;
  fs_try (λ fs,
    match open_text file fs with
    | Ok l => read_no_header split names l
    | Raise e => Raise e
    end).

(** [ascii.read(file)]: the library guesses the format of the file
    (whether it has a header line, how its fields are set apart) and
    reads it so; [guess] is what it makes of the lines. *)
Definition ascii_read (guess : list string → outcome table)
    (file : string) : M table :=
  emit (ETable "ascii.read" file None) ;;
  fs_try (λ fs,
    match open_text file fs with
    | Ok l => guess l
    | Raise e => Raise e
    end).

(** [Image(filename=file)]: the file's bytes are read when the object
    is made. *)
Definition Image (file : string) : M unit :=
  emit (EImage file) ;;
  fs_try (λ fs,
    match open_file file fs with
    | Ok _ => Ok tt
    | Raise e => Raise e
    end).

(** ** The code cells *)

Section Notebook.

Variable E : Env.

(** A statement that draws or formats: it reads and writes no file and
    leaves no event; the library decides whether it raises. *)
Definition show (what : string) : M unit := ask (render E what).

(** *** Cell 5: download the data *)

Definition obs_ids : list string := ["j9irw3fwq"; "j9irw4040"; "j9irw5kaq"].

Definition query_kwargs : kwargs :=
  [("obstype", VStr "all");
   ("obs_collection", VStr "HST");
   ("obs_id", VStrs obs_ids)].

Definition download_kwargs : kwargs :=
  [("download_dir", VStr "");
   ("mrp_only", VBool false);
   ("productSubGroupDescription", VStr "FLC")].

(** Query the archive and download the FLC products. *)
Definition acquire : M unit :=
  obsTable ← call "Observations.query_criteria" [] query_kwargs
                  (query_criteria E query_kwargs);
  products ← call "Observations.get_product_list" [VObj "obsTable"] []
                  (get_product_list E obsTable);
  call_io "Observations.download_products" [VObj "products"] download_kwargs
          (download_products E products download_kwargs).

Definition download_pattern : path :=
  ["mastDownload"; "HST"; "*"; "*flc.fits"].

(** Copy the downloaded files to the working directory and remove the
    download directory. *)
Definition relocate : M (list path) :=
  input_flcs ← fs_get (λ fs, glob (dir_rank E) fs download_pattern);
  for_each input_flcs (λ flc, fs_op (copy flc [basename flc])) ;;
  fs_op (rmtree ["mastDownload"]) ;;
  mret input_flcs.

Definition dropped_flc : string := "j9irw4b3q_flc.fits".

(** Remove the second file of the W4 association and define the input
    list. *)
Definition select_inputs : M (list string) :=
  fs_op (remove [dropped_flc]) ;;
  input_flcs ← fs_get (λ fs, glob (dir_rank E) fs ["*flc.fits"]);
  mret (path_str <$> input_flcs).

Definition cell5 : M (list string) :=
  acquire ;; relocate ;; select_inputs.

(** *** Cell 7: the orientation of each frame *)

Definition cell7 : M unit :=
  files ← fs_get (λ fs, glob (dir_rank E) fs ["*flc.fits"]);
  for_each (path_str <$> files) (λ f,
    getval f "rootname" ;; getval f "PA_V3" ;; mret tt).

(** *** Cells 11 and 13 are comments: they call nothing. *)

(** *** Cell 15: source finding parameters *)

Definition tweak_thresh_kwargs : kwargs :=
  [("threshold", VInt 4000);
   ("peakmax", VInt 70000);
   ("configobj", VNone);
   ("interactive", VBool false);
   ("shiftfile", VBool true);
   ("outshifts", VStr "shift_thresh.txt");
   ("updatehdr", VBool false)].

Definition tweakreg (input_flcs : list string) (kw : kwargs) : M unit :=
  call_io "tweakreg.TweakReg" [VStrs input_flcs] kw (TweakReg E input_flcs kw).

Definition cell15 (input_flcs : list string) : M unit :=
  tweakreg input_flcs tweak_thresh_kwargs.

(** *** Cell 17: the shift file *)

Definition shift_names : list string :=
  ["file"; "dx"; "dy"; "rot"; "scale"; "xrms"; "yrms"].

(** Read the table, then set the display format of every column after
    the first. *)
Definition read_shifts (file : string) : M table :=
  shift_tab ← Table_read (tokens E) file shift_names;
  for_each (tail (colnames shift_tab))
           (λ col, show ("Column.format " +:+ col)) ;;
  mret shift_tab.

Definition cell17 : M table := read_shifts "shift_thresh.txt".

(** *** Cells 19 and 20: diagnostic plots *)

Definition cell19 : M unit := Image "residuals_j9irw5kaq_flc.png".
Definition cell20 : M unit := Image "vector_j9irw4b1q_flc.png".

(** *** Cell 23: the general fit *)

Definition tweak_general_kwargs : kwargs :=
  [("threshold", VInt 4000);
   ("searchrad", VDec 40 (-1));
   ("peakmax", VInt 70000);
   ("fitgeometry", VStr "general");
   ("configobj", VNone);
   ("interactive", VBool false);
   ("shiftfile", VBool true);
   ("outshifts", VStr "shift_general.txt");
   ("updatehdr", VBool false)].

Definition cell23 (input_flcs : list string) : M unit :=
  tweakreg input_flcs tweak_general_kwargs.

Definition cell24 : M table := read_shifts "shift_general.txt".

(** *** Cells 26 and 28: keep the plots of the general fit *)

Definition cell26 : M unit :=
  fs_op (rename ["residuals_j9irw4b1q_flc.png"]
                ["residuals_j9irw4b1q_flc_general.png"]) ;;
  Image "residuals_j9irw4b1q_flc_general.png".

Definition cell28 : M unit :=
  fs_op (rename ["vector_j9irw4b1q_flc.png"]
                ["vector_j9irw4b1q_flc_general.png"]) ;;
  Image "vector_j9irw4b1q_flc_general.png".

(** *** Cell 32: the final run, which updates the headers *)

Definition tweak_final_kwargs : kwargs :=
  [("threshold", VInt 4000);
   ("peakmax", VInt 70000);
   ("fitgeometry", VStr "general");
   ("configobj", VNone);
   ("interactive", VBool false);
   ("shiftfile", VBool false);
   ("updatehdr", VBool true)].

Definition cell32 (input_flcs : list string) : M unit :=
  tweakreg input_flcs tweak_final_kwargs.

(** *** Cell 34: the matched sources on chip 2 *)

Definition match_file : string := "j9irw4b1q_flc_catalog_fit.match".

(** The rows of the match table on chip 2, and their coordinates. *)
Definition chip2_sources (match_tab : table)
    : outcome (table * (list string * list string)) :=
  match column match_tab "col15" with
  | Raise e => Raise e
  | Ok col15 =>
      let mask := column_eq (compare_column E) col15 1 in
      let match_tab_chip2 := mask_rows match_tab mask in
      match column match_tab_chip2 "col11",
            column match_tab_chip2 "col12" with
      | Ok x_cord, Ok y_cord => Ok (match_tab_chip2, (x_cord, y_cord))
      | Raise e, _ | _, Raise e => Raise e
      end
  end.

Definition cell34 : M (list string * list string) :=
  show "plt.figure" ;;
  chip1_data ← fits_data "j9irw4b1q_flc.fits" "SCI" 1;
  show "ZScaleInterval" ;;
  show "zscale.get_limits" ;;
  show "plt.imshow" ;;
  match_tab ← ascii_read (guess_table E) match_file;
  r ← ask (λ _, chip2_sources match_tab);
  show "plt.scatter" ;;
  show "plt.ylim" ;;
  show "plt.xlim" ;;
  show "plt.legend" ;;
  mret r.2.

(** *** Cell 37: combine the images *)

Definition drizzle_kwargs : kwargs :=
  [("output", VStr "f606w_combined");
   ("preserve", VBool false);
   ("driz_sep_bits", VStr "64,16");
   ("driz_cr_corr", VBool true);
   ("final_bits", VStr "64,16");
   ("clean", VBool false);
   ("configobj", VNone);
   ("build", VBool true)].

Definition cell37 (input_flcs : list string) : M unit :=
  call_io "astrodrizzle.AstroDrizzle" [VStrs input_flcs] drizzle_kwargs
          (AstroDrizzle E input_flcs drizzle_kwargs).

(** *** Cells 40 and 42: the drizzled image and its weight image *)

Definition drc_file : string := "f606w_combined_drc.fits".

(** Open the combined file, take the data of one extension and draw
    it. *)
Definition inspect (extname : string) : M (list Z) :=
  show "plt.figure" ;;
  drc_dat ← fits_data drc_file extname 1;
  show "zscale.get_limits" ;;
  show "plt.imshow" ;;
  show "plt.title" ;;
  mret drc_dat.

Definition cell40 : M (list Z) := inspect "SCI".
Definition cell42 : M (list Z) := inspect "WHT".

(** *** The notebook, run from the top *)

(** The cells after the download, which share [input_flcs]. *)
Definition analysis (input_flcs : list string) : M unit :=
  cell7 ;;
  cell15 input_flcs ;;
  cell17 ;;
  cell19 ;;
  cell20 ;;
  cell23 input_flcs ;;
  cell24 ;;
  cell26 ;;
  cell28 ;;
  cell32 input_flcs ;;
  cell34 ;;
  cell37 input_flcs ;;
  cell40 ;;
  cell42 ;;
  mret tt.

Definition notebook : M unit :=
  input_flcs ← cell5;
  analysis input_flcs.

(** The same cells in two parts: the runs that try parameters, with the
    looks at what they leave, and the final run with what follows. *)
Definition exploration (input_flcs : list string) : M unit :=
  cell7 ;;
  cell15 input_flcs ;;
  cell17 ;;
  cell19 ;;
  cell20 ;;
  cell23 input_flcs ;;
  cell24 ;;
  cell26 ;;
  cell28 ;;
  mret tt.

Definition conclusion (input_flcs : list string) : M unit :=
  cell32 input_flcs ;;
  cell34 ;;
  cell37 input_flcs ;;
  cell40 ;;
  cell42 ;;
  mret tt.

End Notebook.

(** ** What a run logs *)

(** [extends w res evs]: the run that started in [w] and ended as [res]
    logged a prefix of [evs], and all of [evs] if it did not raise. *)
Definition extends {A} (w : world) (res : world * outcome A)
    (evs : list event) : Prop :=
  ∃ k, log res.1 = log w ++ take k evs ∧
       (is_ok res.2 → log res.1 = log w ++ evs).

(** [emits m evs]: so does [m], from every world. *)
Definition emits {A} (m : M A) (evs : list event) : Prop :=
  ∀ w, extends w (m w) evs.

(** *** The events of each cell *)

Definition acquire_events : list event :=
  [ECall "Observations.query_criteria" [] query_kwargs;
   ECall "Observations.get_product_list" [VObj "obsTable"] [];
   ECall "Observations.download_products" [VObj "products"] download_kwargs].

Definition getval_events (files : list string) : list event :=
  files ≫= λ f, [EGetval f "rootname"; EGetval f "PA_V3"].

Definition tweak_call (input_flcs : list string) (kw : kwargs) : event :=
  ECall "tweakreg.TweakReg" [VStrs input_flcs] kw.

Definition drizzle_call (input_flcs : list string) : event :=
  ECall "astrodrizzle.AstroDrizzle" [VStrs input_flcs] drizzle_kwargs.

(** What the cells after the download log, for the input list
    [input_flcs] and the files [seen] by cell 7. *)
Definition analysis_events (input_flcs seen : list string) : list event :=
  getval_events seen ++
  [tweak_call input_flcs tweak_thresh_kwargs;
   ETable "Table.read" "shift_thresh.txt" (Some shift_names);
   EImage "residuals_j9irw5kaq_flc.png";
   EImage "vector_j9irw4b1q_flc.png";
   tweak_call input_flcs tweak_general_kwargs;
   ETable "Table.read" "shift_general.txt" (Some shift_names);
   EImage "residuals_j9irw4b1q_flc_general.png";
   EImage "vector_j9irw4b1q_flc_general.png";
   tweak_call input_flcs tweak_final_kwargs;
   EData "j9irw4b1q_flc.fits" "SCI" 1;
   ETable "ascii.read" match_file None;
   drizzle_call input_flcs;
   EData drc_file "SCI" 1;
   EData drc_file "WHT" 1].

(** The log of a run of the whole notebook that does not raise. *)
Definition script (input_flcs : list string) : list event :=
  acquire_events ++ analysis_events input_flcs input_flcs.


(** ** Runs of the notebook *)

(** The log a run from the top leaves, whether the run raised or not. *)
Definition run_log (E : Env) (fs0 : filesystem) : list event :=
  log (notebook E (init fs0)).1.

(** The run reached the end of the last cell. *)
Definition completes (E : Env) (fs0 : filesystem) : Prop :=
  is_ok (notebook E (init fs0)).2.

(** The value of [input_flcs] when cell 5 is done (empty when cell 5
    raised and the name was never bound to the final list). *)
Definition inputs (E : Env) (fs0 : filesystem) : list string :=
  match cell5 E (init fs0) with
  | (_, Ok l) => l
  | (_, Raise _) => []
  end.

(** *** Reading the log *)

Definition alignment : string := "tweakreg.TweakReg".
Definition combination : string := "astrodrizzle.AstroDrizzle".
Definition archive_query : string := "Observations.query_criteria".

Definition is_call (fn : string) (ev : event) : bool :=
  match ev with
  | ECall f _ _ => bool_decide (f = fn)
  | _ => false
  end.

Definition event_kw (ev : event) : kwargs :=
  match ev with
  | ECall _ _ kw => kw
  | _ => []
  end.

Definition event_args (ev : event) : list value :=
  match ev with
  | ECall _ args _ => args
  | _ => []
  end.

Definition calls_of (fn : string) (l : list event) : list event :=
  filter (λ ev, is_call fn ev) l.

(** The option classes of the combination routine's configuration, and
    the keyword of each. *)
Inductive drizzle_option :=
| OutputName
| PixelMask
| CosmicRayCleaning
| SingleOutputFile
| KeepIntermediates.

Definition drizzle_class (k : string) : option drizzle_option :=
  if bool_decide (k = "output") then Some OutputName
  else if bool_decide (k ∈ ["driz_sep_bits"; "final_bits"]) then Some PixelMask
  else if bool_decide (k = "driz_cr_corr") then Some CosmicRayCleaning
  else if bool_decide (k = "build") then Some SingleOutputFile
  else if bool_decide (k = "clean") then Some KeepIntermediates
  else None.

(** The option classes of the alignment routine's configuration. *)
Inductive tweak_option :=
| SignalThreshold
| SaturationCutoff
| SearchRadius
| FitGeometry
| PersistShifts
| WriteHeaders.

Definition tweak_class (k : string) : option tweak_option :=
  if bool_decide (k = "threshold") then Some SignalThreshold
  else if bool_decide (k = "peakmax") then Some SaturationCutoff
  else if bool_decide (k = "searchrad") then Some SearchRadius
  else if bool_decide (k = "fitgeometry") then Some FitGeometry
  else if bool_decide (k ∈ ["shiftfile"; "outshifts"]) then Some PersistShifts
  else if bool_decide (k = "updatehdr") then Some WriteHeaders
  else None.

(** The keywords of a call that belong to no class. *)
Definition unclassed {C} (class : string → option C) (kw : kwargs)
    : list string :=
  filter (λ k, class k = None) (keywords kw).

(** ** The shift file

    Modelled from the spec: the shift file is written by the alignment
    routine, which is no part of the repository.  The spec gives it as
    plain text with one row per image: filename, horizontal and vertical
    offset, rotation, scale and the fit-residual statistics of each
    axis. *)

Record shift_row := ShiftRow {
  s_file : string;
  s_dx : string;
  s_dy : string;
  s_rot : string;
  s_scale : string;
  s_xrms : string;
  s_yrms : string
}.

Definition shift_fields (r : shift_row) : list string :=
  [s_file r; s_dx r; s_dy r; s_rot r; s_scale r; s_xrms r; s_yrms r].

Fixpoint no_space (s : string) : bool :=
  match s with
  | "" => true
  | String c s' => negb (Ascii.is_space c) && no_space s'
  end.

Fixpoint all_space (s : string) : bool :=
  match s with
  | "" => true
  | String c s' => Ascii.is_space c && all_space s'
  end.

(** A field as written: not empty and free of white space. *)
Definition is_token (s : string) : Prop := s ≠ "" ∧ no_space s.

(** What separates two fields: white space, at least one character. *)
Definition is_separator (s : string) : Prop := s ≠ "" ∧ all_space s.

Global Instance is_token_dec s : Decision (is_token s).
Proof. unfold is_token. apply _. Defined.
Global Instance is_separator_dec s : Decision (is_separator s).
Proof. unfold is_separator. apply _. Defined.

(** A file name the routine can write as the first field of a row: a
    token that does not start a comment. *)
Definition plain_name (f : string) : Prop := is_token f ∧ ¬ is_comment f.

Global Instance plain_name_dec f : Decision (plain_name f).
Proof. unfold plain_name. apply _. Defined.

(** Modelled from the spec: [shift_lines split flcs lines]: [lines] is
    a shift file for the images [flcs].  Of its lines that are neither
    blank nor comments there is one for each image, in the order of the
    list, and the splitter divides it into the seven fields of a row
    whose first field is the name of the image. *)
Definition shift_lines (split : string → list string) (flcs : list string)
    (lines : list string) : Prop :=
  ∃ rs : list shift_row,
    s_file <$> rs = flcs ∧
    split <$> filter is_data_line lines = shift_fields <$> rs.

(** Modelled from the spec: the alignment routine, asked for a shift
    file ([shiftfile=True], [outshifts=out] with [out] a [.txt] name
    that is none of the images) for images of plain names, leaves such
    a file when it returns. *)
Definition writes_shifts (E : Env) : Prop :=
  ∀ flcs kw w out,
    Forall plain_name flcs →
    kwarg "shiftfile" kw = Some (VBool true) →
    kwarg "outshifts" kw = Some (VStr out) →
    fnmatch "*.txt" out → out ∉ flcs →
    (TweakReg E flcs kw w).2 = Ok tt →
    ∃ lines,
      (TweakReg E flcs kw w).1 !! [out] = Some (File (TextFile lines)) ∧
      shift_lines (tokens E) flcs lines.

(** ** A simulated archive and library

    An environment to run the notebook in: the archive delivers the four
    FLC exposures of the three observations, the alignment routine
    writes its shift file, plots and match catalogue (and stamps the
    headers when asked to), the combination routine writes the combined
    file.  It is used for examples only; the theorems hold for every
    environment. *)

Definition sim_exposure (root pa : string) : node :=
  File (FitsFile (Fits [("ROOTNAME", root); ("PA_V3", pa)]
                       [(("SCI", 1), [0; 1]); (("SCI", 2), [2; 3])])).

Definition sim_download (fs : filesystem) : filesystem :=
  <[ ["mastDownload"; "HST"; "j9irw5kaq"; "j9irw5kaq_flc.fits"]
       := sim_exposure "j9irw5kaq" "150.0" ]>
  (<[ ["mastDownload"; "HST"; "j9irw4040"; "j9irw4b3q_flc.fits"]
       := sim_exposure "j9irw4b3q" "88.0" ]>
  (<[ ["mastDownload"; "HST"; "j9irw4040"; "j9irw4b1q_flc.fits"]
       := sim_exposure "j9irw4b1q" "88.0" ]>
  (<[ ["mastDownload"; "HST"; "j9irw3fwq"; "j9irw3fwq_flc.fits"]
       := sim_exposure "j9irw3fwq" "60.0" ]>
  (<[ ["mastDownload"; "HST"; "j9irw5kaq"] := Dir ]>
  (<[ ["mastDownload"; "HST"; "j9irw4040"] := Dir ]>
  (<[ ["mastDownload"; "HST"; "j9irw3fwq"] := Dir ]>
  (<[ ["mastDownload"; "HST"] := Dir ]>
  (<[ ["mastDownload"] := Dir ]> fs)))))))).

Definition sim_stamp (n : node) : node :=
  match n with
  | File (FitsFile f) =>
      File (FitsFile (Fits (("WCSNAME", "TWEAK") :: header f) (hdus f)))
  | _ => n
  end.

Definition sim_shift_row (f : string) : shift_row :=
  ShiftRow f "0.000000" "0.000000" "0.000000" "1.000000" "0.040000" "0.040000".

(** The simulated shift file: comment lines, then for each row its
    fields with [sep] between. *)
Fixpoint join (sep : string) (l : list string) : string :=
  match l with
  | [] => ""
  | [x] => x
  | x :: l' => x +:+ sep +:+ join sep l'
  end.

Definition shift_line (sep : string) (r : shift_row) : string :=
  join sep (shift_fields r).

Definition shift_file (comments : list string) (sep : string)
    (rs : list shift_row) : list string :=
  comments ++ (shift_line sep <$> rs).

(** A row of well-formed fields whose file name does not start a
    comment. *)
Definition shift_row_ok (r : shift_row) : Prop :=
  Forall is_token (shift_fields r) ∧ ¬ is_comment (s_file r).

Global Instance shift_row_ok_dec r : Decision (shift_row_ok r).
Proof. unfold shift_row_ok. apply _. Defined.

Definition sim_match_rows : list string :=
  ["# matched sources";
   "10.5 20.5 10.4 20.6 0.1 -0.1 100.0 200.0 7 9 100.25 200.75 3 4 1";
   "11.5 21.5 11.4 21.6 0.1 -0.1 101.0 201.0 8 10 300.5 400.5 5 6 2"].

Definition sim_plot : node := File (Binary [137; 80; 78; 71]).

(** A routine of the library reads the settings file it left in the
    working directory on an earlier run, unless it is called with
    [configobj=None]; reading one is simulated as a different outcome. *)
Definition sim_loads (cfg : string) (kw : kwargs) (fs : filesystem) : bool :=
  if bool_decide (kwarg "configobj" kw = Some VNone) then false
  else bool_decide (is_Some (fs !! [cfg])).

(** The files the simulated alignment writes: the shift file when asked
    for, the match catalogue and the plots. *)
Definition sim_products (flcs : list string) (kw : kwargs)
    : list (string * node) :=
  match kwarg "shiftfile" kw, kwarg "outshifts" kw with
  | Some (VBool true), Some (VStr out) =>
      [(out, File (TextFile (shift_file ["# units: pixels"] "    "
                               (sim_shift_row <$> flcs))))]
  | _, _ => []
  end ++
  [(match_file, File (TextFile sim_match_rows));
   ("residuals_j9irw4b1q_flc.png", sim_plot);
   ("vector_j9irw4b1q_flc.png", sim_plot);
   ("residuals_j9irw5kaq_flc.png", sim_plot);
   ("vector_j9irw5kaq_flc.png", sim_plot)].

(** A product is never written over an input file. *)
Definition sim_write (flcs : list string) (fs : filesystem)
    (prod : string * node) : filesystem :=
  if bool_decide (prod.1 ∈ flcs) then fs else <[ [prod.1] := prod.2 ]> fs.

Definition sim_TweakReg (flcs : list string) (kw : kwargs) (w : world)
    : filesystem * outcome unit :=
  if sim_loads "tweakreg.cfg" kw (fs w) then (fs w, Raise (LibraryError 2))
  else
    let fs1 := if bool_decide (kwarg "updatehdr" kw = Some (VBool true))
               then foldr (λ f, alter sim_stamp [f]) (fs w) flcs
               else fs w in
    (foldl (sim_write flcs) fs1 (sim_products flcs kw), Ok tt).

Definition sim_combined : node :=
  File (FitsFile (Fits [] [(("SCI", 1), [5]); (("WHT", 1), [6]);
                           (("CTX", 1), [7])])).

Definition sim_AstroDrizzle (flcs : list string) (kw : kwargs) (w : world)
    : filesystem * outcome unit :=
  if sim_loads "astrodrizzle.cfg" kw (fs w)
  then (fs w, Raise (LibraryError 2))
  else
    match kwarg "output" kw with
    | Some (VStr out) =>
        (<[ [out +:+ "_drc.fits"] := sim_combined ]> (fs w), Ok tt)
    | _ => (fs w, Raise (LibraryError 1))
    end.

(** The simulated [ascii.read]: a table without a header line, its
    fields set apart by white space, its columns named [col1], [col2],
    and so on. *)
Definition sim_guess (lines : list string) : outcome table :=
  match String.words <$> filter is_data_line lines with
  | [] => Raise InconsistentTableError
  | r :: rs =>
      if forallb (λ r', bool_decide (length r' = length r)) rs
      then Ok (Table (auto_names (length r)) (r :: rs))
      else Raise InconsistentTableError
  end.

Definition sim : Env := {|
  handle := unit;
  query_criteria := λ _ _, Ok tt;
  get_product_list := λ _ _, Ok tt;
  download_products := λ _ _ w, (sim_download (fs w), Ok tt);
  TweakReg := sim_TweakReg;
  AstroDrizzle := sim_AstroDrizzle;
  dir_rank := λ _ _ _, 0%nat;
  tokens := String.words;
  guess_table := sim_guess;
  compare_column := λ _ _ _, false;
  render := λ _ _, Ok tt
|}.

(** The same with the archive out of reach. *)
Definition sim_offline : Env := {|
  handle := unit;
  query_criteria := λ _ _, Raise (LibraryError 503);
  get_product_list := λ _ _, Ok tt;
  download_products := λ _ _ w, (sim_download (fs w), Ok tt);
  TweakReg := sim_TweakReg;
  AstroDrizzle := sim_AstroDrizzle;
  dir_rank := λ _ _ _, 0%nat;
  tokens := String.words;
  guess_table := sim_guess;
  compare_column := λ _ _ _, false;
  render := λ _ _, Ok tt
|}.

Definition three_flcs : list string :=
  ["j9irw3fwq_flc.fits"; "j9irw4b1q_flc.fits"; "j9irw5kaq_flc.fits"].

(** What a log holds after its first call of [fn]. *)
Fixpoint after_call (fn : string) (l : list event) : list event :=
  match l with
  | [] => []
  | ev :: l' => if is_call fn ev then l' else after_call fn l'
  end.

(** The FITS data reads of a log. *)
Definition data_reads (l : list event) : list (string * string * Z) :=
  omap (λ ev, match ev with
              | EData f ext ver => Some (f, ext, ver)
              | _ => None
              end) l.

(** ** The download directory *)

(** The file system a [for] loop of file operations leaves. *)
Fixpoint apply_each {A} (op : A → filesystem → outcome filesystem)
    (l : list A) (fs : filesystem) : outcome filesystem :=
  match l with
  | [] => Ok fs
  | x :: l' =>
      match op x fs with
      | Ok fs' => apply_each op l' fs'
      | Raise e => Raise e
      end
  end.

(** The body of cell 5's loop: [shutil.copy(flc, os.path.basename(flc))]. *)
Definition copy_home (flc : path) : filesystem → outcome filesystem :=
  copy flc [basename flc].

(** [downloaded fs obs f c]: the nested download directory
    [mastDownload/HST/obs/] holds the calibrated exposure file [f]
    (a visible name that ends in [flc.fits]) with content [c]. *)
Definition downloaded (fs : filesystem) (obs f : string) (c : content)
    : Prop :=
  fs !! ["mastDownload"] = Some Dir ∧
  fs !! ["mastDownload"; "HST"] = Some Dir ∧
  fs !! ["mastDownload"; "HST"; obs] = Some Dir ∧
  ¬ ishidden obs ∧
  fs !! ["mastDownload"; "HST"; obs; f] = Some (File c) ∧
  (∃ s, f = s +:+ "flc.fits") ∧
  ¬ ishidden f.

(** The state in which cell 5 starts to move the files: the world
    after the download. *)
Definition after_download (E : Env) (fs0 : filesystem) : world :=
  (acquire E (init fs0)).1.

(** ** What is assumed of the alignment routine *)

(** Called with [updatehdr=False] on images named [*flc.fits], and not
    asked to write its shift file under such a name, the alignment
    routine leaves the images as they were. *)
Definition keeps_inputs (E : Env) : Prop :=
  ∀ flcs kw w f,
    f ∈ flcs → Forall (λ g, fnmatch "*flc.fits" g) flcs →
    kwarg "updatehdr" kw = Some (VBool false) →
    (∀ out, kwarg "outshifts" kw = Some (VStr out) →
            ¬ fnmatch "*flc.fits" out) →
    (TweakReg E flcs kw w).1 !! [f] = fs w !! [f].

(** ** Leftover settings files *)

(** A settings file of the library: a name that ends in [.cfg]. *)
Definition is_cfg (n : string) : bool := fnmatch "*.cfg" n.

(** Two file systems that differ only in their settings files: in which
    [*.cfg] files the working directory holds, and in what these hold. *)
Definition cfg_equiv (fs1 fs2 : filesystem) : Prop :=
  ∀ p : path, fs1 !! p = fs2 !! p ∨
    (∃ n, p = [n] ∧ is_cfg n ∧ fs1 !! p ≠ Some Dir ∧ fs2 !! p ≠ Some Dir).

(** A routine that does not look at settings files: in two worlds that
    differ only there it ends alike. *)
Definition cfg_blind {A} (routine : world → filesystem * outcome A) : Prop :=
  ∀ w1 w2, log w1 = log w2 → cfg_equiv (fs w1) (fs w2) →
    (routine w1).2 = (routine w2).2 ∧
    cfg_equiv (routine w1).1 (routine w2).1.

Definition cfg_blind_answer {A} (routine : world → outcome A) : Prop :=
  ∀ w1 w2, log w1 = log w2 → cfg_equiv (fs w1) (fs w2) →
    routine w1 = routine w2.

(** The operating system lists the entries of a directory in the same
    order whatever settings files the working directory holds: the rank
    of a name that is no settings file of the working directory is the
    same in two file systems that differ only in those. *)
Definition order_blind (ord : dir_order) : Prop :=
  ∀ fs1 fs2 (d : path) n,
    cfg_equiv fs1 fs2 → (d = [] → ¬ is_cfg n) → ord fs1 d n = ord fs2 d n.

(** The library as the notebook describes it: the alignment and the
    combination routine read settings files unless called with
    [configobj=None]; the archive client and the drawing never do.  The
    two routines read their images, so this is asked of them for images
    that are no settings files.  The operating system lists the other
    entries of a directory in the same order whatever settings files
    there are. *)
Definition ignores_cfg (E : Env) : Prop :=
  (∀ kw, cfg_blind_answer (query_criteria E kw)) ∧
  (∀ h, cfg_blind_answer (get_product_list E h)) ∧
  (∀ h kw, cfg_blind (download_products E h kw)) ∧
  (∀ flcs kw, Forall (λ f, ¬ is_cfg f) flcs →
     kwarg "configobj" kw = Some VNone →
     cfg_blind (TweakReg E flcs kw)) ∧
  (∀ flcs kw, Forall (λ f, ¬ is_cfg f) flcs →
     kwarg "configobj" kw = Some VNone →
     cfg_blind (AstroDrizzle E flcs kw)) ∧
  (∀ what, cfg_blind_answer (render E what)) ∧
  order_blind (dir_rank E).

(** A computation of the notebook that does not look at settings
    files. *)
Definition blind {A} (m : M A) : Prop :=
  ∀ w1 w2, log w1 = log w2 → cfg_equiv (fs w1) (fs w2) →
    (m w1).2 = (m w2).2 ∧
    log (m w1).1 = log (m w2).1 ∧
    cfg_equiv (fs (m w1).1) (fs (m w2).1).

(** A file operation that does not look at settings files. *)
Definition op_blind (op : filesystem → outcome filesystem) : Prop :=
  ∀ fs1 fs2, cfg_equiv fs1 fs2 →
    match op fs1, op fs2 with
    | Ok fs1', Ok fs2' => cfg_equiv fs1' fs2'
    | Raise e1, Raise e2 => e1 = e2
    | _, _ => False
    end.

(** The last character of a name. *)
Fixpoint last_char (s : string) : option ascii :=
  match s with
  | "" => None
  | String c "" => Some c
  | String _ s' => last_char s'
  end.

(** A working directory with settings files left by earlier runs. *)
Definition sim_leftovers : filesystem :=
  <[ ["tweakreg.cfg"] := File (TextFile ["threshold = 4.0"]) ]>
  (<[ ["astrodrizzle.cfg"] := File (TextFile ["build = False"]) ]> ∅).

(** ** Further behaviour of the cells *)

(** An archive with nothing to deliver: the download writes no file. *)
Definition sim_empty_archive : Env := {|
  handle := unit;
  query_criteria := λ _ _, Ok tt;
  get_product_list := λ _ _, Ok tt;
  download_products := λ _ _ w, (fs w, Ok tt);
  TweakReg := sim_TweakReg;
  AstroDrizzle := sim_AstroDrizzle;
  dir_rank := λ _ _ _, 0%nat;
  tokens := String.words;
  guess_table := sim_guess;
  compare_column := λ _ _ _, false;
  render := λ _ _, Ok tt
|}.

(** An archive that delivers the W4 association without its second
    exposure. *)
Definition sim_short_archive : Env := {|
  handle := unit;
  query_criteria := λ _ _, Ok tt;
  get_product_list := λ _ _, Ok tt;
  download_products := λ _ _ w,
    (delete ["mastDownload"; "HST"; "j9irw4040"; "j9irw4b3q_flc.fits"]
            (sim_download (fs w)), Ok tt);
  TweakReg := sim_TweakReg;
  AstroDrizzle := sim_AstroDrizzle;
  dir_rank := λ _ _ _, 0%nat;
  tokens := String.words;
  guess_table := sim_guess;
  compare_column := λ _ _ _, false;
  render := λ _ _, Ok tt
|}.

(** The primary header of the working directory's file [f] holds the
    two cards that cell 7 prints. *)
Definition has_orientation (fs : filesystem) (f : string) : Prop :=
  ∃ ft, fs !! [f] = Some (File (FitsFile ft)) ∧
        is_Some (assoc "ROOTNAME" (header ft)) ∧
        is_Some (assoc "PA_V3" (header ft)).

(** [moved old new w w']: between [w] and [w'] the file [old] of the
    working directory went to the name [new], nothing else changed, and
    the one event logged is the display of [new]. *)
Definition moved (old new : string) (w w' : world) : Prop :=
  ∃ c, fs w !! [old] = Some (File c) ∧
       fs w' !! [new] = Some (File c) ∧
       fs w' !! [old] = None ∧
       (∀ q : path, q ≠ [old] → q ≠ [new] → fs w' !! q = fs w !! q) ∧
       log w' = log w ++ [EImage new].

(** The plots of the general fit, under the names the alignment routine
    gives them and the names cells 26 and 28 give them. *)
Definition plot_names : list string :=
  ["residuals_j9irw4b1q_flc.png"; "residuals_j9irw4b1q_flc_general.png";
   "vector_j9irw4b1q_flc.png"; "vector_j9irw4b1q_flc_general.png"].

(** A path the notebook's own file operations have no business with: its
    first component is not [mastDownload], does not match [*flc.fits] and
    is no plot of cells 26 and 28. *)
Definition foreign (q : path) : Prop :=
  match q with
  | [] => False
  | n :: _ => n ≠ "mastDownload" ∧ ¬ fnmatch "*flc.fits" n ∧ n ∉ plot_names
  end.

(** The library routines that write files leave [q] as it is. *)
Definition env_keeps (E : Env) (q : path) : Prop :=
  (∀ h kw w, (download_products E h kw w).1 !! q = fs w !! q) ∧
  (∀ flcs kw w, (TweakReg E flcs kw w).1 !! q = fs w !! q) ∧
  (∀ flcs kw w, (AstroDrizzle E flcs kw w).1 !! q = fs w !! q).

(** A computation that leaves [q] as it is, however it ends. *)
Definition keeps {A} (q : path) (m : M A) : Prop :=
  ∀ w, fs (m w).1 !! q = fs w !! q.

(** A working directory with the plots of an alignment run. *)
Definition sim_plots : world :=
  World (<[ ["residuals_j9irw4b1q_flc.png"] := sim_plot ]>
           (<[ ["vector_j9irw4b1q_flc.png"] := sim_plot ]> ∅))
        [].

(** A working directory with a shift file of two rows. *)
Definition sim_shifts : world :=
  World (<[ ["shift_thresh.txt"] :=
              File (TextFile ["# units: pixels";
                              "a_flc.fits 0.1 0.2 0.0 1.0 0.04 0.04";
                              "b_flc.fits 0.3 0.4 0.0 1.0 0.05 0.05"]) ]> ∅)
        [].

(** A shift file with a row that lacks its last field. *)
Definition sim_ragged : world :=
  World (<[ ["shift_thresh.txt"] :=
              File (TextFile ["# units: pixels";
                              "a_flc.fits 0.1 0.2 0.0 1.0 0.04 0.04";
                              "b_flc.fits 0.1 0.2 0.0 1.0 0.04"]) ]> ∅)
        [].

(** A working directory with a file of the user's own in a folder. *)
Definition sim_notes : filesystem :=
  <[ ["docs"; "readme.txt"] := File (TextFile ["observing log"]) ]>
  (<[ ["docs"] := Dir ]> ∅).

(** A working directory that holds an exposure of an earlier session. *)
Definition sim_stale : filesystem :=
  <[ ["ib2j02n5q_flc.fits"] := sim_exposure "ib2j02n5q" "12.0" ]> ∅.

(** [extension ft name ver d]: [d] is the data of the first extension
    of [ft] with the name [name] and the version [ver]. *)
Definition extension (ft : fits) (name : string) (ver : Z) (d : list Z)
    : Prop :=
  ∃ i : nat, hdus ft !! i = Some ((name, ver), d) ∧
    ∀ (j : nat) h, (j < i)%nat → hdus ft !! j = Some h → h.1 ≠ (name, ver).

(** A working directory that holds a directory named like an
    exposure. *)
Definition sim_clash : filesystem :=
  <[ ["j9irw3fwq_flc.fits"] := Dir ]> ∅.
(** * Properties *)

(** ** The log calculus *)

Lemma extends_bind {A B} (m : M A) (f : A → M B) w e1 e2 :
  extends w (m w) e1 →
  (∀ a w1, m w = (w1, Ok a) → extends w1 (f a w1) e2) →
  extends w ((m ≫= f) w) (e1 ++ e2).
Proof.
  intros [k [Hk Hok]] Hf.
  unfold mbind, M_bind, bind. destruct (m w) as [w1 [a|e]] eqn:Hm; simpl in *.
  - destruct (Hf a w1 eq_refl) as [k2 [Hk2 Hok2]].
    specialize (Hok I).
    exists (length e1 + k2)%nat. split.
    + rewrite Hk2, Hok, take_app_add, <-(assoc_L (++)). done.
    + intros Hr. rewrite Hok2, Hok by done. by rewrite (assoc_L (++)).
  - exists (k `min` length e1)%nat. split; [|done].
    simpl. rewrite Hk. f_equal. rewrite take_app_le by lia.
    destruct (decide (k ≤ length e1)%nat).
    + by rewrite Nat.min_l.
    + rewrite Nat.min_r by lia. by rewrite !take_ge by lia.
Qed.

Lemma emits_bind {A B} (m : M A) (f : A → M B) e1 e2 :
  emits m e1 → (∀ a, emits (f a) e2) → emits (m ≫= f) (e1 ++ e2).
Proof. intros Hm Hf w. apply extends_bind; [apply Hm|]. intros. apply Hf. Qed.

Lemma emits_ret {A} (a : A) : emits (mret a) [].
Proof. intros w. exists 0%nat. simpl. by rewrite app_nil_r. Qed.

Lemma emits_emit ev : emits (emit ev) [ev].
Proof. intros w. exists 1%nat. done. Qed.

Lemma emits_fs_op f : emits (fs_op f) [].
Proof.
  intros w. exists 0%nat. unfold fs_op.
  destruct (f (fs w)); simpl; by rewrite app_nil_r.
Qed.

Lemma emits_fs_get {A} (f : filesystem → A) : emits (fs_get f) [].
Proof. intros w. exists 0%nat. simpl. by rewrite app_nil_r. Qed.

Lemma emits_fs_try {A} (f : filesystem → outcome A) : emits (fs_try f) [].
Proof. intros w. exists 0%nat. simpl. by rewrite app_nil_r. Qed.

Lemma emits_ask {A} (f : world → outcome A) : emits (ask f) [].
Proof. intros w. exists 0%nat. simpl. by rewrite app_nil_r. Qed.

Lemma emits_act {A} (f : world → filesystem * outcome A) : emits (act f) [].
Proof.
  intros w. exists 0%nat. unfold act. destruct (f w); simpl.
  by rewrite app_nil_r.
Qed.

Lemma emits_for_each {A} (l : list A) (body : A → M unit) ev :
  (∀ x, emits (body x) (ev x)) → emits (for_each l body) (l ≫= ev).
Proof.
  intros Hbody. induction l as [|x l IH]; simpl.
  - apply emits_ret.
  - apply emits_bind; [apply Hbody|]. intros _. apply IH.
Qed.

Lemma emits_eq {A} (m : M A) evs evs' :
  emits m evs → evs = evs' → emits m evs'.
Proof. by intros ? <-. Qed.

(** The events of a straight-line cell, read off its statements. *)
Ltac emits_step :=
  first
    [ apply emits_ret | apply emits_emit | apply emits_fs_op
    | apply emits_fs_get | apply emits_fs_try | apply emits_ask
    | apply emits_act
    | eapply emits_bind; [|intros ?] ].

Ltac solve_emits :=
  eapply emits_eq; [repeat emits_step | reflexivity].

Section Trace.

Variable E : Env.

Lemma acquire_emits : emits (acquire E) acquire_events.
Proof. unfold acquire, call, call_io. solve_emits. Qed.

Lemma for_each_silent {A} (l : list A) (body : A → M unit) :
  (∀ x, emits (body x) []) → emits (for_each l body) [].
Proof.
  intros Hbody. eapply emits_eq; [apply emits_for_each, Hbody|].
  induction l; simpl; auto.
Qed.

Lemma relocate_emits : emits (relocate E) [].
Proof.
  unfold relocate. eapply emits_eq.
  - eapply emits_bind; [apply emits_fs_get|]. intros flcs.
    eapply emits_bind; [apply for_each_silent; intros; apply emits_fs_op|].
    intros _. repeat emits_step.
  - reflexivity.
Qed.

Lemma select_inputs_emits : emits (select_inputs E) [].
Proof. unfold select_inputs. solve_emits. Qed.

Lemma cell5_emits : emits (cell5 E) acquire_events.
Proof.
  unfold cell5. eapply emits_eq.
  - eapply emits_bind; [apply acquire_emits|]. intros _.
    eapply emits_bind; [apply relocate_emits|]. intros _.
    apply select_inputs_emits.
  - reflexivity.
Qed.

Lemma getval_emits f key : emits (getval f key) [EGetval f key].
Proof. unfold getval. solve_emits. Qed.

Lemma cell7_extends w :
  extends w (cell7 E w)
    (getval_events (path_str <$> glob (dir_rank E) (fs w) ["*flc.fits"])).
Proof.
  unfold cell7.
  change (getval_events ?l) with ([] ++ getval_events l).
  apply extends_bind; [apply emits_fs_get|].
  intros files w1 Hget. injection Hget as <- <-.
  apply emits_for_each. intros f. eapply emits_eq.
  - eapply emits_bind; [apply getval_emits|]. intros _.
    eapply emits_bind; [apply getval_emits|]. intros _. apply emits_ret.
  - reflexivity.
Qed.

Lemma tweakreg_emits flcs kw : emits (tweakreg E flcs kw) [tweak_call flcs kw].
Proof. unfold tweakreg, call_io. solve_emits. Qed.

Lemma Table_read_emits split file names :
  emits (Table_read split file names) [ETable "Table.read" file (Some names)].
Proof. unfold Table_read. solve_emits. Qed.

Lemma ascii_read_emits guess file :
  emits (ascii_read guess file) [ETable "ascii.read" file None].
Proof. unfold ascii_read. solve_emits. Qed.

Lemma show_emits what : emits (show E what) [].
Proof. apply emits_ask. Qed.

Lemma read_shifts_emits file :
  emits (read_shifts E file) [ETable "Table.read" file (Some shift_names)].
Proof.
  unfold read_shifts. eapply emits_eq.
  - eapply emits_bind; [apply Table_read_emits|]. intros tab.
    eapply emits_bind; [apply for_each_silent; intros; apply show_emits|].
    intros _. apply emits_ret.
  - reflexivity.
Qed.

Lemma Image_emits file : emits (Image file) [EImage file].
Proof. unfold Image. solve_emits. Qed.

Lemma fits_data_emits file ext ver :
  emits (fits_data file ext ver) [EData file ext ver].
Proof. unfold fits_data. solve_emits. Qed.

Lemma cell26_emits : emits cell26 [EImage "residuals_j9irw4b1q_flc_general.png"].
Proof. unfold cell26, Image. solve_emits. Qed.

Lemma cell28_emits : emits cell28 [EImage "vector_j9irw4b1q_flc_general.png"].
Proof. unfold cell28, Image. solve_emits. Qed.

Lemma cell34_emits :
  emits (cell34 E) [EData "j9irw4b1q_flc.fits" "SCI" 1;
                    ETable "ascii.read" match_file None].
Proof. unfold cell34, show, fits_data, ascii_read. solve_emits. Qed.

Lemma inspect_emits ext : emits (inspect E ext) [EData drc_file ext 1].
Proof. unfold inspect, show, fits_data. solve_emits. Qed.

Lemma cell37_emits flcs : emits (cell37 E flcs) [drizzle_call flcs].
Proof. unfold cell37, call_io. solve_emits. Qed.

Lemma analysis_extends flcs w :
  extends w (analysis E flcs w)
    (analysis_events flcs
       (path_str <$> glob (dir_rank E) (fs w) ["*flc.fits"])).
Proof.
  unfold analysis, analysis_events.
  apply extends_bind; [apply cell7_extends|]. intros _ w1 _.
  revert w1. change (emits
    (cell15 E flcs ;; cell17 E ;; cell19 ;; cell20 ;; cell23 E flcs ;;
     cell24 E ;; cell26 ;; cell28 ;; cell32 E flcs ;; cell34 E ;;
     cell37 E flcs ;; cell40 E ;; cell42 E ;; mret tt)
    [tweak_call flcs tweak_thresh_kwargs;
     ETable "Table.read" "shift_thresh.txt" (Some shift_names);
     EImage "residuals_j9irw5kaq_flc.png";
     EImage "vector_j9irw4b1q_flc.png";
     tweak_call flcs tweak_general_kwargs;
     ETable "Table.read" "shift_general.txt" (Some shift_names);
     EImage "residuals_j9irw4b1q_flc_general.png";
     EImage "vector_j9irw4b1q_flc_general.png";
     tweak_call flcs tweak_final_kwargs;
     EData "j9irw4b1q_flc.fits" "SCI" 1;
     ETable "ascii.read" match_file None;
     drizzle_call flcs;
     EData drc_file "SCI" 1;
     EData drc_file "WHT" 1]).
  eapply emits_eq.
  - eapply emits_bind; [apply tweakreg_emits|]. intros _.
    eapply emits_bind; [apply read_shifts_emits|]. intros _.
    eapply emits_bind; [apply Image_emits|]. intros _.
    eapply emits_bind; [apply Image_emits|]. intros _.
    eapply emits_bind; [apply tweakreg_emits|]. intros _.
    eapply emits_bind; [apply read_shifts_emits|]. intros _.
    eapply emits_bind; [apply cell26_emits|]. intros _.
    eapply emits_bind; [apply cell28_emits|]. intros _.
    eapply emits_bind; [apply tweakreg_emits|]. intros _.
    eapply emits_bind; [apply cell34_emits|]. intros _.
    eapply emits_bind; [apply cell37_emits|]. intros _.
    eapply emits_bind; [apply inspect_emits|]. intros _.
    eapply emits_bind; [apply inspect_emits|]. intros _.
    apply emits_ret.
  - reflexivity.
Qed.

End Trace.

(** ** The log of a run *)

Lemma bind_ok {A B} (m : M A) (f : A → M B) w w' b :
  (m ≫= f) w = (w', Ok b) →
  ∃ a w1, m w = (w1, Ok a) ∧ f a w1 = (w', Ok b).
Proof.
  unfold mbind, M_bind, bind. destruct (m w) as [w1 [a|e]]; [eauto|done].
Qed.

Lemma bind_raise {A B} (m : M A) (f : A → M B) w w' e :
  m w = (w', Raise e) → (m ≫= f) w = (w', Raise e).
Proof. unfold mbind, M_bind, bind. by intros ->. Qed.

Lemma bind_step {A B} (m : M A) (f : A → M B) w w1 a :
  m w = (w1, Ok a) → (m ≫= f) w = f a w1.
Proof. unfold mbind, M_bind, bind. by intros ->. Qed.

Lemma select_inputs_result E w w1 l :
  select_inputs E w = (w1, Ok l) →
  l = path_str <$> glob (dir_rank E) (fs w1) ["*flc.fits"].
Proof.
  unfold select_inputs. intros H.
  apply bind_ok in H as (_ & w2 & _ & H).
  apply bind_ok in H as (l' & w3 & Hget & H).
  injection Hget as <- <-. by injection H as <- <-.
Qed.

Lemma cell5_result E w w1 l :
  cell5 E w = (w1, Ok l) →
  l = path_str <$> glob (dir_rank E) (fs w1) ["*flc.fits"].
Proof.
  unfold cell5. intros H.
  apply bind_ok in H as (_ & w2 & _ & H).
  apply bind_ok in H as (_ & w3 & _ & H).
  by apply select_inputs_result in H.
Qed.

(** Every run of the notebook logs a prefix of [script], and all of it
    when no cell raises. *)
Lemma notebook_trace E fs0 :
  extends (init fs0) (notebook E (init fs0)) (script (inputs E fs0)).
Proof.
  unfold notebook, script.
  apply extends_bind; [apply cell5_emits|].
  intros flcs w1 H5. unfold inputs. rewrite H5.
  pose proof (analysis_extends E flcs w1) as H.
  by rewrite <-(cell5_result _ _ _ _ H5) in H.
Qed.

Lemma run_log_prefix E fs0 :
  ∃ k, run_log E fs0 = take k (script (inputs E fs0)).
Proof. destruct (notebook_trace E fs0) as [k [Hk _]]. by exists k. Qed.

Lemma run_log_complete E fs0 :
  completes E fs0 → run_log E fs0 = script (inputs E fs0).
Proof. destruct (notebook_trace E fs0) as [k [_ Hok]]. apply Hok. Qed.

Lemma run_log_elem E fs0 ev :
  ev ∈ run_log E fs0 → ev ∈ script (inputs E fs0).
Proof.
  destruct (run_log_prefix E fs0) as [k ->]. intros H.
  rewrite <-(take_drop k (script _)). apply elem_of_app. by left.
Qed.

Lemma calls_of_prefix fn k l : calls_of fn (take k l) `prefix_of` calls_of fn l.
Proof.
  unfold calls_of. rewrite <-(take_drop k l) at 2. rewrite filter_app.
  by apply prefix_app_r.
Qed.

Lemma calls_of_getval fn files : calls_of fn (getval_events files) = [].
Proof.
  unfold calls_of, getval_events. induction files as [|f files IH]; [done|].
  simpl. rewrite filter_cons_False by (simpl; tauto).
  rewrite filter_cons_False by (simpl; tauto). exact IH.
Qed.

Lemma calls_of_script fn flcs :
  calls_of fn (script flcs) =
  calls_of fn acquire_events ++
  calls_of fn (analysis_events flcs []).
Proof.
  pose proof (calls_of_getval fn flcs) as H.
  unfold script, analysis_events, calls_of in *.
  by rewrite !filter_app, H.
Qed.

Lemma prefix_singleton {A} (l : list A) x :
  l `prefix_of` [x] → l = [] ∨ l = [x].
Proof.
  intros [l' H]. destruct l as [|y [|z l]]; simplify_eq/=; auto.
Qed.

Lemma run_calls_prefix E fs0 fn :
  calls_of fn (run_log E fs0) `prefix_of` calls_of fn (script (inputs E fs0)).
Proof. destruct (run_log_prefix E fs0) as [k ->]. apply calls_of_prefix. Qed.

Lemma run_calls_elem E fs0 fn ev :
  ev ∈ run_log E fs0 → is_call fn ev →
  ev ∈ calls_of fn (script (inputs E fs0)).
Proof.
  intros Hin Hcall. apply list_elem_of_filter. split; [done|].
  by apply run_log_elem.
Qed.

Lemma combination_calls flcs :
  calls_of combination (script flcs) = [drizzle_call flcs].
Proof. rewrite calls_of_script. reflexivity. Qed.

Lemma alignment_calls flcs :
  calls_of alignment (script flcs) =
  [tweak_call flcs tweak_thresh_kwargs;
   tweak_call flcs tweak_general_kwargs;
   tweak_call flcs tweak_final_kwargs].
Proof. rewrite calls_of_script. reflexivity. Qed.

Lemma query_calls flcs :
  calls_of archive_query (script flcs) =
  [ECall archive_query [] query_kwargs].
Proof. rewrite calls_of_script. reflexivity. Qed.

(** The simulated run goes through, on the three exposures. *)
Lemma sim_run_log : run_log sim ∅ = script three_flcs.
Proof. vm_compute. reflexivity. Qed.

Lemma sim_completes : completes sim ∅.
Proof. vm_compute. exact I. Qed.

Lemma sim_inputs : inputs sim ∅ = three_flcs.
Proof. vm_compute. reflexivity. Qed.

(** A decidable closed fact, by evaluation. *)
Ltac decide_by_compute :=
  apply (bool_decide_unpack _); vm_compute; exact I.

(** ** The combination call (cell 37) *)

(** C1, as the claim words it, fails: in the simulated run the
    combination call carries a keyword ([preserve]) that belongs to none
    of the listed option classes. *)
Lemma drizzle_sets_unlisted_options :
  ¬ (∀ ev, ev ∈ run_log sim ∅ → is_call combination ev →
       ∀ k, k ∈ keywords (event_kw ev) → is_Some (drizzle_class k)).
Proof.
  intros H.
  assert (is_Some (drizzle_class "preserve")) as [c Hc]; [|done].
  apply (H (drizzle_call three_flcs)).
  - rewrite sim_run_log. decide_by_compute.
  - done.
  - decide_by_compute.
Qed.

(** C1, amended.  In every run each call of the combination routine is
    the call of cell 37 on the input list, with cell 37's keywords; no
    run makes a second one, and a run that completes makes exactly one,
    after the final alignment call on the same list.  The keywords set
    the output name, the pixel mask of both drizzle steps, cosmic-ray
    cleaning, the single output file and the keeping of intermediate
    files to the values listed; the two keywords outside those classes
    are [preserve=False] and [configobj=None]. *)
Theorem drizzle_invoked_once E fs0 :
  (∀ ev, ev ∈ run_log E fs0 → is_call combination ev →
     ev = ECall combination [VStrs (inputs E fs0)] drizzle_kwargs) ∧
  calls_of combination (run_log E fs0)
    `prefix_of` [drizzle_call (inputs E fs0)] ∧
  (completes E fs0 →
     calls_of combination (run_log E fs0) = [drizzle_call (inputs E fs0)] ∧
     ∃ l1 l2 l3, run_log E fs0 =
       l1 ++ tweak_call (inputs E fs0) tweak_final_kwargs
          :: l2 ++ drizzle_call (inputs E fs0) :: l3) ∧
  (λ k, (k, kwarg k drizzle_kwargs, drizzle_class k))
    <$> keywords drizzle_kwargs =
    [("output", Some (VStr "f606w_combined"), Some OutputName);
     ("preserve", Some (VBool false), None);
     ("driz_sep_bits", Some (VStr "64,16"), Some PixelMask);
     ("driz_cr_corr", Some (VBool true), Some CosmicRayCleaning);
     ("final_bits", Some (VStr "64,16"), Some PixelMask);
     ("clean", Some (VBool false), Some KeepIntermediates);
     ("configobj", Some VNone, None);
     ("build", Some (VBool true), Some SingleOutputFile)] ∧
  unclassed drizzle_class drizzle_kwargs = ["preserve"; "configobj"].
Proof.
  split_and!.
  - intros ev Hin Hcall.
    pose proof (run_calls_elem E fs0 combination ev Hin Hcall) as H.
    rewrite combination_calls in H. by apply list_elem_of_singleton in H.
  - rewrite <-combination_calls. apply run_calls_prefix.
  - intros Hdone. rewrite (run_log_complete _ _ Hdone). split.
    + apply combination_calls.
    + unfold script, analysis_events.
      exists (acquire_events ++ getval_events (inputs E fs0) ++
              [tweak_call (inputs E fs0) tweak_thresh_kwargs;
               ETable "Table.read" "shift_thresh.txt" (Some shift_names);
               EImage "residuals_j9irw5kaq_flc.png";
               EImage "vector_j9irw4b1q_flc.png";
               tweak_call (inputs E fs0) tweak_general_kwargs;
               ETable "Table.read" "shift_general.txt" (Some shift_names);
               EImage "residuals_j9irw4b1q_flc_general.png";
               EImage "vector_j9irw4b1q_flc_general.png"]),
             [EData "j9irw4b1q_flc.fits" "SCI" 1;
              ETable "ascii.read" match_file None],
             [EData drc_file "SCI" 1; EData drc_file "WHT" 1].
      by rewrite <-!(assoc_L (++)).
  - reflexivity.
  - reflexivity.
Qed.

(** ** The alignment calls (cells 15, 23 and 32) *)

(** C2, as the claim words it, fails: the alignment call of cell 15
    carries a keyword ([interactive]) outside the listed classes. *)
Lemma tweakreg_sets_unlisted_options :
  ¬ (∀ ev, ev ∈ run_log sim ∅ → is_call alignment ev →
       ∀ k, k ∈ keywords (event_kw ev) → is_Some (tweak_class k)).
Proof.
  intros H.
  assert (is_Some (tweak_class "interactive")) as [c Hc]; [|done].
  apply (H (tweak_call three_flcs tweak_thresh_kwargs)).
  - rewrite sim_run_log. decide_by_compute.
  - done.
  - decide_by_compute.
Qed.

(** C2, amended.  Every call of the alignment routine, in every run,
    passes the input list (names in the working directory) and keywords
    of the listed classes, and besides them exactly the two keywords
    [configobj=None] and [interactive=False]. *)
Theorem tweakreg_calls_options E fs0 :
  Forall (λ ev, is_call alignment ev →
            event_args ev = [VStrs (inputs E fs0)] ∧
            unclassed tweak_class (event_kw ev) = ["configobj"; "interactive"] ∧
            kwarg "configobj" (event_kw ev) = Some VNone ∧
            kwarg "interactive" (event_kw ev) = Some (VBool false))
         (run_log E fs0) ∧
  Forall (λ f, ∃ fs, [f] ∈ glob (dir_rank E) fs ["*flc.fits"]) (inputs E fs0).

Proof.
  split.
  - apply Forall_forall. intros ev Hin Hcall.
    pose proof (run_calls_elem E fs0 alignment ev Hin Hcall) as H.
    rewrite alignment_calls in H.
    rewrite !elem_of_cons, elem_of_nil in H.
    destruct H as [->|[->|[->|[]]]]; by split_and!.
  - unfold inputs. destruct (cell5 E (init fs0)) as [w1 [l|e]] eqn:H5;
      [|by constructor].
    rewrite (cell5_result _ _ _ _ H5). apply Forall_forall.
    intros f Hf. apply list_elem_of_fmap in Hf as (p & -> & Hp).
    exists (fs w1). unfold glob in *. simpl in Hp.
    apply list_elem_of_fmap in Hp as (n & -> & Hn). simpl.
    apply list_elem_of_fmap. by exists n.
Qed.

(** ** Inspecting the combined file (cells 40 and 42) *)

Lemma after_call_prefix fn l1 l2 :
  l1 `prefix_of` l2 → after_call fn l1 `prefix_of` after_call fn l2.
Proof.
  intros [l ->]. induction l1 as [|ev l1 IH]; simpl.
  - apply prefix_nil.
  - destruct (is_call fn ev); [by apply prefix_app_r|done].
Qed.

Lemma after_call_app fn l1 l2 :
  calls_of fn l1 = [] → after_call fn (l1 ++ l2) = after_call fn l2.
Proof.
  unfold calls_of. induction l1 as [|ev l1 IH]; [done|]. simpl.
  destruct (is_call fn ev) eqn:Hev.
  - rewrite filter_cons_True by (by rewrite Hev). done.
  - rewrite filter_cons_False by (rewrite Hev; simpl; tauto). exact IH.
Qed.

Lemma after_combination flcs :
  after_call combination (script flcs) =
  [EData drc_file "SCI" 1; EData drc_file "WHT" 1].
Proof.
  unfold script, analysis_events.
  rewrite (assoc_L (++)), after_call_app; [reflexivity|].
  unfold calls_of. rewrite filter_app.
  pose proof (calls_of_getval combination flcs) as H.
  unfold calls_of in H. by rewrite H.
Qed.

Lemma data_reads_getval files : data_reads (getval_events files) = [].
Proof. induction files; [done|]. simpl. done. Qed.

Lemma data_reads_app l1 l2 :
  data_reads (l1 ++ l2) = data_reads l1 ++ data_reads l2.
Proof. unfold data_reads. apply omap_app. Qed.

Lemma data_reads_script flcs :
  data_reads (script flcs) =
  [("j9irw4b1q_flc.fits", "SCI", 1); (drc_file, "SCI", 1); (drc_file, "WHT", 1)].
Proof.
  unfold script, analysis_events.
  by rewrite !data_reads_app, data_reads_getval.
Qed.

Lemma data_reads_elem l f ext ver :
  EData f ext ver ∈ l ↔ (f, ext, ver) ∈ data_reads l.
Proof.
  unfold data_reads. rewrite list_elem_of_omap. split.
  - intros H. by exists (EData f ext ver).
  - intros (ev & Hev & Heq). destruct ev; by simplify_eq.
Qed.

(** A drawing statement that did not raise left the world as it was. *)
Lemma show_Ok E what w w' : show E what w = (w', Ok tt) → w' = w.
Proof. unfold show, ask. by intros [= <- _]. Qed.

Lemma extension_found (ft : fits) name (ver : Z) (d : list Z) :
  extension ft name ver d ↔
  ∃ i, list_find (λ h, h.1 = (name, ver)) (hdus ft) = Some (i, ((name, ver), d)).
Proof.
  unfold extension. split; intros [i H]; exists i.
  - destruct H as [Hi Hlt]. apply list_find_Some. split_and!; [done..|].
    intros j h Hj Hji. by apply (Hlt j).
  - apply list_find_Some in H as (Hi & _ & Hlt). split; [done|].
    intros j h Hji Hj. by apply (Hlt j).
Qed.

(** What the data of an extension is: the array of the first extension
    of the file that carries the name and the version asked for. *)
Lemma fits_data_Ok (file extname : string) (ver : Z) w w' (d : list Z) :
  fits_data file extname ver w = (w', Ok d) →
  ∃ ft, fs w !! [file] = Some (File (FitsFile ft)) ∧
        extension ft (to_upper extname) ver d ∧
        fs w' = fs w ∧ log w' = log w ++ [EData file extname ver].
Proof.
  unfold fits_data. intros H.
  apply bind_ok in H as ([] & w1 & Hemit & H). injection Hemit as <-.
  unfold fs_try in H. injection H as <- H. simpl in H.
  unfold open_fits, open_file in H.
  destruct (fs w !! [file]) as [[[ft|l|b]|]|] eqn:Hfile; try done.
  destruct (list_find _ (hdus ft)) as [[i [[n v] d']]|] eqn:Hfind; [|done].
  simpl in H. injection H as ->.
  exists ft. split_and!; try done.
  apply extension_found. exists i.
  pose proof Hfind as (_ & Heq & _)%list_find_Some. simpl in Heq.
  by injection Heq as -> ->.
Qed.

Lemma fits_data_run (file extname : string) (ver : Z) w ft (d : list Z) :
  fs w !! [file] = Some (File (FitsFile ft)) →
  extension ft (to_upper extname) ver d →
  fits_data file extname ver w =
  (World (fs w) (log w ++ [EData file extname ver]), Ok d).
Proof.
  intros Hfile [i Hfind]%extension_found.
  unfold fits_data, mbind, M_bind, bind, emit, fs_try, open_fits, open_file.
  simpl. by rewrite Hfile, Hfind.
Qed.

Lemma inspect_Ok E extname w w' (d : list Z) :
  inspect E extname w = (w', Ok d) →
  ∃ ft, fs w !! [drc_file] = Some (File (FitsFile ft)) ∧
        extension ft (to_upper extname) 1 d ∧
        fs w' = fs w ∧ log w' = log w ++ [EData drc_file extname 1].
Proof.
  unfold inspect. intros H.
  apply bind_ok in H as ([] & w1 & ->%show_Ok & H).
  apply bind_ok in H as (d' & w2 & Hdata & H).
  apply bind_ok in H as ([] & w3 & ->%show_Ok & H).
  apply bind_ok in H as ([] & w4 & ->%show_Ok & H).
  apply bind_ok in H as ([] & w5 & ->%show_Ok & H).
  injection H as <- <-. by apply fits_data_Ok.
Qed.

Lemma inspect_run E extname w ft (d : list Z) :
  (∀ what w0, render E what w0 = Ok tt) →
  fs w !! [drc_file] = Some (File (FitsFile ft)) →
  extension ft (to_upper extname) 1 d →
  inspect E extname w =
  (World (fs w) (log w ++ [EData drc_file extname 1]), Ok d).
Proof.
  intros Hdraw Hfile Hext.
  unfold inspect, mbind, M_bind, bind, show, ask.
  rewrite !Hdraw, (fits_data_run _ _ _ _ ft d) by done.
  by rewrite !Hdraw.
Qed.

(** A run that completes ran the combination and the two looks at the
    combined file one after the other. *)
Lemma completed_run_tail E fs0 w :
  notebook E (init fs0) = (w, Ok tt) →
  ∃ w36 w37 w40 sci wht,
    cell37 E (inputs E fs0) w36 = (w37, Ok tt) ∧
    cell40 E w37 = (w40, Ok sci) ∧
    cell42 E w40 = (w, Ok wht).
Proof.
  unfold notebook, inputs. intros H.
  apply bind_ok in H as (flcs & w5 & -> & H). unfold analysis in H.
  apply bind_ok in H as ([] & w7 & _ & H).
  apply bind_ok in H as ([] & w15 & _ & H).
  apply bind_ok in H as (t17 & w17 & _ & H).
  apply bind_ok in H as ([] & w19 & _ & H).
  apply bind_ok in H as ([] & w20 & _ & H).
  apply bind_ok in H as ([] & w23 & _ & H).
  apply bind_ok in H as (t24 & w24 & _ & H).
  apply bind_ok in H as ([] & w26 & _ & H).
  apply bind_ok in H as ([] & w28 & _ & H).
  apply bind_ok in H as ([] & w32 & _ & H).
  apply bind_ok in H as (r34 & w34 & _ & H).
  apply bind_ok in H as ([] & w37 & H37 & H).
  apply bind_ok in H as (sci & w40 & H40 & H).
  apply bind_ok in H as (wht & w42 & H42 & H).
  injection H as <-. by exists w34, w37, w40, sci, wht.
Qed.

(** C6.  The combination call asks for one combined file ([build=True])
    and names it [f606w_combined]; the file the notebook then opens is
    [f606w_combined_drc.fits].  In every run, what follows the
    combination call in the log is a prefix of the two reads [('SCI', 1)]
    and [('WHT', 1)] of that file, and both in a run that completes; no
    run reads any other extension of it, [('CTX', 1)] in particular.
    The array cell 40 returns is the data of the first extension of
    that file named [SCI] with version 1, the array cell 42 returns
    that of the first named [WHT] with version 1, and neither cell
    changes a file; with such extensions in the file, and drawing that
    does not raise, the cells return these arrays.  In a run that
    completes, the two arrays come from one file, as the combination
    call left it. *)
Theorem combined_file_reads E fs0 :
  kwarg "build" drizzle_kwargs = Some (VBool true) ∧
  kwarg "output" drizzle_kwargs = Some (VStr "f606w_combined") ∧
  drc_file = "f606w_combined" +:+ "_drc.fits" ∧
  after_call combination (run_log E fs0)
    `prefix_of` [EData drc_file "SCI" 1; EData drc_file "WHT" 1] ∧
  (completes E fs0 →
     after_call combination (run_log E fs0)
     = [EData drc_file "SCI" 1; EData drc_file "WHT" 1]) ∧
  (∀ ext ver, EData drc_file ext ver ∈ run_log E fs0 →
     (ext, ver) = ("SCI", 1) ∨ (ext, ver) = ("WHT", 1)) ∧
  EData drc_file "CTX" 1 ∉ run_log E fs0 ∧
  (∀ w w' sci, cell40 E w = (w', Ok sci) →
     ∃ ft, fs w !! [drc_file] = Some (File (FitsFile ft)) ∧
           extension ft "SCI" 1 sci ∧ fs w' = fs w) ∧
  (∀ w w' wht, cell42 E w = (w', Ok wht) →
     ∃ ft, fs w !! [drc_file] = Some (File (FitsFile ft)) ∧
           extension ft "WHT" 1 wht ∧ fs w' = fs w) ∧
  (∀ w ft sci wht,
     (∀ what w0, render E what w0 = Ok tt) →
     fs w !! [drc_file] = Some (File (FitsFile ft)) →
     extension ft "SCI" 1 sci → extension ft "WHT" 1 wht →
     (cell40 E w).2 = Ok sci ∧ (cell42 E w).2 = Ok wht) ∧
  (completes E fs0 →
     ∃ w36 w37 w40 sci wht ft,
       cell37 E (inputs E fs0) w36 = (w37, Ok tt) ∧
       cell40 E w37 = (w40, Ok sci) ∧
       cell42 E w40 = ((notebook E (init fs0)).1, Ok wht) ∧
       fs w37 !! [drc_file] = Some (File (FitsFile ft)) ∧
       extension ft "SCI" 1 sci ∧ extension ft "WHT" 1 wht ∧
       fs (notebook E (init fs0)).1 = fs w37).
Proof.
  assert (Hreads : ∀ ext ver, EData drc_file ext ver ∈ run_log E fs0 →
            (ext, ver) = ("SCI", 1) ∨ (ext, ver) = ("WHT", 1)).
  { intros ext ver Hin. apply run_log_elem, data_reads_elem in Hin.
    rewrite data_reads_script in Hin.
    rewrite !elem_of_cons, elem_of_nil in Hin.
    destruct Hin as [Heq|[Heq|[Heq|[]]]]; simplify_eq; auto. }
  split_and!; try reflexivity.
  - rewrite <-(after_combination (inputs E fs0)).
    destruct (run_log_prefix E fs0) as [k ->].
    apply after_call_prefix, prefix_take.
  - intros Hdone. rewrite (run_log_complete _ _ Hdone).
    apply after_combination.
  - exact Hreads.
  - intros Hin. by destruct (Hreads _ _ Hin).
  - intros w w' sci (ft & Hfile & Hext & Hfs & _)%inspect_Ok. eauto.
  - intros w w' wht (ft & Hfile & Hext & Hfs & _)%inspect_Ok. eauto.
  - intros w ft sci wht Hdraw Hfile Hsci Hwht. unfold cell40, cell42.
    by rewrite (inspect_run E "SCI" w ft sci),
               (inspect_run E "WHT" w ft wht).
  - unfold completes. intros Hdone.
    destruct (notebook E (init fs0)) as [w [[]|e]] eqn:Hrun; [|done].
    apply completed_run_tail in Hrun
      as (w36 & w37 & w40 & sci & wht & H37 & H40 & H42).
    pose proof H40 as (ft & Hfile & Hsci & Hfs40 & _)%inspect_Ok.
    pose proof H42 as (ft' & Hfile' & Hwht & Hfs42 & _)%inspect_Ok.
    rewrite Hfs40, Hfile in Hfile'. injection Hfile' as <-.
    exists w36, w37, w40, sci, wht, ft. simpl.
    split_and!; try done. by rewrite Hfs42.
Qed.

(** The simulated run completes; its combined file holds three
    extensions, and the two cells return the data of the first two. *)
Lemma combined_file_reads_witness :
  completes sim ∅ ∧
  (cell40 sim (notebook sim (init ∅)).1).2 = Ok [5] ∧
  (cell42 sim (notebook sim (init ∅)).1).2 = Ok [6] ∧
  ∃ ft, fs (notebook sim (init ∅)).1 !! [drc_file]
        = Some (File (FitsFile ft)) ∧
        extension ft "SCI" 1 [5] ∧ extension ft "WHT" 1 [6].
Proof.
  split; [vm_compute; exact I|].
  split; [vm_compute; reflexivity|].
  split; [vm_compute; reflexivity|].
  destruct (combined_file_reads sim ∅)
    as (_ & _ & _ & _ & _ & _ & _ & Hsci & Hwht & _).
  destruct (Hsci (notebook sim (init ∅)).1
              (cell40 sim (notebook sim (init ∅)).1).1 [5])
    as (ft & Hfile & Hext & _); [vm_compute; reflexivity|].
  destruct (Hwht (notebook sim (init ∅)).1
              (cell42 sim (notebook sim (init ∅)).1).1 [6])
    as (ft' & Hfile' & Hext' & _); [vm_compute; reflexivity|].
  rewrite Hfile in Hfile'. injection Hfile' as <-.
  exists ft. split; [exact Hfile|]. split; [exact Hext|exact Hext'].
Defined.

(** ** The archive query (cell 5) *)

Lemma extends_mono {A} w (res : world * outcome A) evs :
  extends w res evs → log w `prefix_of` log res.1.
Proof. intros [k [-> _]]. by apply prefix_app_r. Qed.

Lemma bind_log_prefix {A B} (m : M A) (f : A → M B) w :
  (∀ a w1, log w1 `prefix_of` log (f a w1).1) →
  log (m w).1 `prefix_of` log ((m ≫= f) w).1.
Proof.
  intros Hf. unfold mbind, M_bind, bind.
  destruct (m w) as [w1 [a|e]]; simpl; [apply Hf|done].
Qed.

Lemma acquire_logs_query E w :
  log w ++ [ECall archive_query [] query_kwargs]
    `prefix_of` log (acquire E w).1.
Proof.
  unfold acquire, call, call_io, mbind, M_bind, bind, emit, ask, act.
  simpl.
  destruct (query_criteria E query_kwargs _) as [h|e]; simpl; [|done].
  destruct (get_product_list E h _) as [p|e]; simpl;
    [|by apply prefix_app_r].
  destruct (download_products E p download_kwargs _) as [fs' [[]|e]];
    simpl; by do 2 apply prefix_app_r.
Qed.

Lemma run_log_starts E fs0 :
  [ECall archive_query [] query_kwargs] `prefix_of` run_log E fs0.
Proof.
  unfold run_log, notebook, cell5.
  etrans; [apply (acquire_logs_query E (init fs0))|].
  etrans; [|apply bind_log_prefix].
  - apply bind_log_prefix. intros _ w1.
    eapply extends_mono, emits_bind; [apply relocate_emits|].
    intros _. apply select_inputs_emits.
  - intros flcs w1. eapply extends_mono, analysis_extends.
Qed.

(** The archive out of reach: the run stops at the query. *)
Example offline_run :
  notebook sim_offline (init ∅) =
  (World ∅ [ECall archive_query [] query_kwargs], Raise (LibraryError 503)).
Proof. vm_compute. reflexivity. Qed.

(** C8.  Every run queries the archive exactly once, first of all, by
    the three observation identifiers and the two criteria
    [obstype='all'] and [obs_collection='HST'], nothing else.  When the
    query raises, the notebook raises the same exception at once: the
    log holds the one query and nothing after it, and no file has
    changed. *)
Theorem query_once_no_retry E fs0 :
  query_kwargs = [("obstype", VStr "all"); ("obs_collection", VStr "HST");
                  ("obs_id", VStrs ["j9irw3fwq"; "j9irw4040"; "j9irw5kaq"])] ∧
  head (run_log E fs0) = Some (ECall archive_query [] query_kwargs) ∧
  calls_of archive_query (run_log E fs0)
    = [ECall archive_query [] query_kwargs] ∧
  (∀ e, query_criteria E query_kwargs
          (World fs0 [ECall archive_query [] query_kwargs]) = Raise e →
        notebook E (init fs0)
        = (World fs0 [ECall archive_query [] query_kwargs], Raise e)).
Proof.
  destruct (run_log_starts E fs0) as [l Hl]. split_and!.
  - reflexivity.
  - by rewrite Hl.
  - pose proof (run_calls_prefix E fs0 archive_query) as Hp.
    rewrite query_calls in Hp. apply prefix_singleton in Hp as [Hp|Hp]; [|done].
    rewrite Hl in Hp. unfold calls_of in Hp. simpl in Hp.
    rewrite filter_cons_True in Hp by done. done.
  - intros e He. unfold notebook, cell5, acquire, call.
    unfold mbind, M_bind, bind, emit, ask, init. simpl.
    change (World fs0 [ECall "Observations.query_criteria" [] query_kwargs])
      with (World fs0 [ECall archive_query [] query_kwargs]).
    by rewrite He.
Qed.

(** ** Names and patterns *)

Lemma string_app_nil_l s : "" +:+ s = s.
Proof. reflexivity. Qed.

Lemma string_app_cons c s t : String c s +:+ t = String c (s +:+ t).
Proof. reflexivity. Qed.

Lemma string_app_nil_r s : s +:+ "" = s.
Proof. induction s; [done|]. rewrite string_app_cons. by f_equal. Qed.

Lemma fnmatch_star_spec rest name :
  fnmatch_star rest name = true ↔
  ∃ s1 s2, name = s1 +:+ s2 ∧ rest s2 = true.
Proof.
  induction name as [|c name IH]; simpl.
  - rewrite orb_false_r. split.
    + intros H. by exists "", "".
    + intros (s1 & s2 & Heq & H). destruct s1; [|done].
      rewrite string_app_nil_l in Heq. by subst.
  - rewrite orb_true_iff, IH. split.
    + intros [H|(s1 & s2 & -> & H)].
      * by exists "", (String c name).
      * by exists (String c s1), s2.
    + intros (s1 & s2 & Heq & H). destruct s1 as [|c1 s1].
      * left. rewrite string_app_nil_l in Heq. by subst.
      * right. rewrite string_app_cons in Heq. injection Heq as -> ->.
        by exists s1, s2.
Qed.

Lemma fnmatch_literal pat name :
  has_magic pat = false → fnmatch pat name = true ↔ name = pat.
Proof.
  revert name. induction pat as [|c pat IH]; intros name Hm; simpl in *.
  - by rewrite bool_decide_eq_true.
  - apply orb_false_iff in Hm as [Hm1 Hm].
    apply orb_false_iff in Hm1 as [Hs Hq]. rewrite Hs, Hq. simpl.
    destruct name as [|d name]; [done|].
    rewrite andb_true_iff, bool_decide_eq_true, (IH name Hm). naive_solver.
Qed.

(** [*flc.fits] matches the names that end in [flc.fits]. *)
Lemma fnmatch_flc name :
  fnmatch "*flc.fits" name = true ↔ ∃ s, name = s +:+ "flc.fits".
Proof.
  change (fnmatch "*flc.fits" name) with
    (fnmatch_star (fnmatch "flc.fits") name).
  rewrite fnmatch_star_spec. split.
  - intros (s1 & s2 & -> & H). apply fnmatch_literal in H as ->; [|done].
    by exists s1.
  - intros (s & ->). exists s, "flc.fits". split; [done|].
    by apply fnmatch_literal.
Qed.

Lemma fnmatch_any name : fnmatch "*" name = true.
Proof.
  change (fnmatch "*" name) with (fnmatch_star (fnmatch "") name).
  apply fnmatch_star_spec. exists name, "". split; [|done].
  by rewrite string_app_nil_r.
Qed.

Lemma strip_prefix_Some d p r : strip_prefix d p = Some r ↔ p = d ++ r.
Proof.
  revert p. induction d as [|x d IH]; intros p; simpl.
  - naive_solver.
  - destruct p as [|y p]; [naive_solver|].
    destruct (decide (x = y)) as [->|]; [|naive_solver].
    rewrite IH. naive_solver.
Qed.

Lemma strip_prefix_app d r : strip_prefix d (d ++ r) = Some r.
Proof. by apply strip_prefix_Some. Qed.

Lemma below_spec p q : below p q ↔ ∃ r, q = p ++ r.
Proof.
  unfold below. rewrite bool_decide_spec. unfold is_Some.
  by setoid_rewrite strip_prefix_Some.
Qed.

Lemma child_of_Some d p n : child_of d p = Some n ↔ p = d ++ [n].
Proof.
  unfold child_of. destruct (strip_prefix d p) as [r|] eqn:Hr.
  - apply strip_prefix_Some in Hr as ->.
    destruct r as [|n' [|? ?]]; split; intros H; simplify_list_eq; done.
  - split; [done|]. intros ->. by rewrite strip_prefix_app in Hr.
Qed.

Lemma isdir_spec fs p : isdir fs p ↔ p = [] ∨ fs !! p = Some Dir.
Proof.
  destruct p as [|x p]; simpl; [naive_solver|].
  rewrite bool_decide_spec. naive_solver.
Qed.

Lemma isdir_cons fs x p : isdir fs (x :: p) ↔ fs !! (x :: p) = Some Dir.
Proof. rewrite isdir_spec. naive_solver. Qed.

Lemma exists_path_spec fs p : exists_path fs p ↔ p = [] ∨ is_Some (fs !! p).
Proof.
  destruct p as [|x p]; simpl; [naive_solver|].
  rewrite bool_decide_spec. naive_solver.
Qed.

(** *** Directory listings *)

Global Instance rank_le_total rank : Total (rank_le rank).
Proof.
  intros a b. unfold rank_le.
  destruct (lt_eq_lt_dec (rank a) (rank b)) as [[Hlt|Heq]|Hgt]; [auto| |auto].
  destruct (total String.le a b); auto.
Qed.

Global Instance rank_le_trans rank : Transitive (rank_le rank).
Proof.
  intros a b c [H1|[H1 L1]] [H2|[H2 L2]]; unfold rank_le;
    first [left; lia | right; split; [lia|by etrans]].
Qed.

Global Instance rank_le_antisym rank : AntiSymm (=) (rank_le rank).
Proof.
  intros a b [H1|[H1 L1]] [H2|[H2 L2]]; try lia.
  by apply (anti_symm String.le).
Qed.

Lemma listdir_elem (ord : dir_order) (fs : filesystem) (d : path) n :
  n ∈ listdir ord fs d ↔ isdir fs d ∧ is_Some (fs !! (d ++ [n])).
Proof.
  unfold listdir. destruct (isdir fs d) eqn:Hd.
  - rewrite merge_sort_Permutation, list_elem_of_omap. split.
    + intros ([p x] & Hin & Hc). apply elem_of_map_to_list in Hin.
      apply child_of_Some in Hc. simpl in Hc. subst. eauto.
    + intros [_ [x Hx]]. exists (d ++ [n], x). split.
      * by apply elem_of_map_to_list.
      * by apply child_of_Some.
  - rewrite elem_of_nil. naive_solver.
Qed.

Lemma NoDup_omap_strong {A B} (f : A → option B) (l : list A) :
  (∀ x y b, x ∈ l → y ∈ l → f x = Some b → f y = Some b → x = y) →
  NoDup l → NoDup (omap f l).
Proof.
  intros Hinj Hl. induction Hl as [|x l Hx Hl IH]; simpl; [constructor|].
  destruct (f x) as [b|] eqn:Hfx.
  - constructor.
    + rewrite list_elem_of_omap. intros (y & Hy & Hfy).
      apply Hx. rewrite (Hinj x y b); [done|left|by right|done..].
    + apply IH. intros y z c Hy Hz. apply Hinj; by right.
  - apply IH. intros y z c Hy Hz. apply Hinj; by right.
Qed.

Lemma listdir_NoDup (ord : dir_order) (fs : filesystem) (d : path) :
  NoDup (listdir ord fs d).
Proof.
  unfold listdir. destruct (isdir fs d); [|constructor].
  rewrite merge_sort_Permutation.
  apply NoDup_omap_strong; [|apply NoDup_map_to_list].
  intros [p1 x1] [p2 x2] n H1 H2 Hc1 Hc2.
  apply child_of_Some in Hc1, Hc2. simpl in *. subst.
  apply elem_of_map_to_list in H1, H2. by simplify_eq.
Qed.

Lemma listdir_Sorted (ord : dir_order) (fs : filesystem) (d : path) :
  Sorted (rank_le (ord fs d)) (listdir ord fs d).
Proof.
  unfold listdir. destruct (isdir fs d); [|constructor].
  apply Sorted_merge_sort, _.
Qed.


(** *** What the two patterns of the notebook match *)

Global Arguments fnmatch : simpl never.
Global Arguments ishidden : simpl never.
Global Arguments listdir : simpl never.

Lemma fmap_id_ext {A} (f : A → A) (l : list A) :
  (∀ x, f x = x) → f <$> l = l.
Proof. intros Hf. induction l; simpl; by f_equal. Qed.

(** The names [glob('*flc.fits')] returns. *)
Lemma glob_cwd_names (ord : dir_order) (fs : filesystem) :
  path_str <$> glob ord fs ["*flc.fits"] =
  filter (λ n, fnmatch "*flc.fits" n && negb (ishidden n) : Prop)
         (listdir ord fs []).
Proof.
  unfold glob. simpl. unfold glob1. simpl.
  rewrite <-list_fmap_compose, fmap_id_ext by done.
  apply list_filter_iff. intros n. by rewrite andb_true_r.
Qed.

Lemma glob_cwd_elem (ord : dir_order) (fs : filesystem) n :
  n ∈ path_str <$> glob ord fs ["*flc.fits"] ↔
  is_Some (fs !! [n]) ∧ fnmatch "*flc.fits" n ∧ ¬ ishidden n.
Proof.
  rewrite glob_cwd_names, list_elem_of_filter, listdir_elem.
  rewrite andb_True, negb_True. simpl. naive_solver.
Qed.

Lemma glob_cwd_NoDup (ord : dir_order) (fs : filesystem) :
  NoDup (path_str <$> glob ord fs ["*flc.fits"]).
Proof. rewrite glob_cwd_names. apply NoDup_filter, listdir_NoDup. Qed.

Lemma glob_download_elem (ord : dir_order) (fs : filesystem) (p : path) :
  p ∈ glob ord fs download_pattern ↔

  ∃ d f, p = ["mastDownload"; "HST"; d; f] ∧
         fs !! ["mastDownload"] = Some Dir ∧
         fs !! ["mastDownload"; "HST"] = Some Dir ∧
         fs !! ["mastDownload"; "HST"; d] = Some Dir ∧
         ¬ ishidden d ∧
         is_Some (fs !! p) ∧
         fnmatch "*flc.fits" f ∧ ¬ ishidden f.
Proof.
  unfold glob, download_pattern. simpl. unfold glob1. simpl.
  case_bool_decide as Hm; simpl; [|rewrite elem_of_nil; naive_solver].
  case_bool_decide as Hh; simpl; [|rewrite elem_of_nil; naive_solver].
  rewrite !app_nil_r, list_elem_of_bind. split.
  - intros (d & Hp & Hd).
    apply list_elem_of_filter in Hd as [Hd1 Hd2].
    apply list_elem_of_fmap in Hp as (f & -> & Hf).
    apply list_elem_of_filter in Hf as [Hf1 Hf2].
    apply listdir_elem in Hd2 as [_ Hd2], Hf2 as [_ Hf2].
    rewrite !andb_True, ?negb_True in Hd1, Hf1. simpl in *.
    rewrite bool_decide_spec in Hd1.
    exists d, f. naive_solver.
  - intros (d & f & -> & _ & _ & Hd & Hdh & Hf & Hfm & Hfh).
    exists d. split.
    + apply list_elem_of_fmap. exists f. split; [done|].
      apply list_elem_of_filter. split.
      * rewrite !andb_True, negb_True. simpl. done.
      * apply listdir_elem. split; [|done]. by apply isdir_cons.
    + apply list_elem_of_filter. split.
      * rewrite !andb_True, negb_True. simpl. rewrite bool_decide_spec.
        split_and!; try done. by rewrite fnmatch_any.
      * apply listdir_elem. split; [by apply isdir_cons|].
        simpl. by rewrite Hd.
Qed.

(** ** File operations *)

Lemma for_each_fs_op {A} (op : A → filesystem → outcome filesystem)
    (l : list A) w w' :
  for_each l (λ x, fs_op (op x)) w = (w', Ok tt) →
  apply_each op l (fs w) = Ok (fs w') ∧ log w' = log w.
Proof.
  revert w. induction l as [|x l IH]; intros w H; simpl in *.
  - by injection H as <-.
  - apply bind_ok in H as ([] & w1 & Hx & H). unfold fs_op in Hx.
    destruct (op x (fs w)) as [fs1|e]; [|done]. injection Hx as <-.
    apply IH in H as [H1 H2]. done.
Qed.

Lemma copy_Ok src b fs fs' :
  copy src [b] fs = Ok fs' →
  ∃ c, fs !! src = Some (File c) ∧
       ((fs !! [b] ≠ Some Dir ∧ fs' = <[ [b] := File c ]> fs) ∨
        (fs !! [b] = Some Dir ∧ fs !! [b; basename src] ≠ Some Dir ∧
         fs' = <[ [b; basename src] := File c ]> fs)).
Proof.
  unfold copy. destruct (fs !! src) as [[c|]|] eqn:Hsrc; [|done..].
  intros H. exists c. split; [done|].
  destruct (isdir fs [b]) eqn:Hb.
  - apply Is_true_true, isdir_cons in Hb. right.
    repeat case_match; simplify_eq/=. split_and!; try done.
    intros Hd. by rewrite bool_decide_true in * by done.
  - left. assert (fs !! [b] ≠ Some Dir).
    { intros Hd. apply (isdir_cons fs b []) in Hd. by rewrite Hb in Hd. }
    repeat case_match; by simplify_eq/=.
Qed.

Lemma rmtree_Ok p fs fs' :
  rmtree p fs = Ok fs' →
  fs !! p = Some Dir ∧
  ∀ q, fs' !! q = if below p q then None else fs !! q.
Proof.
  unfold rmtree. destruct (fs !! p) as [[c|]|] eqn:Hp; [done| |done].
  intros H. injection H as <-. split; [done|]. intros q.
  rewrite map_lookup_filter. destruct (fs !! q) as [x|]; simpl.
  - destruct (below p q); simpl; by rewrite ?option_guard_True,
      ?option_guard_False by (simpl; tauto).
  - by destruct (below p q).
Qed.

Lemma remove_Ok p fs fs' :
  remove p fs = Ok fs' → (∃ c, fs !! p = Some (File c)) ∧ fs' = delete p fs.
Proof.
  unfold remove. destruct (fs !! p) as [[c|]|]; [|done..].
  intros H. injection H as <-. eauto.
Qed.

(** *** The copy loop of cell 5 *)

Lemma copy_home_other flc fs fs' p :
  copy_home flc fs = Ok fs' →
  p ≠ [basename flc] → p ≠ [basename flc; basename flc] →
  fs' !! p = fs !! p.
Proof.
  intros H Hp1 Hp2. apply copy_Ok in H as (c & _ & [[_ ->]|(_ & _ & ->)]);
    by rewrite lookup_insert_ne.
Qed.

Lemma copy_home_isdir flc fs fs' n :
  copy_home flc fs = Ok fs' →
  fs' !! [n] = Some Dir ↔ fs !! [n] = Some Dir.
Proof.
  intros H. apply copy_Ok in H as (c & _ & [[Hd ->]|(_ & _ & ->)]).
  - destruct (decide (n = basename flc)) as [->|].
    + rewrite lookup_insert_eq. naive_solver.
    + rewrite lookup_insert_ne by congruence. done.
  - by rewrite lookup_insert_ne.
Qed.

Lemma copy_all_other l fs fs' p :
  apply_each copy_home l fs = Ok fs' →
  (∀ q, q ∈ l → p ≠ [basename q] ∧ p ≠ [basename q; basename q]) →
  fs' !! p = fs !! p.
Proof.
  revert fs. induction l as [|q l IH]; intros fs H Hp; simpl in *.
  - by injection H as <-.
  - destruct (copy_home q fs) as [fs1|e] eqn:Hq; [|done].
    rewrite (IH fs1 H) by (intros; apply Hp; by right).
    destruct (Hp q) as [? ?]; [by left|]. by eapply copy_home_other.
Qed.

Lemma copy_all_isdir l fs fs' n :
  apply_each copy_home l fs = Ok fs' →
  fs' !! [n] = Some Dir ↔ fs !! [n] = Some Dir.
Proof.
  revert fs. induction l as [|q l IH]; intros fs H; simpl in *.
  - by injection H as <-.
  - destruct (copy_home q fs) as [fs1|e] eqn:Hq; [|done].
    rewrite (IH fs1 H). by eapply copy_home_isdir.
Qed.

(** After the loop each file's base name holds the content of a file
    of the list with that base name (the last one copied). *)
Lemma copy_all_placed l fs fs' q :
  apply_each copy_home l fs = Ok fs' →
  Forall (λ q : path, (3 ≤ length q)%nat) l →
  q ∈ l → fs !! [basename q] ≠ Some Dir →
  ∃ q' c, q' ∈ l ∧ basename q' = basename q ∧
          fs !! q' = Some (File c) ∧ fs' !! [basename q] = Some (File c).
Proof.
  revert fs q.
  induction l as [|q0 l IH]; intros fs q H Hlen Hq Hnd; simpl in *.
  { by apply elem_of_nil in Hq. }
  destruct (copy_home q0 fs) as [fs1|e] eqn:Hq0; [|done].
  apply Forall_cons in Hlen as [Hlen0 Hlen].
  destruct (decide (Exists (λ q', basename q' = basename q) l)) as [Hex|Hno].
  - apply Exists_exists in Hex as (q1 & Hq1 & Hb).
    destruct (IH fs1 q1 H Hlen) as (q' & c & Hq' & Hb' & Hc & Hc').
    + done.
    + rewrite Hb. by rewrite (copy_home_isdir _ _ _ _ Hq0).
    + exists q', c. split_and!.
      * by right.
      * congruence.
      * rewrite <-Hc. symmetry. eapply copy_home_other; [done|..].
        -- intros ->. rewrite Forall_forall in Hlen.
           specialize (Hlen _ Hq'). simpl in Hlen. lia.
        -- intros ->. rewrite Forall_forall in Hlen.
           specialize (Hlen _ Hq'). simpl in Hlen. lia.
      * by rewrite <-Hb.
  - assert (basename q0 = basename q) as Hb0.
    { apply elem_of_cons in Hq as [->|Hq]; [done|].
      destruct Hno. apply Exists_exists. eauto. }
    pose proof Hq0 as Hcopy.
    apply copy_Ok in Hcopy as (c & Hc & [[_ ->]|(Hd & _)]);
      [|by rewrite Hb0 in Hd].
    exists q0, c. split_and!; [by left|done..|].
    rewrite (copy_all_other l _ fs' [basename q] H).
    + by rewrite <-Hb0, lookup_insert_eq.
    + intros q' Hq'. split.
      * intros Heq. destruct Hno. apply Exists_exists.
        exists q'. split; [done|]. congruence.
      * done.
Qed.

(** When the base name is a directory, the copies go into it. *)
Lemma copy_all_placed_dir (l : list path) (fs fs' : filesystem) (q : path) :
  apply_each copy_home l fs = Ok fs' →
  Forall (λ q : path, (3 ≤ length q)%nat) l →
  q ∈ l → fs !! [basename q] = Some Dir →
  ∃ q' c, q' ∈ l ∧ basename q' = basename q ∧
          fs !! q' = Some (File c) ∧
          fs' !! [basename q; basename q] = Some (File c).
Proof.
  revert fs q.
  induction l as [|q0 l IH]; intros fs q H Hlen Hq Hd; simpl in *.
  { by apply elem_of_nil in Hq. }
  destruct (copy_home q0 fs) as [fs1|e] eqn:Hq0; [|done].
  apply Forall_cons in Hlen as [Hlen0 Hlen].
  destruct (decide (Exists (λ q', basename q' = basename q) l)) as [Hex|Hno].
  - apply Exists_exists in Hex as (q1 & Hq1 & Hb).
    destruct (IH fs1 q1 H Hlen) as (q' & c & Hq' & Hb' & Hc & Hc').
    + done.
    + rewrite Hb. by rewrite (copy_home_isdir _ _ _ _ Hq0).
    + exists q', c. split_and!.
      * by right.
      * congruence.
      * rewrite <-Hc. symmetry. eapply copy_home_other; [done|..].
        -- intros ->. rewrite Forall_forall in Hlen.
           specialize (Hlen _ Hq'). simpl in Hlen. lia.
        -- intros ->. rewrite Forall_forall in Hlen.
           specialize (Hlen _ Hq'). simpl in Hlen. lia.
      * by rewrite <-Hb.
  - assert (basename q0 = basename q) as Hb0.
    { apply elem_of_cons in Hq as [->|Hq]; [done|].
      destruct Hno. apply Exists_exists. eauto. }
    pose proof Hq0 as Hcopy.
    apply copy_Ok in Hcopy as (c & Hc & [[Hnd _]|(_ & _ & ->)]);
      [by rewrite Hb0 in Hnd|].
    exists q0, c. split_and!; [by left|done..|].
    rewrite (copy_all_other l _ fs' [basename q; basename q] H).
    + by rewrite <-Hb0, lookup_insert_eq.
    + intros q' Hq'. split; [done|].
      intros [= Heq]. destruct Hno. apply Exists_exists.
      exists q'. split; [done|]. congruence.
Qed.

(** ** Moving the downloads to the working directory (cell 5) *)

Lemma relocate_Ok E w w' found :
  relocate E w = (w', Ok found) →
  found = glob (dir_rank E) (fs w) download_pattern ∧
  log w' = log w ∧
  ∃ fs1, apply_each copy_home found (fs w) = Ok fs1 ∧
         rmtree ["mastDownload"] fs1 = Ok (fs w').
Proof.
  unfold relocate. intros H.
  apply bind_ok in H as (l & w1 & Hget & H). injection Hget as <- <-.
  apply bind_ok in H as ([] & w2 & Hloop & H).
  apply (for_each_fs_op copy_home) in Hloop as [Hloop Hlog2].
  apply bind_ok in H as ([] & w3 & Hrm & H). injection H as <- <-.
  unfold fs_op in Hrm.
  destruct (rmtree ["mastDownload"] (fs w2)) as [fs3|e] eqn:Hrm'; [|done].
  injection Hrm as <-. simpl. eauto.
Qed.

Lemma glob_download_length (ord : dir_order) (fs : filesystem) (q : path) :
  q ∈ glob ord fs download_pattern → length q = 4%nat.
Proof. intros (d & f & -> & _)%glob_download_elem. done. Qed.

Lemma flc_name_not_download f :
  (∃ s, f = s +:+ "flc.fits") → f ≠ "mastDownload".
Proof. intros H%fnmatch_flc ->. by vm_compute in H. Qed.

Lemma downloaded_found (ord : dir_order) (fs : filesystem) obs f c :
  downloaded fs obs f c →
  ["mastDownload"; "HST"; obs; f] ∈ glob ord fs download_pattern.
Proof.
  intros (Hm & Hh & Ho & Hoh & Hf & Hs & Hfh).
  apply glob_download_elem. exists obs, f.
  split_and!; try done. by apply Is_true_true, fnmatch_flc.
Qed.

Lemma found_downloaded (ord : dir_order) (fs : filesystem) obs f c :
  ["mastDownload"; "HST"; obs; f] ∈ glob ord fs download_pattern →
  fs !! ["mastDownload"; "HST"; obs; f] = Some (File c) →
  downloaded fs obs f c.
Proof.
  intros (d & f' & Heq & Hm & Hh & Hd & Hdh & Hf & Hfm & Hfh)%glob_download_elem Hc.
  simplify_eq. split_and!; try done. by apply fnmatch_flc, Is_true_true.
Qed.

Lemma below_download_cons n p :
  below ["mastDownload"] (n :: p) = bool_decide (n = "mastDownload").
Proof.
  unfold below. simpl. destruct (decide ("mastDownload" = n)) as [<-|Hne].
  - rewrite !bool_decide_true; by eauto.
  - rewrite !bool_decide_false; [done|congruence|by intros [? ?]].
Qed.

(** What a completed relocation did: the copies, then the removal. *)
Lemma relocate_fs E w w' found :
  relocate E w = (w', Ok found) →
  found = glob (dir_rank E) (fs w) download_pattern ∧
  Forall (λ q : path, (3 ≤ length q)%nat) found ∧
  ∃ fs1, apply_each copy_home found (fs w) = Ok fs1 ∧
         ∀ q, fs w' !! q = if below ["mastDownload"] q then None
                           else fs1 !! q.
Proof.
  intros (-> & _ & fs1 & Hcopy & Hrm)%relocate_Ok.
  apply rmtree_Ok in Hrm as [_ Hrm]. split_and!; [done| |by exists fs1].
  apply Forall_forall. intros q Hq.
  rewrite (glob_download_length _ _ _ Hq). lia.
Qed.

(** C5, as the claim words it, fails: when the working directory holds
    a directory named like a downloaded exposure, cell 5's relocation
    completes and the name is still that directory; the exposure is no
    file of the flat working directory. *)
Lemma download_lands_in_directory :
  ¬ (∀ w' found,
       relocate sim (after_download sim sim_clash) = (w', Ok found) →
       ∀ obs f c,
         downloaded (fs (after_download sim sim_clash)) obs f c →
         ∃ c', fs w' !! [f] = Some (File c')).
Proof.
  intros H.
  destruct (H (relocate sim (after_download sim sim_clash)).1
              (glob (dir_rank sim) (fs (after_download sim sim_clash))
                 download_pattern)
              ltac:(vm_compute; reflexivity)
              "j9irw3fwq" "j9irw3fwq_flc.fits"
              (FitsFile (Fits [("ROOTNAME", "j9irw3fwq"); ("PA_V3", "60.0")]
                           [(("SCI", 1), [0; 1]); (("SCI", 2), [2; 3])])))
    as [c' Hc'].
  - split_and!; try (vm_compute; reflexivity).
    + vm_compute. tauto.
    + by exists "j9irw3fwq_".
    + vm_compute. tauto.
  - vm_compute in Hc'. discriminate.
Qed.

(** C5, amended.  When cell 5's copy loop and [rmtree] are done, every
    FLC file the download placed in [mastDownload/HST/<obs>/] has been
    copied out, with the content of a downloaded file of that name (its
    own, when no other observation holds a file of the same name):
    under its base name in the working directory, unless the working
    directory held a directory of that name, and then inside that
    directory; and nothing is left at or below [mastDownload]. *)
Theorem relocate_places_downloads E w w' found :
  relocate E w = (w', Ok found) →
  (∀ obs f c, downloaded (fs w) obs f c →
     ∃ obs' c',
       downloaded (fs w) obs' f c' ∧
       ((fs w !! [f] ≠ Some Dir ∧ fs w' !! [f] = Some (File c')) ∨
        (fs w !! [f] = Some Dir ∧ fs w' !! [f] = Some Dir ∧
         fs w' !! [f; f] = Some (File c')))) ∧
  (∀ p, fs w' !! ("mastDownload" :: p) = None) ∧
  log w' = log w.
Proof.
  intros Hr. pose proof (relocate_Ok _ _ _ _ Hr) as (_ & Hlog & _).
  apply relocate_fs in Hr as (-> & Hlen & fs1 & Hcopy & Hfs).
  split_and!; [|intros p|done].
  - intros obs f c Hdl.
    pose proof (downloaded_found (dir_rank E) _ _ _ _ Hdl) as Hq.
    assert (f ≠ "mastDownload") as Hne.
    { destruct Hdl as (_ & _ & _ & _ & _ & Hs & _).
      by apply flc_name_not_download. }
    destruct (decide (fs w !! [f] = Some Dir)) as [Hd|Hnd].
    + destruct (copy_all_placed_dir _ _ _ _ Hcopy Hlen Hq Hd)
        as (q' & c' & Hq' & Hb & Hc & Hc').
      pose proof Hq' as (obs' & f' & -> & _)%glob_download_elem.
      change (basename ["mastDownload"; "HST"; obs'; f']) with f' in *.
      change (basename ["mastDownload"; "HST"; obs; f]) with f in *.
      subst f'. exists obs', c'. split; [by eapply found_downloaded|].
      right. rewrite !Hfs, !below_download_cons.
      rewrite !bool_decide_false by done. split_and!; [done| |done].
      by apply (copy_all_isdir _ _ _ f Hcopy).
    + destruct (copy_all_placed _ _ _ _ Hcopy Hlen Hq Hnd)
        as (q' & c' & Hq' & Hb & Hc & Hc').
      pose proof Hq' as (obs' & f' & -> & _)%glob_download_elem.
      change (basename ["mastDownload"; "HST"; obs'; f']) with f' in *.
      change (basename ["mastDownload"; "HST"; obs; f]) with f in *.
      subst f'. exists obs', c'. split; [by eapply found_downloaded|].
      left. rewrite Hfs, below_download_cons.
      by rewrite bool_decide_false by done.
  - rewrite Hfs, below_download_cons. by rewrite bool_decide_true.
Qed.

(** The download of the simulated archive, relocated into an empty
    working directory and into one with a directory named like an
    exposure. *)
Lemma relocate_places_downloads_witness :
  (∃ obs' c',
     downloaded (fs (after_download sim ∅)) obs' "j9irw3fwq_flc.fits" c' ∧
     fs (relocate sim (after_download sim ∅)).1 !! ["j9irw3fwq_flc.fits"]
     = Some (File c')) ∧
  (∀ p, fs (relocate sim (after_download sim ∅)).1
          !! ("mastDownload" :: p) = None).
Proof.
  destruct (relocate_places_downloads sim (after_download sim ∅)
              (relocate sim (after_download sim ∅)).1
              (glob (dir_rank sim) (fs (after_download sim ∅))
                 download_pattern))
    as (H & Hgone & _).
  - vm_compute. reflexivity.
  - split; [|exact Hgone].
    destruct (H "j9irw3fwq" "j9irw3fwq_flc.fits"
                (FitsFile (Fits [("ROOTNAME", "j9irw3fwq"); ("PA_V3", "60.0")]
                             [(("SCI", 1), [0; 1]); (("SCI", 2), [2; 3])])))
      as (obs' & c' & Hd & [[_ Hc]|[Hdir _]]).
    + split_and!; try (vm_compute; reflexivity).
      * vm_compute. tauto.
      * by exists "j9irw3fwq_".
      * vm_compute. tauto.
    + exists obs', c'. split; [exact Hd|exact Hc].
    + vm_compute in Hdir. discriminate.
Defined.

(** ** The input list (cell 5) *)

Lemma select_inputs_Ok E w w' l :
  select_inputs E w = (w', Ok l) →
  (∃ c, fs w !! [dropped_flc] = Some (File c)) ∧
  fs w' = delete [dropped_flc] (fs w) ∧
  l = path_str <$> glob (dir_rank E) (fs w') ["*flc.fits"] ∧
  log w' = log w.
Proof.
  intros H. pose proof (select_inputs_result _ _ _ _ H) as Hl.
  unfold select_inputs in H.
  apply bind_ok in H as ([] & w1 & Hrm & H).
  apply bind_ok in H as (l' & w2 & Hget & H).
  injection Hget as <- <-. injection H as <- <-.
  unfold fs_op in Hrm.
  destruct (remove [dropped_flc] (fs w)) as [fs1|e] eqn:Hrm'; [|done].
  injection Hrm as <-. apply remove_Ok in Hrm' as [Hc ->]. done.
Qed.

Lemma cell5_Ok E fs0 w5 l :
  cell5 E (init fs0) = (w5, Ok l) →
  ∃ wr found,
    relocate E (after_download E fs0) = (wr, Ok found) ∧
    select_inputs E wr = (w5, Ok l).
Proof.
  unfold cell5, after_download. intros H.
  apply bind_ok in H as ([] & wa & Ha & H). rewrite Ha. simpl.
  apply bind_ok in H as (found & wr & Hr & H). eauto.
Qed.

Lemma copy_all_sources (l : list path) (fs fs' : filesystem) (q : path) :
  apply_each copy_home l fs = Ok fs' →
  Forall (λ q : path, (3 ≤ length q)%nat) l →
  q ∈ l → ∃ c, fs !! q = Some (File c).
Proof.
  revert fs. induction l as [|q0 l IH]; intros fs H Hlen Hq; simpl in *.
  { by apply elem_of_nil in Hq. }
  destruct (copy_home q0 fs) as [fs1|e] eqn:Hq0; [|done].
  apply Forall_cons in Hlen as [Hlen0 Hlen].
  apply elem_of_cons in Hq as [->|Hq].
  - apply copy_Ok in Hq0 as (c & Hc & _). eauto.
  - destruct (IH fs1 H Hlen Hq) as [c Hc]. exists c. rewrite <-Hc.
    symmetry. rewrite Forall_forall in Hlen. specialize (Hlen _ Hq).
    eapply copy_home_other; [done|..]; intros ->; simpl in Hlen; lia.
Qed.

Lemma inputs_of_run E fs0 w5 l :
  cell5 E (init fs0) = (w5, Ok l) → inputs E fs0 = l.
Proof. unfold inputs. by intros ->. Qed.

(** The calls of the two routines pass the input list. *)
Lemma routines_get_inputs E fs0 :
  Forall (λ ev, is_call alignment ev ∨ is_call combination ev →
                event_args ev = [VStrs (inputs E fs0)])
         (run_log E fs0).
Proof.
  apply Forall_forall. intros ev Hin [Hcall|Hcall].
  - pose proof (run_calls_elem E fs0 alignment ev Hin Hcall) as H.
    rewrite alignment_calls in H. rewrite !elem_of_cons, elem_of_nil in H.
    by destruct H as [->|[->|[->|[]]]].
  - pose proof (run_calls_elem E fs0 combination ev Hin Hcall) as H.
    rewrite combination_calls in H. by apply list_elem_of_singleton in H as ->.
Qed.

(** C9, as the claim words it, fails: with an exposure of an earlier
    session in the working directory the simulated run, in which the
    archive delivers the four exposures, calls the routines on four
    files. *)
Lemma stale_exposure_makes_four :
  ¬ (∀ ev, ev ∈ run_log sim sim_stale →
       is_call alignment ev ∨ is_call combination ev →
       ∃ l, event_args ev = [VStrs l] ∧ l ≡ₚ three_flcs).
Proof.
  intros H.
  destruct (H (tweak_call ("ib2j02n5q_flc.fits" :: three_flcs)
                 tweak_thresh_kwargs)) as (l & Hl & Hperm).
  - apply (bool_decide_unpack _). vm_compute. exact I.
  - by left.
  - injection Hl as <-. by apply Permutation_length in Hperm.
Qed.

(** C9, amended.  When cell 5 is done, [j9irw4b3q_flc.fits] is gone
    from the working directory and is not in the input list, which
    holds exactly the entries of the working directory that [*flc.fits]
    matches (hidden ones apart); every call of the alignment and of the
    combination routine, in every run, passes this list.  The list is
    that of the three exposures [j9irw3fwq], [j9irw4b1q], [j9irw5kaq]
    when the download delivered the four exposures, and the working
    directory held no other entry that [*flc.fits] matches and no
    directory of one of the four names. *)
Theorem inputs_three_exposures E fs0 w5 l :
  cell5 E (init fs0) = (w5, Ok l) →
  inputs E fs0 = l ∧
  fs w5 !! [dropped_flc] = None ∧
  (dropped_flc ∉ l) ∧
  (∀ f, f ∈ l ↔
        is_Some (fs w5 !! [f]) ∧ fnmatch "*flc.fits" f ∧ ¬ ishidden f) ∧
  Forall (λ ev, is_call alignment ev ∨ is_call combination ev →
                event_args ev = [VStrs l])
         (run_log E fs0) ∧
  (basename <$> glob (dir_rank E) (fs (after_download E fs0)) download_pattern
     ⊆ dropped_flc :: three_flcs →
   dropped_flc :: three_flcs
     ⊆ basename <$> glob (dir_rank E) (fs (after_download E fs0))
                      download_pattern →
   path_str <$> glob (dir_rank E) (fs (after_download E fs0)) ["*flc.fits"]
     ⊆ dropped_flc :: three_flcs →
   Forall (λ f, fs (after_download E fs0) !! [f] ≠ Some Dir)
          (dropped_flc :: three_flcs) →
   l ≡ₚ three_flcs).
Proof.
  intros H5.
  pose proof (inputs_of_run _ _ _ _ H5) as Hin.
  destruct (cell5_Ok _ _ _ _ H5) as (wr & found & Hr & Hs).
  set (w1 := after_download E fs0) in *.
  apply relocate_fs in Hr as (-> & Hlen & fs1 & Hcopy & Hrm).
  apply select_inputs_Ok in Hs as (_ & Hfs5 & Hl & _).
  assert (Hgone : fs w5 !! [dropped_flc] = None).
  { rewrite Hfs5. apply lookup_delete_eq. }
  assert (Hmemb : ∀ f, f ∈ l ↔
            is_Some (fs w5 !! [f]) ∧ fnmatch "*flc.fits" f ∧ ¬ ishidden f).
  { intros f. rewrite Hl. apply glob_cwd_elem. }
  assert (Hnot : dropped_flc ∉ l).
  { rewrite Hmemb, Hgone. by intros [[? ?] _]. }
  split_and!; [done..| |].
  { rewrite <-Hin. apply routines_get_inputs. }
  intros Hsub Hsup Hcwd Hflat.
  assert (Hlook : ∀ n, (∃ s, n = s +:+ "flc.fits") →
            fs w5 !! [n] = if decide (n = dropped_flc) then None
                           else fs1 !! [n]).
  { intros n Hn. rewrite Hfs5. destruct (decide (n = dropped_flc)) as [->|].
    - by rewrite lookup_delete_eq.
    - rewrite lookup_delete_ne by congruence. rewrite Hrm.
      apply flc_name_not_download in Hn. rewrite below_download_cons.
      by rewrite bool_decide_false. }
  assert (Hmem : ∀ n, n ∈ l ↔ n ∈ three_flcs).
  { intros n. rewrite Hmemb. split.
    - intros (Hsome & Hm%Is_true_true%fnmatch_flc & Hh).
      rewrite (Hlook n Hm) in Hsome.
      destruct (decide (n = dropped_flc)) as [->|Hne];
        [by destruct Hsome|].
      assert (n ∈ dropped_flc :: three_flcs) as Hfour.
      { destruct (decide (Exists (λ q, basename q = n)
                            (glob (dir_rank E) (fs w1) download_pattern)))
          as [Hex|Hno].
        - apply Exists_exists in Hex as (q & Hq & <-).
          apply Hsub. by apply list_elem_of_fmap_2.
        - apply Hcwd, glob_cwd_elem. split_and!; [|by apply Is_true_true,
            fnmatch_flc|done].
          rewrite <-(copy_all_other _ _ _ [n] Hcopy); [done|].
          intros q Hq. split; [|done]. intros Heq. destruct Hno.
          apply Exists_exists. exists q. split; [done|]. congruence. }
      apply elem_of_cons in Hfour as [?|?]; done.
    - intros Hn.
      assert (n ∈ dropped_flc :: three_flcs) as Hfour by (by right).
      pose proof (Hsup _ Hfour) as (q & -> & Hq)%list_elem_of_fmap.
      rewrite Forall_forall in Hflat.
      destruct (copy_all_placed _ _ _ q Hcopy Hlen Hq (Hflat _ Hfour))
        as (q' & c & _ & _ & _ & Hc).
      assert (Forall (λ n, fnmatch "*flc.fits" n ∧ ¬ ishidden n ∧
                           n ≠ dropped_flc) three_flcs) as Hthree.
      { repeat constructor; try done; by vm_compute. }
      rewrite Forall_forall in Hthree.
      destruct (Hthree _ Hn) as (Hm & Hh & Hne). split_and!; [|done..].
      rewrite Hlook by (by apply fnmatch_flc, Is_true_true).
      rewrite decide_False by done. by rewrite Hc. }
  apply NoDup_Permutation; [rewrite Hl; apply glob_cwd_NoDup| |done].
  by apply (bool_decide_unpack _); vm_compute.
Qed.

(** The simulated archive delivers the four exposures into an empty
    working directory. *)
Lemma inputs_three_exposures_witness :
  inputs sim ∅ = three_flcs ∧
  fs (cell5 sim (init ∅)).1 !! [dropped_flc] = None ∧
  (dropped_flc ∉ three_flcs) ∧
  Forall (λ ev, is_call alignment ev ∨ is_call combination ev →
                event_args ev = [VStrs three_flcs])
         (run_log sim ∅) ∧
  three_flcs ≡ₚ three_flcs.
Proof.
  destruct (inputs_three_exposures sim ∅ (cell5 sim (init ∅)).1 three_flcs)
    as (H1 & H2 & H3 & _ & H5 & H6).
  - vm_compute. reflexivity.
  - split_and!; [exact H1|exact H2|exact H3|exact H5|].
    apply H6; decide_by_compute.
Defined.

(** *** Removing and moving a directory *)

Lemma lookup_prune (p : path) (fs : filesystem) (q : path) :
  filter (λ kv : path * node, negb (below p kv.1)) fs !! q
  = if below p q then None else fs !! q.
Proof.
  rewrite map_lookup_filter. destruct (fs !! q) as [x|]; simpl.
  - destruct (below p q); simpl; by rewrite ?option_guard_True,
      ?option_guard_False by (simpl; tauto).
  - by destruct (below p q).
Qed.

Lemma subtree_elem (src : path) (fs : filesystem) r x :
  (r, x) ∈ subtree src fs ↔ fs !! (src ++ r) = Some x.
Proof.
  unfold subtree. rewrite list_elem_of_omap. split.
  - intros ([p y] & Hin & Hr). apply elem_of_map_to_list in Hin.
    simpl in Hr. destruct (strip_prefix src p) as [r'|] eqn:Hp; [|done].
    apply strip_prefix_Some in Hp as ->. by simplify_eq/=.
  - intros Hx. exists (src ++ r, x). split.
    + by apply elem_of_map_to_list.
    + simpl. by rewrite strip_prefix_app.
Qed.

Lemma subtree_NoDup (src : path) (fs : filesystem) :
  NoDup (subtree src fs).*1.
Proof.
  apply NoDup_fmap_fst.
  - intros r x y Hx%subtree_elem Hy%subtree_elem. congruence.
  - unfold subtree. apply NoDup_omap_strong; [|apply NoDup_map_to_list].
    intros [p1 x1] [p2 x2] [r x] H1 H2 Hr1 Hr2. simpl in *.
    destruct (strip_prefix src p1) as [r1|] eqn:Hp1; [|done].
    destruct (strip_prefix src p2) as [r2|] eqn:Hp2; [|done].
    apply strip_prefix_Some in Hp1 as ->, Hp2 as ->. by simplify_eq/=.
Qed.

(** What [os.rename] of a directory leaves at a path. *)
Lemma lookup_graft (src dst : path) (fs base : filesystem) (q : path) :
  graft dst (subtree src fs) base !! q =
  match strip_prefix dst q with
  | Some r => match fs !! (src ++ r) with
              | Some x => Some x
              | None => base !! q
              end
  | None => base !! q
  end.
Proof.
  unfold graft. rewrite lookup_union.
  set (L := (λ rn : path * node, (dst ++ rn.1, rn.2)) <$> subtree src fs).
  assert (HL : ∀ x, (list_to_map L : filesystem) !! q = Some x ↔
                    ∃ r, q = dst ++ r ∧ fs !! (src ++ r) = Some x).
  { intros x. rewrite <-elem_of_list_to_map.
    - unfold L. rewrite list_elem_of_fmap. split.
      + intros ([r y] & [= -> ->] & Hr%subtree_elem). eauto.
      + intros (r & -> & Hr). exists (r, x). by rewrite subtree_elem.
    - unfold L. rewrite <-list_fmap_compose.
      apply NoDup_fmap_2_strong; [|apply (NoDup_fmap_1 fst), subtree_NoDup].
      intros [r1 x1] [r2 x2] H1%subtree_elem H2%subtree_elem Hr.
      simpl in Hr. simplify_list_eq. congruence. }
  destruct (strip_prefix dst q) as [r|] eqn:Hq.
  - apply strip_prefix_Some in Hq as ->.
    destruct (fs !! (src ++ r)) as [x|] eqn:Hx.
    + rewrite (proj2 (HL x)) by eauto. by destruct (base !! _).
    + assert ((list_to_map L : filesystem) !! (dst ++ r) = None) as ->.
      { apply eq_None_not_Some. intros [y Hy].
        apply HL in Hy as (r' & Heq & Hy). simplify_list_eq; congruence. }
      by rewrite (left_id_L None _).
  - assert ((list_to_map L : filesystem) !! q = None) as ->.
    { apply eq_None_not_Some. intros [y Hy].
      apply HL in Hy as (r' & -> & Hy). by rewrite strip_prefix_app in Hq. }
    by rewrite (left_id_L None _).
Qed.

(** ** Paths a computation leaves alone *)

Lemma keeps_ret {A} (q : path) (a : A) : keeps q (mret a).
Proof. by intros w. Qed.

Lemma keeps_bind {A B} (q : path) (m : M A) (f : A → M B) :
  keeps q m → (∀ w a w', m w = (w', Ok a) → keeps q (f a)) →
  keeps q (m ≫= f).
Proof.
  intros Hm Hf w. specialize (Hm w).
  destruct (m w) as [w1 [a|e]] eqn:Hmw.
  - rewrite (bind_step _ _ _ _ _ Hmw). rewrite <-Hm. by eapply Hf.
  - by rewrite (bind_raise _ _ _ _ _ Hmw).
Qed.

Lemma keeps_seq {A B} (q : path) (m : M A) (k : M B) :
  keeps q m → keeps q k → keeps q (m ;; k).
Proof. intros Hm Hk. apply keeps_bind; [done|]. by intros. Qed.

Lemma keeps_emit (q : path) ev : keeps q (emit ev).
Proof. by intros w. Qed.

Lemma keeps_fs_get {A} (q : path) (f : filesystem → A) : keeps q (fs_get f).
Proof. by intros w. Qed.

Lemma keeps_fs_try {A} (q : path) (f : filesystem → outcome A) :
  keeps q (fs_try f).
Proof. by intros w. Qed.

Lemma keeps_ask {A} (q : path) (routine : world → outcome A) :
  keeps q (ask routine).
Proof. by intros w. Qed.

Lemma keeps_act {A} (q : path) (routine : world → filesystem * outcome A) :
  (∀ w, (routine w).1 !! q = fs w !! q) → keeps q (act routine).
Proof.
  intros H w. specialize (H w). unfold act.
  by destruct (routine w) as [fs' r].
Qed.

Lemma keeps_fs_op (q : path) op :
  (∀ fs fs' : filesystem, op fs = Ok fs' → fs' !! q = fs !! q) →
  keeps q (fs_op op).
Proof.
  intros H w. unfold fs_op. destruct (op (fs w)) as [fs'|e] eqn:Hop; [|done].
  by apply H.
Qed.

Lemma keeps_for_each {A} (q : path) (l : list A) (body : A → M unit) :
  (∀ x, x ∈ l → keeps q (body x)) → keeps q (for_each l body).
Proof.
  induction l as [|x l IH]; intros H; simpl.
  - apply keeps_ret.
  - apply keeps_seq; [apply H; by left|].
    apply IH. intros y Hy. apply H. by right.
Qed.

(** The reads change no file. *)
Lemma keeps_reads (q : path) :
  (∀ f key, keeps q (getval f key)) ∧
  (∀ f ext ver, keeps q (fits_data f ext ver)) ∧
  (∀ split f names, keeps q (Table_read split f names)) ∧
  (∀ guess f, keeps q (ascii_read guess f)) ∧
  (∀ f, keeps q (Image f)).
Proof. split_and!; by intros. Qed.

Lemma show_keeps E (q : path) what : keeps q (show E what).
Proof. apply keeps_ask. Qed.

Lemma cell7_keeps E (q : path) : keeps q (cell7 E).
Proof.
  unfold cell7. apply keeps_bind; [apply keeps_fs_get|]. intros ? files ? ?.
  apply keeps_for_each. intros f _.
  apply keeps_seq; [apply keeps_reads|].
  apply keeps_seq; [apply keeps_reads|apply keeps_ret].
Qed.

Lemma read_shifts_keeps E (q : path) file : keeps q (read_shifts E file).
Proof.
  unfold read_shifts. apply keeps_bind; [apply keeps_reads|].
  intros ? tab ? ?. apply keeps_seq; [|apply keeps_ret].
  apply keeps_for_each. intros. apply show_keeps.
Qed.

Lemma cell34_keeps E (q : path) : keeps q (cell34 E).
Proof.
  unfold cell34. apply keeps_seq; [apply show_keeps|].
  apply keeps_bind; [apply keeps_reads|]. intros ? d ? ?.
  do 3 (apply keeps_seq; [apply show_keeps|]).
  apply keeps_bind; [apply keeps_reads|]. intros ? tab ? ?.
  apply keeps_bind; [apply keeps_ask|]. intros ? r ? ?.
  do 4 (apply keeps_seq; [apply show_keeps|]). apply keeps_ret.
Qed.

Lemma inspect_keeps E (q : path) ext : keeps q (inspect E ext).
Proof.
  unfold inspect. apply keeps_seq; [apply show_keeps|].
  apply keeps_bind; [apply keeps_reads|]. intros ? d ? ?.
  do 3 (apply keeps_seq; [apply show_keeps|]). apply keeps_ret.
Qed.

Lemma tweakreg_keeps E (q : path) flcs kw :
  (∀ w, (TweakReg E flcs kw w).1 !! q = fs w !! q) →
  keeps q (tweakreg E flcs kw).
Proof.
  intros H. unfold tweakreg, call_io.
  apply keeps_seq; [apply keeps_emit|]. by apply keeps_act.
Qed.

(** [os.rename] of one name of the working directory to another leaves
    what is under other names. *)
Lemma rename_other (old new : string) (fs fs' : filesystem) n p :
  n ≠ old → n ≠ new →
  rename [old] [new] fs = Ok fs' → fs' !! (n :: p) = fs !! (n :: p).
Proof.
  intros Ho Hn Hren. unfold rename in Hren.
  assert (below [old] (n :: p) = false) as Hb.
  { unfold below. simpl. rewrite decide_False by done.
    apply bool_decide_false. by intros [? ?]. }
  assert (∀ base : filesystem,
            graft [new] (subtree [old] fs) base !! (n :: p) = base !! (n :: p))
    as Hg.
  { intros base. rewrite lookup_graft. simpl. by rewrite decide_False. }
  repeat case_match; simplify_eq; try done;
    rewrite ?Hg, ?lookup_prune, ?Hb; try done;
    rewrite lookup_insert_ne by congruence;
    by rewrite lookup_delete_ne by congruence.
Qed.

Lemma rename_show_keeps (old new : string) n p :
  n ≠ old → n ≠ new →
  keeps (n :: p) (fs_op (rename [old] [new]) ;; Image new).
Proof.
  intros Ho Hn. apply keeps_seq; [|apply keeps_reads].
  apply keeps_fs_op. intros fs fs'. by apply rename_other.
Qed.

(** ** Exploratory and final alignment runs (cells 15, 23 and 32) *)

Lemma tweakreg_fs E flcs kw w :
  fs (tweakreg E flcs kw w).1 =
  (TweakReg E flcs kw (World (fs w) (log w ++ [tweak_call flcs kw]))).1.
Proof.
  unfold tweakreg, call_io, mbind, M_bind, bind, emit, act. simpl.
  by destruct (TweakReg E flcs kw _).
Qed.

(** The cells after the download are the exploration, then the
    conclusion. *)
Lemma analysis_split E flcs w :
  analysis E flcs w = (exploration E flcs ;; conclusion E flcs) w.
Proof.
  unfold analysis, exploration, conclusion, mbind, M_bind, bind.
  destruct (cell7 E w) as [w1 [[]|e]]; [|done].
  destruct (cell15 E flcs w1) as [w2 [[]|e]]; [|done].
  destruct (cell17 E w2) as [w3 [t3|e]]; [|done].
  destruct (cell19 w3) as [w4 [[]|e]]; [|done].
  destruct (cell20 w4) as [w5 [[]|e]]; [|done].
  destruct (cell23 E flcs w5) as [w6 [[]|e]]; [|done].
  destruct (cell24 E w6) as [w7 [t7|e]]; [|done].
  destruct (cell26 w7) as [w8 [[]|e]]; [|done].
  by destruct (cell28 w8) as [w9 [[]|e]].
Qed.

(** Under the routine's contract the exploration leaves an image named
    [*flc.fits] as it was. *)
Lemma exploration_keeps E flcs f :
  keeps_inputs E → Forall (λ g, fnmatch "*flc.fits" g) flcs → f ∈ flcs →
  keeps [f] (exploration E flcs).
Proof.
  intros Hkeep Hflcs Hf.
  assert (fnmatch "*flc.fits" f) as Hm.
  { rewrite Forall_forall in Hflcs. by apply Hflcs. }
  assert (∀ kw, kwarg "updatehdr" kw = Some (VBool false) →
            (∀ out, kwarg "outshifts" kw = Some (VStr out) →
                    ¬ fnmatch "*flc.fits" out) →
            keeps [f] (tweakreg E flcs kw)) as Htweak.
  { intros kw Hupd Hout. apply tweakreg_keeps. intros w.
    by apply Hkeep. }
  unfold exploration.
  apply keeps_seq; [apply cell7_keeps|].
  apply keeps_seq.
  { apply Htweak; [done|]. intros out [= <-]. by vm_compute. }
  apply keeps_seq; [apply read_shifts_keeps|].
  apply keeps_seq; [apply keeps_reads|].
  apply keeps_seq; [apply keeps_reads|].
  apply keeps_seq.
  { apply Htweak; [done|]. intros out [= <-]. by vm_compute. }
  apply keeps_seq; [apply read_shifts_keeps|].
  apply keeps_seq.
  { apply rename_show_keeps; intros ->; by vm_compute in Hm. }
  apply keeps_seq; [|apply keeps_ret].
  apply rename_show_keeps; intros ->; by vm_compute in Hm.
Qed.


(** The simulated alignment keeps to the contract. *)
Lemma sim_write_other (flcs : list string) (prods : list (string * node))
    (fs : filesystem) (p : path) :
  (∀ f, p = [f] → f ∈ flcs) →
  foldl (sim_write flcs) fs prods !! p = fs !! p.
Proof.
  intros Hp. revert fs. induction prods as [|[n x] prods IH]; intros fs;
    simpl; [done|].
  rewrite IH. unfold sim_write. simpl. case_bool_decide as Hn; [done|].
  rewrite lookup_insert_ne; [done|]. intros <-. by apply Hn, Hp.
Qed.

Lemma sim_keeps_inputs : keeps_inputs sim.
Proof.
  intros flcs kw w f Hf _ Hupd _. simpl. unfold sim_TweakReg.
  destruct (sim_loads _ _ _); [done|]. simpl.
  rewrite sim_write_other by (by intros ? [= <-]).
  by rewrite Hupd.
Qed.


(** The final call of the simulated run, with [updatehdr=True], does
    change the exposure. *)
Example final_run_changes_inputs :
  fs (cell32 sim three_flcs
        (exploration sim three_flcs (cell5 sim (init ∅)).1).1).1
    !! ["j9irw3fwq_flc.fits"]
  ≠ fs (cell5 sim (init ∅)).1 !! ["j9irw3fwq_flc.fits"].
Proof. vm_compute. discriminate. Qed.

(** ** Tables *)

Lemma auto_names_lookup n i :
  (i < n)%nat → auto_names n !! i = Some ("col" +:+ pretty (S i)).
Proof.
  intros Hi. unfold auto_names. rewrite list_lookup_fmap.
  by rewrite (proj2 (lookup_seq 1 n i (S i))).
Qed.

(** The column [col<k>] of a table without a header is the [k]-th. *)
Lemma auto_names_find n k i x :
  list_find (λ c, c = "col" +:+ pretty (S k)) (auto_names n) = Some (i, x) →
  i = k.
Proof.
  intros (Hi & -> & _)%list_find_Some.
  assert (i < n)%nat as Hlt.
  { apply lookup_lt_Some in Hi. unfold auto_names in Hi.
    by rewrite length_fmap, length_seq in Hi. }
  rewrite auto_names_lookup in Hi by done.
  injection Hi as Hi. apply (inj _) in Hi. apply (inj _) in Hi. lia.
Qed.

(** ** Reading the shift file (cells 17 and 24) *)

Lemma rev_app_rev_app t a b :
  String.rev_app (String.rev_app t a) b = String.rev_app a (t +:+ b).
Proof.
  revert a. induction t as [|c t IH]; intros a; simpl; [done|].
  by rewrite IH.
Qed.

Lemma rev_rev_app t : String.rev (String.rev_app t "") = t.
Proof.
  unfold String.rev. rewrite rev_app_rev_app. simpl.
  apply string_app_nil_r.
Qed.

(** A token is read into the word under way. *)
Lemma words_go_token cur t s :
  t ≠ "" → no_space t →
  String.words_go cur (t +:+ s) =
  String.words_go (Some (String.rev_app t (default "" cur))) s.
Proof.
  revert cur. induction t as [|c t IH]; intros cur Hne Hns; [done|].
  simpl in Hns. apply andb_True in Hns as [Hc%negb_True Ht].
  rewrite string_app_cons. simpl.
  destruct (Ascii.is_space c) eqn:Hsp; [by destruct Hc|].
  destruct t as [|c' t].
  - rewrite string_app_nil_l. by destruct cur.
  - rewrite IH by done. by destruct cur.
Qed.

Lemma words_go_token_None t s :
  t ≠ "" → no_space t →
  String.words_go None (t +:+ s) =
  String.words_go (Some (String.rev_app t "")) s.
Proof. intros. by rewrite words_go_token. Qed.

Lemma words_go_spaces sep s :
  all_space sep → String.words_go None (sep +:+ s) = String.words_go None s.
Proof.
  induction sep as [|c sep IH]; intros Hsp; [done|].
  simpl in Hsp. apply andb_True in Hsp as [Hc Hsp].
  rewrite string_app_cons. simpl. apply Is_true_true in Hc as ->.
  simpl. by apply IH.
Qed.

(** A separator ends the word under way. *)
Lemma words_go_separator c sep s :
  is_separator sep →
  String.words_go (Some c) (sep +:+ s) =
  String.rev c :: String.words_go None s.
Proof.
  intros [Hne Hsp]. destruct sep as [|a sep]; [done|].
  simpl in Hsp. apply andb_True in Hsp as [Ha Hsp].
  rewrite string_app_cons. simpl. apply Is_true_true in Ha as ->.
  simpl. f_equal. by apply words_go_spaces.
Qed.

(** Splitting a line of tokens gives the tokens back. *)
Lemma words_join sep l :
  is_separator sep → Forall is_token l → String.words (join sep l) = l.
Proof.
  intros Hsep Hl. unfold String.words.
  induction Hl as [|t l [Hne Hns] Hl IH]; [done|].
  destruct l as [|t' l].
  - simpl. rewrite <-(string_app_nil_r t) at 1.
    rewrite words_go_token_None by done. simpl. by rewrite rev_rev_app.
  - change (join sep (t :: t' :: l)) with (t +:+ sep +:+ join sep (t' :: l)).
    rewrite words_go_token_None by done.
    rewrite words_go_separator by done. by rewrite rev_rev_app, IH.
Qed.

Lemma is_comment_token t s :
  is_token t → is_comment (t +:+ s) = is_comment t.
Proof.
  intros [Hne Hns]. destruct t as [|c t]; [done|].
  simpl in Hns. apply andb_True in Hns as [Hc%negb_True _].
  rewrite string_app_cons. simpl.
  by destruct (Ascii.is_space c); [destruct Hc|].
Qed.

Lemma shift_line_words sep r :
  is_separator sep → shift_row_ok r →
  String.words (shift_line sep r) = shift_fields r.
Proof. intros Hsep [Hr _]. by apply words_join. Qed.

Lemma shift_line_is_data sep r :
  is_separator sep → shift_row_ok r → is_data_line (shift_line sep r).
Proof.
  intros Hsep Hr. unfold is_data_line.
  rewrite (shift_line_words sep r) by done.
  destruct Hr as [Hr Hc]. unfold shift_line. simpl.
  apply Forall_cons in Hr as [Ht _].
  rewrite is_comment_token by done.
  apply andb_True. split; [by apply negb_True|done].
Qed.

Lemma shift_file_data comments sep rs :
  Forall is_comment comments → is_separator sep → Forall shift_row_ok rs →
  String.words <$> filter is_data_line (shift_file comments sep rs)
  = shift_fields <$> rs.
Proof.
  intros Hc Hsep Hrs. unfold shift_file. rewrite filter_app.
  assert (filter is_data_line comments = []) as ->.
  { induction Hc as [|c cs Hc Hcs IH]; [done|].
    rewrite filter_cons_False; [done|]. unfold is_data_line.
    apply Is_true_true in Hc as ->. simpl. tauto. }
  simpl. induction Hrs as [|r rs Hr Hrs IH]; [done|].
  rewrite fmap_cons, filter_cons_True by (by apply shift_line_is_data).
  rewrite fmap_cons, IH. by rewrite shift_line_words.
Qed.

Lemma Table_read_run split (file : string) names w :
  Table_read split file names w =
  (World (fs w) (log w ++ [ETable "Table.read" file (Some names)]),
   match open_text file (fs w) with
   | Ok l => read_no_header split names l
   | Raise e => Raise e
   end).
Proof. reflexivity. Qed.

Lemma open_text_Ok (file : string) (fs : filesystem) lines :
  open_text file fs = Ok lines ↔ fs !! [file] = Some (File (TextFile lines)).
Proof.
  unfold open_text, open_file.
  destruct (fs !! [file]) as [[[ft|l|b]|]|]; split; intros H; by simplify_eq.
Qed.

Lemma read_named_Ok split names lines tab :
  read_no_header split names lines = Ok tab →
  colnames tab = names ∧
  rows tab = split <$> filter is_data_line lines ∧
  rows tab ≠ [] ∧
  Forall (λ r, length r = length names) (rows tab).
Proof.
  unfold read_no_header.
  destruct (split <$> filter is_data_line lines) as [|r rs] eqn:Hrs; [done|].
  destruct (forallb _ (r :: rs)) eqn:Hall; [|done]. intros [= <-]. simpl.
  split_and!; [done..|]. apply Forall_forall. intros r' Hr'.
  apply Is_true_true, forallb_True in Hall. rewrite Forall_forall in Hall.
  specialize (Hall r' Hr'). by apply bool_decide_unpack in Hall.
Qed.

Lemma read_named_rows split names lines :
  split <$> filter is_data_line lines ≠ [] →
  Forall (λ r, length r = length names)
         (split <$> filter is_data_line lines) →
  read_no_header split names lines
  = Ok (Table names (split <$> filter is_data_line lines)).
Proof.
  intros Hne Hlen. unfold read_no_header.
  destruct (split <$> filter is_data_line lines) as [|r rs] eqn:Hrs; [done|].
  assert (forallb (λ r0 : list string, bool_decide (length r0 = length names))
            (r :: rs) = true) as ->; [|done].
  apply Is_true_true, forallb_True. eapply Forall_impl; [exact Hlen|].
  intros r' Hr'. by apply bool_decide_pack.
Qed.

Lemma shows_run E {A} (l : list A) (what : A → string) w w' :
  for_each l (λ x, show E (what x)) w = (w', Ok tt) → w' = w.
Proof.
  revert w. induction l as [|x l IH]; intros w H; simpl in H.
  - by injection H as <-.
  - apply bind_ok in H as ([] & w1 & Hx & H). unfold show, ask in Hx.
    injection Hx as <- _. by apply IH.
Qed.

(** What a completed read of a shift file did: the read, then the
    formats, which leave the world as it is. *)
Lemma read_shifts_Ok E (file : string) w w' tab :
  read_shifts E file w = (w', Ok tab) →
  Table_read (tokens E) file shift_names w = (w', Ok tab).
Proof.
  unfold read_shifts. intros H.
  apply bind_ok in H as (tab' & w1 & Hread & H).
  apply bind_ok in H as ([] & w2 & Hfmt & H). injection H as <- <-.
  apply shows_run in Hfmt as ->. done.
Qed.

Lemma shift_column (tab : table) (i : nat) name :
  colnames tab = shift_names → shift_names !! i = Some name →
  column tab name = Ok ((λ r, default "" (r !! i)) <$> rows tab).
Proof.
  intros Hcol Hi. unfold column. rewrite Hcol.
  do 7 (destruct i as [|i]; [by injection Hi as <-|]). done.
Qed.


(** The simulated alignment writes its shift file as the spec
    describes it. *)
Lemma sim_shift_rows_ok flcs :
  Forall plain_name flcs → Forall shift_row_ok (sim_shift_row <$> flcs).
Proof.
  intros H. apply Forall_fmap. eapply Forall_impl; [exact H|].
  intros f [Htok Hcom]. split; [|done].
  unfold shift_fields. simpl.
  repeat (apply Forall_cons; split); [done|decide_by_compute..|].
  by apply Forall_nil.
Qed.

Lemma sim_writes_shifts : writes_shifts sim.
Proof.
  intros flcs kw w out Hplain Hshift Hout Htxt Hnotin Hok.
  simpl in *. unfold sim_TweakReg in *.
  destruct (sim_loads "tweakreg.cfg" kw (fs w)); [done|]. simpl.
  unfold sim_products. rewrite Hshift, Hout. simpl.
  exists (shift_file ["# units: pixels"] "    " (sim_shift_row <$> flcs)).
  split.
  - assert (Hne : ∀ (fs0 : filesystem) n x, n ≠ out →
              sim_write flcs fs0 (n, x) !! [out] = fs0 !! [out]).
    { intros fs0 n x Hn. unfold sim_write. simpl.
      destruct (bool_decide (n ∈ flcs)); [done|].
      rewrite lookup_insert_ne; [done|congruence]. }
    rewrite !Hne by (intros <-; by vm_compute in Htxt).
    unfold sim_write. simpl. rewrite bool_decide_false by done.
    apply lookup_insert_eq.
  - exists (sim_shift_row <$> flcs). split.
    + rewrite <-list_fmap_compose. by apply fmap_id_ext.
    + apply shift_file_data; [by repeat constructor|by vm_compute|].
      by apply sim_shift_rows_ok.
Qed.


(** ** Leftover settings files do not reach the calls *)

(** *** Names *)

Lemma last_char_app s t : t ≠ "" → last_char (s +:+ t) = last_char t.
Proof.
  intros Ht. induction s as [|c s IH]; [done|].
  rewrite string_app_cons. simpl. rewrite IH.
  destruct (s +:+ t) eqn:Hst; [|done].
  destruct s; [by rewrite string_app_nil_l in Hst|].
  by rewrite string_app_cons in Hst.
Qed.

Lemma is_cfg_spec n : is_cfg n ↔ ∃ s, n = s +:+ ".cfg".
Proof.
  unfold is_cfg. rewrite Is_true_true.
  change (fnmatch "*.cfg" n) with (fnmatch_star (fnmatch ".cfg") n).
  rewrite fnmatch_star_spec. split.
  - intros (s1 & s2 & -> & H). apply fnmatch_literal in H as ->; [|done].
    by exists s1.
  - intros (s & ->). exists s, ".cfg". split; [done|].
    by apply fnmatch_literal.
Qed.

(** An exposure file is no settings file. *)
Lemma flc_not_cfg n : fnmatch "*flc.fits" n → ¬ is_cfg n.
Proof.
  intros [s ->]%Is_true_true%fnmatch_flc [s' Heq]%is_cfg_spec.
  apply (f_equal last_char) in Heq. by rewrite !last_char_app in Heq.
Qed.

(** *** File systems that differ in their settings files *)

Lemma cfg_equiv_refl fs : cfg_equiv fs fs.
Proof. intros p. by left. Qed.

Lemma cfg_equiv_lookup fs1 fs2 (p : path) :
  cfg_equiv fs1 fs2 → (∀ n, p = [n] → ¬ is_cfg n) → fs1 !! p = fs2 !! p.
Proof.
  intros H Hp. destruct (H p) as [?|(n & -> & Hn & _)]; [done|].
  by destruct (Hp n).
Qed.

Lemma cfg_equiv_deep fs1 fs2 x y p :
  cfg_equiv fs1 fs2 → fs1 !! (x :: y :: p) = fs2 !! (x :: y :: p).
Proof. intros H. by apply cfg_equiv_lookup. Qed.

Lemma cfg_equiv_Dir fs1 fs2 (p : path) :
  cfg_equiv fs1 fs2 → fs1 !! p = Some Dir ↔ fs2 !! p = Some Dir.
Proof.
  intros H. destruct (H p) as [Heq|(n & Hp & _ & H1 & H2)].
  - by rewrite Heq.
  - split; intros Hd; [by destruct H1|by destruct H2].
Qed.

Lemma cfg_equiv_isdir fs1 fs2 p :
  cfg_equiv fs1 fs2 → isdir fs1 p = isdir fs2 p.
Proof.
  intros H. destruct p as [|x p]; [done|]. simpl.
  apply bool_decide_ext, cfg_equiv_Dir, H.
Qed.

(** A change that is the same on both sides keeps the two alike. *)
Lemma cfg_equiv_change (fs1 fs2 fs1' fs2' : filesystem) :
  cfg_equiv fs1 fs2 →
  (∀ q : path, (fs1' !! q = fs1 !! q ∧ fs2' !! q = fs2 !! q) ∨
        fs1' !! q = fs2' !! q) →
  cfg_equiv fs1' fs2'.
Proof.
  intros H Hq q. destruct (Hq q) as [[-> ->]|?]; [apply H|by left].
Qed.

Lemma cfg_equiv_insert (fs1 fs2 : filesystem) (p : path) x :
  cfg_equiv fs1 fs2 → cfg_equiv (<[p:=x]> fs1) (<[p:=x]> fs2).
Proof.
  intros H. eapply cfg_equiv_change; [done|]. intros q.
  destruct (decide (p = q)) as [->|].
  - right. by rewrite !lookup_insert_eq.
  - left. by rewrite !lookup_insert_ne.
Qed.

Lemma cfg_equiv_delete (fs1 fs2 : filesystem) (p : path) :
  cfg_equiv fs1 fs2 → cfg_equiv (delete p fs1) (delete p fs2).
Proof.
  intros H. eapply cfg_equiv_change; [done|]. intros q.
  destruct (decide (p = q)) as [->|].
  - right. by rewrite !lookup_delete_eq.
  - left. by rewrite !lookup_delete_ne.
Qed.

Lemma cfg_equiv_prune (fs1 fs2 : filesystem) (p : path) :
  cfg_equiv fs1 fs2 →
  cfg_equiv (filter (λ kv : path * node, negb (below p kv.1)) fs1)
            (filter (λ kv : path * node, negb (below p kv.1)) fs2).
Proof.
  intros H. eapply cfg_equiv_change; [done|]. intros q.
  rewrite !lookup_prune. destruct (below p q); auto.
Qed.

(** *** Listings and patterns *)

Lemma StronglySorted_filter {A} (R : relation A) (P : A → Prop)
    `{!∀ x, Decision (P x)} (l : list A) :
  StronglySorted R l → StronglySorted R (filter P l).
Proof.
  induction 1 as [|x l Hl IH Hx]; [constructor|].
  destruct (decide (P x)).
  - rewrite filter_cons_True by done. constructor; [done|].
    apply Forall_forall. intros y [_ Hy]%list_elem_of_filter.
    rewrite Forall_forall in Hx. by apply Hx.
  - by rewrite filter_cons_False.
Qed.

Lemma StronglySorted_impl_elem {A} (R1 R2 : relation A) (l : list A) :
  (∀ a b, a ∈ l → b ∈ l → R1 a b → R2 a b) →
  StronglySorted R1 l → StronglySorted R2 l.
Proof.
  intros HR Hl. induction Hl as [|x l Hl IH Hx]; [constructor|].
  constructor.
  - apply IH. intros a b Ha Hb. apply HR; by right.
  - apply Forall_forall. intros y Hy. rewrite Forall_forall in Hx.
    apply HR; [by left|by right|by apply Hx].
Qed.

Lemma listdir_StronglySorted (ord : dir_order) (fs : filesystem) (d : path) :
  StronglySorted (rank_le (ord fs d)) (listdir ord fs d).
Proof.
  unfold listdir. destruct (isdir fs d); [|constructor].
  apply StronglySorted_merge_sort; apply _.
Qed.

(** Two listings of the same names, ranked alike, are the same list. *)
Lemma listdir_filter_ext (P : string → Prop) `{!∀ n, Decision (P n)}
    (ord : dir_order) (fs1 fs2 : filesystem) (d : path) :
  isdir fs1 d = isdir fs2 d →
  (∀ n, P n → is_Some (fs1 !! (d ++ [n])) ↔ is_Some (fs2 !! (d ++ [n]))) →
  (∀ n, P n → ord fs1 d n = ord fs2 d n) →
  filter P (listdir ord fs1 d) = filter P (listdir ord fs2 d).
Proof.
  intros Hd Hn Hrank.
  apply (Sorted_unique (rank_le (ord fs1 d))).
  - apply StronglySorted_Sorted, StronglySorted_filter,
      listdir_StronglySorted.
  - apply StronglySorted_Sorted.
    apply (StronglySorted_impl_elem (rank_le (ord fs2 d))).
    + intros a b [Ha _]%list_elem_of_filter [Hb _]%list_elem_of_filter.
      unfold rank_le. by rewrite !Hrank.
    + apply StronglySorted_filter, listdir_StronglySorted.
  - apply NoDup_Permutation;
      [apply NoDup_filter, listdir_NoDup..|].
    intros n. rewrite !list_elem_of_filter, !listdir_elem, Hd.
    split; intros [HP [Hdir Hs]]; (split; [done|split; [done|]]);
      by apply (Hn n HP).
Qed.

Lemma listdir_ext (ord : dir_order) (fs1 fs2 : filesystem) (d : path) :
  isdir fs1 d = isdir fs2 d →
  (∀ n, is_Some (fs1 !! (d ++ [n])) ↔ is_Some (fs2 !! (d ++ [n]))) →
  (∀ n, ord fs1 d n = ord fs2 d n) →
  listdir ord fs1 d = listdir ord fs2 d.
Proof.
  intros Hd Hn Hrank.
  assert (∀ l : list string, filter (λ _, True) l = l) as Hall.
  { induction l as [|x l IH]; [done|].
    rewrite filter_cons_True by done. by rewrite IH. }
  rewrite <-(Hall (listdir ord fs1 d)), <-(Hall (listdir ord fs2 d)).
  by apply (listdir_filter_ext (λ _, True)).
Qed.

Lemma cfg_equiv_listdir (ord : dir_order) (fs1 fs2 : filesystem) (d : path) :
  order_blind ord →
  cfg_equiv fs1 fs2 → d ≠ [] → listdir ord fs1 d = listdir ord fs2 d.
Proof.
  intros Hord H Hd. apply listdir_ext; [by apply cfg_equiv_isdir| |].
  - intros n. destruct d as [|x d]; [done|].
    destruct d as [|y d]; simpl; by rewrite (cfg_equiv_deep fs1 fs2).
  - intros n. by apply Hord.
Qed.

Lemma glob1_ext (ord : dir_order) (fs1 fs2 : filesystem) (dir : path) pat b :
  order_blind ord →
  cfg_equiv fs1 fs2 → dir ≠ [] →
  glob1 ord fs1 dir pat b = glob1 ord fs2 dir pat b.
Proof.
  intros Hord H Hd. unfold glob1.
  rewrite (cfg_equiv_listdir ord fs1 fs2 dir Hord H Hd).
  rewrite (cfg_equiv_isdir fs1 fs2 (dir ++ [pat]) H).
  assert (exists_path fs1 (dir ++ [pat]) = exists_path fs2 (dir ++ [pat]))
    as ->.
  { destruct dir as [|x [|y dir]]; [done|..]; simpl;
      by rewrite (cfg_equiv_deep fs1 fs2). }
  destruct (has_magic pat); [|done].
  apply list_filter_iff. intros n.
  by rewrite (cfg_equiv_isdir fs1 fs2 (dir ++ [n]) H).
Qed.

Lemma glob1_literal_ext (ord : dir_order) (fs1 fs2 : filesystem) pat b :
  cfg_equiv fs1 fs2 → has_magic pat = false → ¬ is_cfg pat →
  glob1 ord fs1 [] pat b = glob1 ord fs2 [] pat b.
Proof.
  intros H Hm Hc. unfold glob1. rewrite Hm.
  rewrite (cfg_equiv_isdir fs1 fs2 ([] ++ [pat]) H). simpl.
  rewrite (cfg_equiv_lookup fs1 fs2 [pat] H); [done|].
  by intros n [= <-].
Qed.

Lemma glob_from_ext (ord : dir_order) (fs1 fs2 : filesystem) (dir : path)
    pats :
  order_blind ord →
  cfg_equiv fs1 fs2 → dir ≠ [] →
  glob_from ord fs1 dir pats = glob_from ord fs2 dir pats.
Proof.
  intros Hord H. revert dir.
  induction pats as [|pat pats IH]; intros dir Hd; [done|].
  destruct pats as [|pat' pats].
  - simpl. by rewrite (glob1_ext ord fs1 fs2).
  - change (glob_from ord ?fs dir (pat :: pat' :: pats)) with
      (glob1 ord fs dir pat true
       ≫= λ n, glob_from ord fs (dir ++ [n]) (pat' :: pats)).
    rewrite (glob1_ext ord fs1 fs2) by done.
    apply list_bind_ext; [|done]. intros n. apply IH.
    by destruct dir.
Qed.

Lemma glob_download_ext (ord : dir_order) (fs1 fs2 : filesystem) :
  order_blind ord →
  cfg_equiv fs1 fs2 →
  glob ord fs1 download_pattern = glob ord fs2 download_pattern.
Proof.
  intros Hord H. unfold glob, download_pattern.
  change (glob_from ord ?fs [] ("mastDownload" :: ?pats)) with
    (glob1 ord fs [] "mastDownload" true
     ≫= λ n, glob_from ord fs ([] ++ [n]) pats).
  rewrite (glob1_literal_ext ord fs1 fs2) by (done || by vm_compute).
  apply list_bind_ext; [|done]. intros n. by apply glob_from_ext.
Qed.

Lemma glob_cwd_eq (ord : dir_order) (fs : filesystem) :
  glob ord fs ["*flc.fits"] =
  (λ n, [n]) <$> filter (λ n, fnmatch "*flc.fits" n && negb (ishidden n) : Prop)
                        (listdir ord fs []).
Proof.
  unfold glob. simpl. unfold glob1. simpl. f_equal.
  apply list_filter_iff. intros n. by rewrite andb_true_r.
Qed.

Lemma glob_cwd_ext (ord : dir_order) (fs1 fs2 : filesystem) :
  order_blind ord →
  cfg_equiv fs1 fs2 →
  glob ord fs1 ["*flc.fits"] = glob ord fs2 ["*flc.fits"].
Proof.
  intros Hord H. rewrite !glob_cwd_eq. f_equal.
  apply listdir_filter_ext; [done| |].
  - intros n [Hm _]%andb_True. simpl.
    rewrite (cfg_equiv_lookup fs1 fs2 [n] H); [done|].
    intros ? [= <-]. by apply flc_not_cfg.
  - intros n [Hm _]%andb_True. apply Hord; [done|].
    intros _. by apply flc_not_cfg.
Qed.

Lemma glob_cwd_flc (ord : dir_order) (fs : filesystem) p :
  p ∈ glob ord fs ["*flc.fits"] → ∃ n, p = [n] ∧ fnmatch "*flc.fits" n.
Proof.
  rewrite glob_cwd_eq. intros (n & -> & Hn)%list_elem_of_fmap.
  apply list_elem_of_filter in Hn as [[Hm _]%andb_True _]. eauto.
Qed.

(** *** The file operations of the notebook *)

Lemma copy_blind (src : path) b :
  (2 ≤ length src)%nat → op_blind (copy src [b]).
Proof.
  intros Hlen fs1 fs2 H. unfold copy.
  assert (fs1 !! src = fs2 !! src) as ->.
  { destruct src as [|x [|y src]]; simpl in Hlen; try lia.
    by apply cfg_equiv_deep. }
  rewrite !(cfg_equiv_isdir fs1 fs2) by done.
  repeat case_match; simplify_eq; try done; by apply cfg_equiv_insert.
Qed.

Lemma rmtree_blind n : ¬ is_cfg n → op_blind (rmtree [n]).
Proof.
  intros Hn fs1 fs2 H. unfold rmtree.
  rewrite (cfg_equiv_lookup fs1 fs2 [n] H) by (by intros ? [= <-]).
  repeat case_match; simplify_eq; try done; by apply cfg_equiv_prune.
Qed.

Lemma remove_blind n : ¬ is_cfg n → op_blind (remove [n]).
Proof.
  intros Hn fs1 fs2 H. unfold remove.
  rewrite (cfg_equiv_lookup fs1 fs2 [n] H) by (by intros ? [= <-]).
  repeat case_match; simplify_eq; try done; by apply cfg_equiv_delete.
Qed.

Lemma cfg_equiv_rename_dir (fs1 fs2 : filesystem) s d :
  cfg_equiv fs1 fs2 → ¬ is_cfg s → ¬ is_cfg d →
  cfg_equiv
    (graft [d] (subtree [s] fs1)
       (filter (λ kv : path * node, negb (below [s] kv.1)) fs1))
    (graft [d] (subtree [s] fs2)
       (filter (λ kv : path * node, negb (below [s] kv.1)) fs2)).
Proof.
  intros H Hs Hd. eapply cfg_equiv_change; [done|]. intros q.
  rewrite !lookup_graft, !lookup_prune.
  destruct (strip_prefix [d] q) as [r|] eqn:Hq.
  - right. apply strip_prefix_Some in Hq as ->.
    assert (fs1 !! ([s] ++ r) = fs2 !! ([s] ++ r)) as ->.
    { apply cfg_equiv_lookup; [done|]. by intros n [= <- _]. }
    assert (fs1 !! ([d] ++ r) = fs2 !! ([d] ++ r)) as ->; [|done].
    apply cfg_equiv_lookup; [done|]. by intros n [= <- _].
  - destruct (below [s] q); auto.
Qed.

Lemma rename_blind s d :
  ¬ is_cfg s → ¬ is_cfg d → op_blind (rename [s] [d]).
Proof.
  intros Hs Hd fs1 fs2 H. unfold rename.
  rewrite (cfg_equiv_lookup fs1 fs2 [s] H) by (by intros ? [= <-]).
  rewrite (cfg_equiv_lookup fs1 fs2 [d] H) by (by intros ? [= <-]).
  rewrite !(cfg_equiv_isdir fs1 fs2) by done.
  rewrite (cfg_equiv_listdir (λ _ _ _, 0%nat) fs1 fs2 [d]) by done.
  repeat case_match; simplify_eq; try done;
    first [by apply cfg_equiv_insert, cfg_equiv_delete
          |by apply cfg_equiv_rename_dir].
Qed.

Lemma open_file_ext (fs1 fs2 : filesystem) file :
  cfg_equiv fs1 fs2 → ¬ is_cfg file →
  open_file file fs1 = open_file file fs2.
Proof.
  intros H Hf. unfold open_file.
  by rewrite (cfg_equiv_lookup fs1 fs2 [file] H) by (by intros ? [= <-]).
Qed.

(** *** The notebook's computations *)

Lemma blind_ret {A} (a : A) : blind (mret a).
Proof. by intros w1 w2 Hl Hf. Qed.

Lemma blind_bind {A B} (m : M A) (f : A → M B) :
  blind m → (∀ a, (∃ w, (m w).2 = Ok a) → blind (f a)) → blind (m ≫= f).
Proof.
  intros Hm Hf w1 w2 Hl He. unfold mbind, M_bind, bind.
  destruct (Hm w1 w2 Hl He) as (Hr & Hl' & He').
  destruct (m w1) as [w1' [a|e]] eqn:H1, (m w2) as [w2' r2] eqn:H2;
    simpl in *; subst r2.
  - apply Hf; [|done..]. exists w1. by rewrite H1.
  - done.
Qed.

Lemma blind_seq {A B} (m : M A) (k : M B) :
  blind m → blind k → blind (m ;; k).
Proof. intros Hm Hk. apply blind_bind; [done|]. by intros _ _. Qed.

Lemma blind_emit ev : blind (emit ev).
Proof. intros w1 w2 Hl He. simpl. by rewrite Hl. Qed.

Lemma blind_fs_get {A} (f : filesystem → A) :
  (∀ fs1 fs2, cfg_equiv fs1 fs2 → f fs1 = f fs2) → blind (fs_get f).
Proof. intros Hf w1 w2 Hl He. simpl. by rewrite (Hf _ _ He). Qed.

Lemma blind_fs_try {A} (f : filesystem → outcome A) :
  (∀ fs1 fs2, cfg_equiv fs1 fs2 → f fs1 = f fs2) → blind (fs_try f).
Proof. intros Hf w1 w2 Hl He. simpl. by rewrite (Hf _ _ He). Qed.

Lemma blind_fs_op op : op_blind op → blind (fs_op op).
Proof.
  intros Hop w1 w2 Hl He. unfold fs_op. specialize (Hop _ _ He).
  destruct (op (fs w1)), (op (fs w2)); simpl; try done.
  by subst.
Qed.

Lemma blind_ask {A} (routine : world → outcome A) :
  cfg_blind_answer routine → blind (ask routine).
Proof. intros Hr w1 w2 Hl He. simpl. by rewrite (Hr w1 w2). Qed.

Lemma blind_act {A} (routine : world → filesystem * outcome A) :
  cfg_blind routine → blind (act routine).
Proof.
  intros Hr w1 w2 Hl He. unfold act.
  destruct (Hr w1 w2 Hl He) as [H1 H2].
  by destruct (routine w1), (routine w2).
Qed.

Lemma blind_for_each {A} (l : list A) (body : A → M unit) :
  Forall (λ x, blind (body x)) l → blind (for_each l body).
Proof.
  induction 1 as [|x l Hx Hl IH]; simpl.
  - apply blind_ret.
  - by apply blind_seq.
Qed.

Lemma blind_open {A} file (k : outcome content → outcome A) :
  ¬ is_cfg file → blind (fs_try (λ fs, k (open_file file fs))).
Proof.
  intros Hf. apply blind_fs_try. intros fs1 fs2 He.
  by rewrite (open_file_ext fs1 fs2).
Qed.

Lemma getval_blind file key : ¬ is_cfg file → blind (getval file key).
Proof.
  intros Hf. unfold getval. apply blind_seq; [apply blind_emit|].
  apply blind_fs_try. intros fs1 fs2 He. unfold open_fits.
  by rewrite (open_file_ext fs1 fs2).
Qed.

Lemma fits_data_blind file ext ver :
  ¬ is_cfg file → blind (fits_data file ext ver).
Proof.
  intros Hf. unfold fits_data. apply blind_seq; [apply blind_emit|].
  apply blind_fs_try. intros fs1 fs2 He. unfold open_fits.
  by rewrite (open_file_ext fs1 fs2).
Qed.

Lemma Table_read_blind split file names :
  ¬ is_cfg file → blind (Table_read split file names).
Proof.
  intros Hf. unfold Table_read. apply blind_seq; [apply blind_emit|].
  apply blind_fs_try. intros fs1 fs2 He. unfold open_text.
  by rewrite (open_file_ext fs1 fs2).
Qed.

Lemma ascii_read_blind guess file :
  ¬ is_cfg file → blind (ascii_read guess file).
Proof.
  intros Hf. unfold ascii_read. apply blind_seq; [apply blind_emit|].
  apply blind_fs_try. intros fs1 fs2 He. unfold open_text.
  by rewrite (open_file_ext fs1 fs2).
Qed.

Lemma Image_blind file : ¬ is_cfg file → blind (Image file).
Proof.
  intros Hf. unfold Image. apply blind_seq; [apply blind_emit|].
  apply blind_fs_try. intros fs1 fs2 He.
  by rewrite (open_file_ext fs1 fs2).
Qed.

(** A fixed name that is no settings file. *)
Ltac not_cfg := let H := fresh in intros H; by vm_compute in H.

Section Blind.

Variable E : Env.
Hypothesis HE : ignores_cfg E.

Lemma acquire_blind : blind (acquire E).
Proof.
  destruct HE as (Hq & Hp & Hd & _). unfold acquire, call, call_io.
  apply blind_bind.
  { apply blind_seq; [apply blind_emit|apply blind_ask, Hq]. }
  intros obsTable _. apply blind_bind.
  { apply blind_seq; [apply blind_emit|apply blind_ask, Hp]. }
  intros products _.
  apply blind_seq; [apply blind_emit|apply blind_act, Hd].
Qed.

Lemma order_ignores_cfg : order_blind (dir_rank E).
Proof. by destruct HE as (_ & _ & _ & _ & _ & _ & Ho). Qed.

Lemma show_blind what : blind (show E what).
Proof.
  destruct HE as (_ & _ & _ & _ & _ & Hshow & _).
  apply blind_ask, Hshow.
Qed.

Lemma relocate_blind : blind (relocate E).
Proof.
  unfold relocate. apply blind_bind.
  { apply blind_fs_get. intros fs1 fs2.
    apply glob_download_ext, order_ignores_cfg. }
  intros flcs [w Hw]. simpl in Hw. injection Hw as <-.
  apply blind_seq; [|apply blind_seq; [|apply blind_ret]].
  - apply blind_for_each, Forall_forall. intros q Hq.
    apply blind_fs_op, copy_blind.
    rewrite (glob_download_length _ _ _ Hq). lia.
  - apply blind_fs_op, rmtree_blind. not_cfg.
Qed.

Lemma select_inputs_blind : blind (select_inputs E).
Proof.
  unfold select_inputs. apply blind_seq.
  { apply blind_fs_op, remove_blind. not_cfg. }
  apply blind_bind.
  { apply blind_fs_get. intros fs1 fs2.
    apply glob_cwd_ext, order_ignores_cfg. }
  intros. apply blind_ret.
Qed.

Lemma cell5_blind : blind (cell5 E).
Proof.
  unfold cell5. apply blind_seq; [apply acquire_blind|].
  apply blind_seq; [apply relocate_blind|apply select_inputs_blind].
Qed.

Lemma cell7_blind : blind (cell7 E).
Proof.
  unfold cell7. apply blind_bind.
  { apply blind_fs_get. intros fs1 fs2.
    apply glob_cwd_ext, order_ignores_cfg. }
  intros files [w Hw]. simpl in Hw. injection Hw as <-.
  apply blind_for_each, Forall_forall.
  intros f (p & -> & (n & -> & Hn)%glob_cwd_flc)%list_elem_of_fmap.
  simpl. apply flc_not_cfg in Hn.
  apply blind_seq; [by apply getval_blind|].
  apply blind_seq; [by apply getval_blind|apply blind_ret].
Qed.

Lemma tweakreg_blind flcs kw :
  Forall (λ f, ¬ is_cfg f) flcs →
  kwarg "configobj" kw = Some VNone → blind (tweakreg E flcs kw).
Proof.
  intros Hflcs Hkw. destruct HE as (_ & _ & _ & Ht & _).
  unfold tweakreg, call_io.
  apply blind_seq; [apply blind_emit|by apply blind_act, Ht].
Qed.

Lemma cell37_blind flcs :
  Forall (λ f, ¬ is_cfg f) flcs → blind (cell37 E flcs).
Proof.
  intros Hflcs. destruct HE as (_ & _ & _ & _ & Hd & _).
  unfold cell37, call_io.
  apply blind_seq; [apply blind_emit|by apply blind_act, Hd].
Qed.

Lemma read_shifts_blind file : ¬ is_cfg file → blind (read_shifts E file).
Proof.
  intros Hf. unfold read_shifts.
  apply blind_bind; [by apply Table_read_blind|]. intros tab _.
  apply blind_seq; [|apply blind_ret].
  apply blind_for_each, Forall_forall. intros col _. apply show_blind.
Qed.

Lemma inspect_blind extname : blind (inspect E extname).
Proof.
  unfold inspect. apply blind_seq; [apply show_blind|].
  apply blind_bind; [apply fits_data_blind; not_cfg|]. intros dat _.
  do 3 (apply blind_seq; [apply show_blind|]). apply blind_ret.
Qed.

Lemma cell26_blind : blind cell26.
Proof.
  unfold cell26. apply blind_seq.
  - apply blind_fs_op, rename_blind; not_cfg.
  - apply Image_blind. not_cfg.
Qed.

Lemma cell28_blind : blind cell28.
Proof.
  unfold cell28. apply blind_seq.
  - apply blind_fs_op, rename_blind; not_cfg.
  - apply Image_blind. not_cfg.
Qed.

Lemma cell34_blind : blind (cell34 E).
Proof.
  unfold cell34. apply blind_seq; [apply show_blind|].
  apply blind_bind; [apply fits_data_blind; not_cfg|]. intros chip1 _.
  do 3 (apply blind_seq; [apply show_blind|]).
  apply blind_bind; [apply ascii_read_blind; not_cfg|].
  intros tab _. apply blind_bind; [by apply blind_ask|].
  intros r _.
  do 4 (apply blind_seq; [apply show_blind|]). apply blind_ret.
Qed.

Lemma analysis_blind flcs :
  Forall (λ f, ¬ is_cfg f) flcs → blind (analysis E flcs).
Proof.
  intros Hflcs. unfold analysis, cell15, cell17, cell19, cell20, cell23,
    cell24, cell32, cell40, cell42.
  apply blind_seq; [apply cell7_blind|].
  apply blind_seq; [by apply tweakreg_blind|].
  apply blind_seq; [apply read_shifts_blind; not_cfg|].
  apply blind_seq; [apply Image_blind; not_cfg|].
  apply blind_seq; [apply Image_blind; not_cfg|].
  apply blind_seq; [by apply tweakreg_blind|].
  apply blind_seq; [apply read_shifts_blind; not_cfg|].
  apply blind_seq; [apply cell26_blind|].
  apply blind_seq; [apply cell28_blind|].
  apply blind_seq; [by apply tweakreg_blind|].
  apply blind_seq; [apply cell34_blind|].
  apply blind_seq; [by apply cell37_blind|].
  apply blind_seq; [apply inspect_blind|].
  apply blind_seq; [apply inspect_blind|].
  apply blind_ret.
Qed.

(** The input list names images, and no settings file. *)
Lemma inputs_not_cfg w w5 flcs :
  cell5 E w = (w5, Ok flcs) → Forall (λ f, ¬ is_cfg f) flcs.
Proof.
  intros ->%cell5_result. apply Forall_forall.
  intros f (p & -> & (n & -> & Hn)%glob_cwd_flc)%list_elem_of_fmap.
  by apply flc_not_cfg.
Qed.

Lemma notebook_blind : blind (notebook E).
Proof.
  unfold notebook. apply blind_bind; [apply cell5_blind|].
  intros flcs [w Hw]. apply analysis_blind.
  destruct (cell5 E w) as [w5 r] eqn:H5. simpl in Hw. subst r.
  by apply (inputs_not_cfg w w5).
Qed.

End Blind.

(** *** The simulated library and its settings files *)

Lemma cfg_equiv_stamp (fs1 fs2 : filesystem) (p : path) :
  cfg_equiv fs1 fs2 → cfg_equiv (alter sim_stamp p fs1) (alter sim_stamp p fs2).
Proof.
  intros H q. rewrite !lookup_alter.
  destruct (decide (p = q)) as [->|]; [|apply H].
  destruct (H q) as [->|(n & -> & Hn & H1 & H2)]; [by left|].
  right. exists n. split_and!; try done.
  - destruct (fs1 !! [n]) as [[[f|l|b]|]|]; done.
  - destruct (fs2 !! [n]) as [[[f|l|b]|]|]; done.
Qed.

Lemma cfg_equiv_stamps (fs1 fs2 : filesystem) flcs :
  cfg_equiv fs1 fs2 →
  cfg_equiv (foldr (λ f, alter sim_stamp [f]) fs1 flcs)
            (foldr (λ f, alter sim_stamp [f]) fs2 flcs).
Proof.
  intros H. induction flcs as [|f flcs IH]; simpl; [done|].
  by apply cfg_equiv_stamp.
Qed.

Lemma cfg_equiv_sim_writes (fs1 fs2 : filesystem) flcs prods :
  cfg_equiv fs1 fs2 →
  cfg_equiv (foldl (sim_write flcs) fs1 prods)
            (foldl (sim_write flcs) fs2 prods).
Proof.
  revert fs1 fs2. induction prods as [|prod prods IH]; intros fs1 fs2 H;
    simpl; [done|].
  apply IH. unfold sim_write. case_bool_decide; [done|].
  by apply cfg_equiv_insert.
Qed.

Lemma sim_ignores_cfg : ignores_cfg sim.
Proof.
  split_and!.
  - by intros kw w1 w2 _ _.
  - by intros h w1 w2 _ _.
  - intros h kw w1 w2 _ H. simpl. split; [done|].
    unfold sim_download. by repeat apply cfg_equiv_insert.
  - intros flcs kw _ Hkw w1 w2 _ H. simpl. unfold sim_TweakReg, sim_loads.
    rewrite !bool_decide_true by done. simpl. split; [done|].
    apply cfg_equiv_sim_writes. case_bool_decide; [|done].
    by apply cfg_equiv_stamps.
  - intros flcs kw _ Hkw w1 w2 _ H. simpl.
    unfold sim_AstroDrizzle, sim_loads.
    rewrite !bool_decide_true by done.
    destruct (kwarg "output" kw) as [[]|]; simpl; try done.
    split; [done|]. by apply cfg_equiv_insert.
  - by intros what w1 w2 _ _.
  - by intros fs1 fs2 d n _ _.
Qed.

(** Without [configobj=None] the simulated alignment reads the settings
    file an earlier run left. *)
Example sim_reads_leftover_cfg :
  (sim_TweakReg three_flcs [] (init sim_leftovers)).2
  ≠ (sim_TweakReg three_flcs [] (init ∅)).2.
Proof. by vm_compute. Qed.

Lemma sim_leftovers_equiv : cfg_equiv ∅ sim_leftovers.
Proof.
  intros p. unfold sim_leftovers.
  destruct (decide (p = ["tweakreg.cfg"])) as [->|].
  { right. exists "tweakreg.cfg". by rewrite lookup_insert_eq. }
  rewrite lookup_insert_ne by done.
  destruct (decide (p = ["astrodrizzle.cfg"])) as [->|].
  { right. exists "astrodrizzle.cfg". by rewrite lookup_insert_eq. }
  left. by rewrite lookup_insert_ne.
Qed.

(** *** The claim *)

Lemma configobj_in_script flcs :
  Forall (λ ev, is_call alignment ev ∨ is_call combination ev →
                kwarg "configobj" (event_kw ev) = Some VNone)
         (script flcs).
Proof.
  apply Forall_forall. intros ev Hin [Hcall|Hcall].
  - assert (ev ∈ calls_of alignment (script flcs)) as H
      by (by apply list_elem_of_filter).
    rewrite alignment_calls in H. rewrite !elem_of_cons, elem_of_nil in H.
    by destruct H as [->|[->|[->|[]]]].
  - assert (ev ∈ calls_of combination (script flcs)) as H
      by (by apply list_elem_of_filter).
    rewrite combination_calls in H. by apply list_elem_of_singleton in H as ->.
Qed.

Lemma keywords_in_script flcs :
  Forall (λ ev,
            (is_call alignment ev →
             event_kw ev ∈ [tweak_thresh_kwargs; tweak_general_kwargs;
                            tweak_final_kwargs]) ∧
            (is_call combination ev → event_kw ev = drizzle_kwargs))
         (script flcs).
Proof.
  apply Forall_forall. intros ev Hin. split; intros Hcall.
  - assert (ev ∈ calls_of alignment (script flcs)) as H
      by (by apply list_elem_of_filter).
    rewrite alignment_calls in H. rewrite !elem_of_cons, elem_of_nil in H.
    destruct H as [->|[->|[->|[]]]]; simpl;
      rewrite !elem_of_cons; auto.
  - assert (ev ∈ calls_of combination (script flcs)) as H
      by (by apply list_elem_of_filter).
    rewrite combination_calls in H. by apply list_elem_of_singleton in H as ->.
Qed.



(** * Further properties of the cells *)

(** ** The order of a run *)

(** X1.  Whatever the library does, the log of a run of the notebook is
    an initial part of one fixed sequence: the three archive calls, the
    two header reads of each input, the first alignment call, the read
    of its shift file, the two plots, the second alignment call, its
    shift file and plots, the final alignment call, the reads of cell
    34, the combination call and the two reads of the combined file.  A
    run that completes logs all of it. *)
Theorem run_follows_script E fs0 :
  run_log E fs0 `prefix_of` script (inputs E fs0) ∧
  (completes E fs0 → run_log E fs0 = script (inputs E fs0)).
Proof.
  split.
  - destruct (run_log_prefix E fs0) as [k ->]. apply prefix_take.
  - apply run_log_complete.
Qed.

(** ** Cell 5 when the download is not as expected *)

Lemma acquire_Ok E fs0 :
  (acquire E (init fs0)).2 = Ok tt →
  acquire E (init fs0) = (after_download E fs0, Ok tt) ∧
  log (after_download E fs0) = acquire_events.
Proof.
  intros H. unfold after_download. split.
  - destruct (acquire E (init fs0)) as [w r]. simpl in *. by subst.
  - destruct (acquire_emits E (init fs0)) as (k & _ & Hlog).
    rewrite H in Hlog. by apply Hlog.
Qed.

Lemma glob_download_nil (ord : dir_order) (fs : filesystem) :
  fs !! ["mastDownload"] ≠ Some Dir → glob ord fs download_pattern = [].
Proof.
  intros H. apply elem_of_nil_inv. intros p Hp.
  apply glob_download_elem in Hp as (d & f & _ & Hm & _). done.
Qed.

Lemma relocate_no_dir E w :
  fs w !! ["mastDownload"] ≠ Some Dir →
  relocate E w =
  (w, Raise (match fs w !! ["mastDownload"] with
             | Some _ => NotADirectoryError
             | None => FileNotFoundError
             end)).
Proof.
  intros H. unfold relocate, mbind, M_bind, bind, fs_get.
  rewrite glob_download_nil by done. simpl. unfold ret, fs_op, rmtree.
  by destruct (fs w !! ["mastDownload"]) as [[c|]|].
Qed.

(** X2.  When the download leaves no directory [mastDownload] in the
    working directory, nothing is copied and the run ends in cell 5 at
    [shutil.rmtree]: with [FileNotFoundError] when there is no such
    entry, [NotADirectoryError] when it is a file.  The world is as the
    download left it, and the log holds the three archive calls only. *)
Theorem no_download_dir_stops_run E fs0 :
  (acquire E (init fs0)).2 = Ok tt →
  fs (after_download E fs0) !! ["mastDownload"] ≠ Some Dir →
  notebook E (init fs0) =
    (after_download E fs0,
     Raise (match fs (after_download E fs0) !! ["mastDownload"] with
            | Some _ => NotADirectoryError
            | None => FileNotFoundError
            end)) ∧
  run_log E fs0 = acquire_events.
Proof.
  intros Ha Hd. destruct (acquire_Ok _ _ Ha) as [Hacq Hlog].
  assert (notebook E (init fs0) =
    (after_download E fs0,
     Raise (match fs (after_download E fs0) !! ["mastDownload"] with
            | Some _ => NotADirectoryError
            | None => FileNotFoundError
            end))) as Hrun.
  { unfold notebook. apply bind_raise. unfold cell5.
    rewrite (bind_step _ _ _ _ _ Hacq). apply bind_raise.
    by apply relocate_no_dir. }
  split; [done|]. unfold run_log. by rewrite Hrun.
Qed.

(** An archive with nothing to deliver, in an empty working directory. *)
Lemma no_download_dir_stops_run_witness :
  notebook sim_empty_archive (init ∅) =
    (after_download sim_empty_archive ∅, Raise FileNotFoundError) ∧
  run_log sim_empty_archive ∅ = acquire_events.
Proof.
  destruct (no_download_dir_stops_run sim_empty_archive ∅) as [H1 H2].
  - reflexivity.
  - by vm_compute.
  - split; [exact H1|exact H2].
Defined.



(** ** What the relocation writes *)

(** A path the copy loop changed holds the content of a file of the
    list, under the file's base name (or inside a directory of that
    name). *)
Lemma copy_all_changed l fs fs' (q : path) :
  apply_each copy_home l fs = Ok fs' →
  Forall (λ q : path, (3 ≤ length q)%nat) l →
  fs' !! q ≠ fs !! q →
  ∃ flc c, flc ∈ l ∧ fs !! flc = Some (File c) ∧
           (q = [basename flc] ∨ q = [basename flc; basename flc]) ∧
           fs' !! q = Some (File c).
Proof.
  revert fs. induction l as [|q0 l IH]; intros fs H Hlen Hq; simpl in *.
  { by injection H as <-. }
  destruct (copy_home q0 fs) as [fs1|e] eqn:Hq0; [|done].
  apply Forall_cons in Hlen as [Hlen0 Hlen].
  destruct (decide (fs' !! q = fs1 !! q)) as [Heq|Hne].
  - rewrite Heq in Hq |- *. pose proof Hq0 as Hcopy.
    apply copy_Ok in Hcopy as (c & Hc & [[_ ->]|(_ & _ & ->)]).
    + destruct (decide (q = [basename q0])) as [->|Hne].
      * exists q0, c. rewrite lookup_insert_eq. split_and!; auto. by left.
      * by rewrite lookup_insert_ne in Hq.
    + destruct (decide (q = [basename q0; basename q0])) as [->|Hne].
      * exists q0, c. rewrite lookup_insert_eq. split_and!; auto. by left.
      * by rewrite lookup_insert_ne in Hq.
  - destruct (IH fs1 H Hlen Hne) as (flc & c & Hflc & Hc & Hq' & Hc').
    exists flc, c. split_and!; [by right| |done..].
    rewrite <-Hc. symmetry. rewrite Forall_forall in Hlen.
    specialize (Hlen _ Hflc).
    eapply copy_home_other; [done|..]; intros ->; simpl in Hlen; lia.
Qed.



(** ** The input list, whatever was downloaded *)

(** X5.  Whenever cell 5 completes, whatever was downloaded, the input
    list names exactly the entries of the working directory, as cell 5
    leaves it, whose name ends in [flc.fits] (no underscore is asked
    for) and does not start with a dot, each once;
    [j9irw4b3q_flc.fits] is no such entry any more. *)
Theorem input_list_is_directory_listing E fs0 w5 l :
  cell5 E (init fs0) = (w5, Ok l) →
  (∀ f, f ∈ l ↔
        is_Some (fs w5 !! [f]) ∧ (∃ s, f = s +:+ "flc.fits") ∧
        ¬ ishidden f) ∧
  NoDup l ∧
  fs w5 !! [dropped_flc] = None ∧
  (dropped_flc ∉ l) ∧
  inputs E fs0 = l.
Proof.
  intros H5. pose proof (inputs_of_run _ _ _ _ H5) as Hin.
  destruct (cell5_Ok _ _ _ _ H5) as (wr & found & _ & Hs).
  apply select_inputs_Ok in Hs as (_ & Hfs5 & Hl & _).
  assert (fs w5 !! [dropped_flc] = None) as Hgone.
  { rewrite Hfs5. apply lookup_delete_eq. }
  split_and!; [|rewrite Hl; apply glob_cwd_NoDup|done| |done].
  - intros f. rewrite Hl, glob_cwd_elem, <-fnmatch_flc, Is_true_true. done.
  - rewrite Hl, glob_cwd_elem, Hgone. by intros [[? ?] _].
Qed.

Lemma input_list_is_directory_listing_witness :
  (∀ f, f ∈ three_flcs ↔
        is_Some (fs (cell5 sim (init ∅)).1 !! [f]) ∧
        (∃ s, f = s +:+ "flc.fits") ∧ ¬ ishidden f) ∧
  NoDup three_flcs ∧
  fs (cell5 sim (init ∅)).1 !! [dropped_flc] = None ∧
  (dropped_flc ∉ three_flcs) ∧
  inputs sim ∅ = three_flcs.
Proof.
  apply (input_list_is_directory_listing sim ∅ (cell5 sim (init ∅)).1).
  vm_compute. reflexivity.
Defined.


(** ** The header reads of cell 7 *)

Lemma open_fits_Ok (file : string) (fs : filesystem) (ft : fits) :
  open_fits file fs = Ok ft ↔ fs !! [file] = Some (File (FitsFile ft)).
Proof.
  unfold open_fits, open_file.
  destruct (fs !! [file]) as [[[ft'| |]|]|]; split; intros H; by simplify_eq.
Qed.

Lemma cell7_body f w :
  let r := (getval f "rootname" ;; getval f "PA_V3" ;; mret tt) w in
  fs r.1 = fs w ∧ (is_ok r.2 ↔ has_orientation (fs w) f).
Proof.
  unfold has_orientation, getval, emit, fs_try, mbind, M_bind, bind.
  change (to_upper "rootname") with "ROOTNAME".
  change (to_upper "PA_V3") with "PA_V3". simpl.
  destruct (open_fits f (fs w)) as [ft|e] eqn:Hopen; simpl.
  - apply open_fits_Ok in Hopen.
    destruct (assoc "ROOTNAME" (header ft)) as [v1|] eqn:H1; simpl.
    + destruct (assoc "PA_V3" (header ft)) as [v2|] eqn:H2; simpl.
      * split; [done|]. split; [|done]. intros _. exists ft.
        rewrite H1, H2. eauto.
      * split; [done|]. split; [done|]. intros (ft' & Hft & _ & [v Hv]).
        by simplify_eq.
    + split; [done|]. split; [done|]. intros (ft' & Hft & [v Hv] & _).
      by simplify_eq.
  - split; [done|]. split; [done|]. intros (ft & Hft%open_fits_Ok & _).
    congruence.
Qed.

Lemma header_loop l w :
  let r := for_each l (λ f, getval f "rootname" ;; getval f "PA_V3" ;; mret tt) w in
  fs r.1 = fs w ∧ (is_ok r.2 ↔ Forall (has_orientation (fs w)) l).
Proof.
  revert w. induction l as [|f l IH]; intros w; simpl.
  { split; [done|]. split; [by constructor|done]. }
  pose proof (cell7_body f w) as [Hfs Hok]. simpl in Hfs, Hok.
  destruct ((getval f "rootname" ;; getval f "PA_V3" ;; mret tt) w)
    as [w1 [[]|e]] eqn:Hbody; simpl in *.
  - rewrite (bind_step _ _ _ _ _ Hbody).
    destruct (IH w1) as [Hfs' Hok']. rewrite Hfs in Hfs', Hok'.
    split; [done|]. rewrite Hok', Forall_cons. tauto.
  - rewrite (bind_raise _ _ _ _ _ Hbody). simpl.
    split; [done|]. rewrite Forall_cons. tauto.
Qed.

(** X6.  Cell 7 changes no file.  It completes exactly when every entry
    of the working directory that [*flc.fits] matches is a FITS file
    whose primary header has the cards [ROOTNAME] and [PA_V3]; it then
    has read these two cards of each, in this order and in the order of
    the listing. *)
Theorem cell7_reads_headers_only E w :
  fs (cell7 E w).1 = fs w ∧
  (is_ok (cell7 E w).2 ↔
   Forall (has_orientation (fs w))
          (path_str <$> glob (dir_rank E) (fs w) ["*flc.fits"])) ∧
  (is_ok (cell7 E w).2 →
   log (cell7 E w).1 =
   log w ++ getval_events
              (path_str <$> glob (dir_rank E) (fs w) ["*flc.fits"])).
Proof.
  split_and!.
  - apply (header_loop
             (path_str <$> glob (dir_rank E) (fs w) ["*flc.fits"]) w).
  - apply (header_loop
             (path_str <$> glob (dir_rank E) (fs w) ["*flc.fits"]) w).
  - destruct (cell7_extends E w) as (k & _ & Hlog). apply Hlog.
Qed.


(** ** The shift tables of cells 17 and 24 *)

(** X7.  A table that cell 17 or cell 24 returns has the seven columns
    [file], [dx], [dy], [rot], [scale], [xrms], [yrms] and rows of
    exactly seven fields; the column of the [i]-th name holds the
    [i]-th field of every row, and asking for a column of another name
    raises [KeyError].  Reading the table changes no file. *)
Theorem shift_table_columns E w w' tab :
  cell17 E w = (w', Ok tab) ∨ cell24 E w = (w', Ok tab) →
  colnames tab = shift_names ∧
  Forall (λ r, length r = 7%nat) (rows tab) ∧
  (∀ (i : nat) name, shift_names !! i = Some name →
     column tab name = Ok ((λ r, default "" (r !! i)) <$> rows tab)) ∧
  (∀ name, name ∉ shift_names → column tab name = Raise KeyError) ∧
  fs w' = fs w.
Proof.
  intros H.
  assert (∃ file, Table_read (tokens E) file shift_names w = (w', Ok tab))
    as [file Hread].
  { destruct H as [H|H]; apply read_shifts_Ok in H; eauto. }
  rewrite Table_read_run in Hread. injection Hread as <- Hread.
  destruct (open_text file (fs w)) as [lines|e]; [|done].
  apply read_named_Ok in Hread as (Hcol & _ & _ & Hlen).
  split_and!; [done..| | |done].
  - intros i name Hi. by apply shift_column.
  - intros name Hname. unfold column. rewrite Hcol.
    destruct (list_find _ _) as [[i x]|] eqn:Hfind; [|done].
    apply list_find_Some in Hfind as (Hi & -> & _).
    destruct Hname. by eapply list_elem_of_lookup_2.
Qed.

(** A shift file of two rows, read by cell 17. *)
Lemma shift_table_columns_witness :
  let tab := Table shift_names
               [["a_flc.fits"; "0.1"; "0.2"; "0.0"; "1.0"; "0.04"; "0.04"];
                ["b_flc.fits"; "0.3"; "0.4"; "0.0"; "1.0"; "0.05"; "0.05"]] in
  colnames tab = shift_names ∧
  Forall (λ r, length r = 7%nat) (rows tab) ∧
  (∀ (i : nat) name, shift_names !! i = Some name →
     column tab name = Ok ((λ r, default "" (r !! i)) <$> rows tab)) ∧
  (∀ name, name ∉ shift_names → column tab name = Raise KeyError) ∧
  fs (cell17 sim sim_shifts).1 = fs sim_shifts.
Proof.
  apply (shift_table_columns sim sim_shifts (cell17 sim sim_shifts).1).
  left. vm_compute. reflexivity.
Defined.

(** X8.  When the shift file holds a line, neither blank nor a comment,
    that the table reader splits into a number of fields other than
    seven, cells 17 and 24 raise [InconsistentTableError] at the read:
    no table is returned, no column format is set, no file changed. *)
Theorem shift_table_rejects_ragged_rows E (file : string) w lines line :
  fs w !! [file] = Some (File (TextFile lines)) →
  line ∈ lines → is_data_line line →
  length (tokens E line) ≠ 7%nat →
  read_shifts E file w =
  (World (fs w) (log w ++ [ETable "Table.read" file (Some shift_names)]),
   Raise InconsistentTableError).
Proof.
  intros Hfile Hin Hdata Hlen. unfold read_shifts. apply bind_raise.
  rewrite Table_read_run. f_equal.
  unfold open_text, open_file. rewrite Hfile. unfold read_no_header.
  destruct (tokens E <$> filter is_data_line lines) as [|r rs] eqn:Hrs;
    [done|].
  destruct (forallb _ _) eqn:Hall; [|done].
  apply Is_true_true, forallb_True in Hall. rewrite Forall_forall in Hall.
  destruct Hlen. apply (bool_decide_unpack _), Hall. rewrite <-Hrs.
  apply list_elem_of_fmap_2. by apply list_elem_of_filter.
Qed.

(** A shift file whose second row has six fields. *)
Lemma shift_table_rejects_ragged_rows_witness :
  cell17 sim sim_ragged =
  (World (fs sim_ragged)
         [ETable "Table.read" "shift_thresh.txt" (Some shift_names)],
   Raise InconsistentTableError).
Proof.
  apply (shift_table_rejects_ragged_rows sim "shift_thresh.txt" sim_ragged
           ["# units: pixels";
            "a_flc.fits 0.1 0.2 0.0 1.0 0.04 0.04";
            "b_flc.fits 0.1 0.2 0.0 1.0 0.04"]
           "b_flc.fits 0.1 0.2 0.0 1.0 0.04").
  - reflexivity.
  - decide_by_compute.
  - by vm_compute.
  - by vm_compute.
Defined.

(** ** The columns cell 34 asks for *)

Lemma column_auto_Ok n rs k :
  (k < n)%nat →
  column (Table (auto_names n) rs) ("col" +:+ pretty (S k))
  = Ok ((λ r, default "" (r !! k)) <$> rs).
Proof.
  intros Hk. unfold column. simpl.
  destruct (list_find _ _) as [[i x]|] eqn:Hfind.
  - by apply auto_names_find in Hfind as ->.
  - apply list_find_None in Hfind. rewrite Forall_forall in Hfind.
    destruct (Hfind ("col" +:+ pretty (S k))); [|done].
    eapply list_elem_of_lookup_2. by apply auto_names_lookup.
Qed.

Lemma column_auto_KeyError n rs k :
  (n ≤ k)%nat →
  column (Table (auto_names n) rs) ("col" +:+ pretty (S k)) = Raise KeyError.
Proof.
  intros Hk. unfold column. simpl.
  destruct (list_find _ _) as [[i x]|] eqn:Hfind; [|done].
  pose proof Hfind as (Hi & _)%list_find_Some.
  apply auto_names_find in Hfind as ->.
  apply lookup_lt_Some in Hi. unfold auto_names in Hi.
  rewrite length_fmap, length_seq in Hi. lia.
Qed.

(** X9.  On a table read without a header, the selection of cell 34
    raises [KeyError] exactly when the table has fewer than fifteen
    columns, for want of a column [col15].  With fifteen or more columns
    and an integer in the 15th field of every row it returns
    coordinates: one pair for each row it kept. *)
Theorem chip2_needs_fifteen_columns E n rs :
  (chip2_sources E (Table (auto_names n) rs) = Raise KeyError
   ↔ (n < 15)%nat) ∧
  ((15 ≤ n)%nat →
   Forall (λ r, is_Some (parse_int (default "" (r !! 14%nat)))) rs →
   ∃ kept x_cord y_cord,
     chip2_sources E (Table (auto_names n) rs)
     = Ok (kept, (x_cord, y_cord)) ∧
     length x_cord = length (rows kept) ∧
     length y_cord = length (rows kept)).
Proof.
  unfold chip2_sources.
  change "col15" with ("col" +:+ pretty 15%nat).
  change "col11" with ("col" +:+ pretty 11%nat).
  change "col12" with ("col" +:+ pretty 12%nat).
  destruct (decide (n < 15)%nat) as [Hn|Hn].
  - rewrite column_auto_KeyError by lia. split; [done|]. lia.
  - rewrite column_auto_Ok by lia. unfold mask_rows. simpl.
    rewrite !column_auto_Ok by lia. split; [done|].
    intros _ _. eexists _, _, _. split; [done|]. simpl.
    by rewrite !length_fmap.
Qed.

(** ** Renaming the plots (cells 26 and 28) *)

Lemma Image_run (file : string) w :
  Image file w =
  (World (fs w) (log w ++ [EImage file]),
   match open_file file (fs w) with
   | Ok _ => Ok tt
   | Raise e => Raise e
   end).
Proof. reflexivity. Qed.

(** [os.rename] of one name of the working directory to another, when
    the new name then is a file. *)
Lemma rename_to_file (old new : string) (fs fs' : filesystem) c' :
  old ≠ new →
  rename [old] [new] fs = Ok fs' → fs' !! [new] = Some (File c') →
  fs !! [old] = Some (File c') ∧ fs !! [new] ≠ Some Dir ∧
  fs' = <[ [new] := File c' ]> (delete [old] fs).
Proof.
  intros Hne Hren Hnew. unfold rename in Hren.
  assert ([old] ≠ [new]) as Hne' by congruence.
  destruct (fs !! [old]) as [[c|]|] eqn:Hold; [| |done].
  - rewrite bool_decide_false in Hren by done.
    destruct (isdir fs [new]) eqn:Hd; [done|]. simpl in Hren.
    injection Hren as <-. rewrite lookup_insert_eq in Hnew.
    injection Hnew as ->. split_and!; [done| |done].
    intros Hdir. apply (isdir_cons fs new []) in Hdir. by rewrite Hd in Hdir.
  - rewrite bool_decide_false in Hren by done.
    assert (below [old] [new] = false) as Hb.
    { unfold below. simpl. rewrite decide_False by done.
      apply bool_decide_false. by intros [? ?]. }
    rewrite Hb in Hren. simpl in Hren.
    assert (graft [new] (subtree [old] fs)
              (filter (λ kv : path * node, negb (below [old] kv.1)) fs)
              !! [new] = Some Dir) as Hg.
    { rewrite lookup_graft. simpl. rewrite decide_True by done.
      simpl. by rewrite Hold. }
    destruct (fs !! [new]) as [[c|]|]; [done| |].
    + case_bool_decide; [|done]. injection Hren as <-. congruence.
    + injection Hren as <-. congruence.
Qed.

Lemma rename_show_Ok (old new : string) w w' :
  old ≠ new →
  (fs_op (rename [old] [new]) ;; Image new) w = (w', Ok tt) →
  moved old new w w'.
Proof.
  intros Hne H. apply bind_ok in H as ([] & w1 & Hren & Himg).
  unfold fs_op in Hren.
  destruct (rename [old] [new] (fs w)) as [fs1|e] eqn:Hren'; [|done].
  injection Hren as <-. rewrite Image_run in Himg. simpl in Himg.
  injection Himg as <- Hopen. unfold open_file in Hopen.
  destruct (fs1 !! [new]) as [[c'|]|] eqn:Hnew; [|done..].
  destruct (rename_to_file _ _ _ _ _ Hne Hren' Hnew) as (Hold & _ & ->).
  exists c'. simpl. split_and!; [done| | | |done].
  - apply lookup_insert_eq.
  - rewrite lookup_insert_ne by congruence. apply lookup_delete_eq.
  - intros q Hq1 Hq2. rewrite lookup_insert_ne by done.
    by rewrite lookup_delete_ne.
Qed.

Lemma rename_show_completes (old new : string) w c :
  old ≠ new →
  fs w !! [old] = Some (File c) → fs w !! [new] ≠ Some Dir →
  is_ok ((fs_op (rename [old] [new]) ;; Image new) w).2.
Proof.
  intros Hne Hold Hnew.
  assert (rename [old] [new] (fs w)
          = Ok (<[ [new] := File c ]> (delete [old] (fs w)))) as Hren.
  { unfold rename. rewrite Hold.
    rewrite bool_decide_false by congruence.
    assert (isdir (fs w) [new] = false) as ->; [|done].
    apply bool_decide_false. done. }
  erewrite bind_step; [|unfold fs_op; by rewrite Hren].
  rewrite Image_run. simpl. unfold open_file. by rewrite lookup_insert_eq.
Qed.

Lemma rename_show_again (old new : string) w w' :
  old ≠ new → moved old new w w' →
  (fs_op (rename [old] [new]) ;; Image new) w' = (w', Raise FileNotFoundError).
Proof.
  intros Hne (c & _ & _ & Hgone & _). apply bind_raise.
  unfold fs_op, rename. by rewrite Hgone.
Qed.

(** X10.  In a working directory of plain files and directories, where
    no two names are links to one file: when cell 26 (cell 28)
    completes, the residual (vector) plot of [j9irw4b1q] has gone to its
    [_general] name with its content, no entry is left under the old
    name, every other path of the working directory is as it was, and
    the one event logged is the display of the renamed file. *)
Theorem plot_cells_move_files w w' :
  (cell26 w = (w', Ok tt) →
   moved "residuals_j9irw4b1q_flc.png"
         "residuals_j9irw4b1q_flc_general.png" w w') ∧
  (cell28 w = (w', Ok tt) →
   moved "vector_j9irw4b1q_flc.png"
         "vector_j9irw4b1q_flc_general.png" w w').
Proof. split; by apply rename_show_Ok. Qed.

(** Cells 26 and 28 complete in a working directory with the plots. *)
Example plot_cells_complete :
  (cell26 sim_plots).2 = Ok tt ∧ (cell28 sim_plots).2 = Ok tt.
Proof. split; vm_compute; reflexivity. Qed.

(** X11.  In a working directory of plain files and directories, where
    no two names are links to one file, and with [os.rename] as on
    POSIX: cell 26 (cell 28) completes exactly when the plot is a file
    of the working directory and its new name is no directory; a file an
    earlier run left under the new name is replaced.  Run a second time
    right after, the cell raises [FileNotFoundError], the plot being
    gone; and so does cell 20 after cell 28, which displays the plot
    under its old name. *)
Theorem plot_cells_run_once w :
  (is_ok (cell26 w).2 ↔
   (∃ c, fs w !! ["residuals_j9irw4b1q_flc.png"] = Some (File c)) ∧
   fs w !! ["residuals_j9irw4b1q_flc_general.png"] ≠ Some Dir) ∧
  (is_ok (cell28 w).2 ↔
   (∃ c, fs w !! ["vector_j9irw4b1q_flc.png"] = Some (File c)) ∧
   fs w !! ["vector_j9irw4b1q_flc_general.png"] ≠ Some Dir) ∧
  (∀ w', cell26 w = (w', Ok tt) →
         cell26 w' = (w', Raise FileNotFoundError)) ∧
  (∀ w', cell28 w = (w', Ok tt) →
         cell28 w' = (w', Raise FileNotFoundError) ∧
         (cell20 w').2 = Raise FileNotFoundError).
Proof.
  assert (Hiff : ∀ old new : string, old ≠ new →
    is_ok ((fs_op (rename [old] [new]) ;; Image new) w).2 ↔
    (∃ c, fs w !! [old] = Some (File c)) ∧ fs w !! [new] ≠ Some Dir).
  { intros old new Hne. split.
    - destruct ((fs_op (rename [old] [new]) ;; Image new) w)
        as [w' [[]|e]] eqn:Hrun; [|done]. intros _.
      pose proof Hrun as H. apply bind_ok in H as ([] & w1 & Hren & Himg).
      unfold fs_op in Hren.
      destruct (rename [old] [new] (fs w)) as [fs1|e] eqn:Hren'; [|done].
      injection Hren as <-. rewrite Image_run in Himg. simpl in Himg.
      injection Himg as _ Hopen. unfold open_file in Hopen.
      destruct (fs1 !! [new]) as [[c'|]|] eqn:Hnew; [|done..].
      destruct (rename_to_file _ _ _ _ _ Hne Hren' Hnew) as (Hold & Hnd & _).
      eauto.
    - intros [[c Hc] Hnd]. by eapply rename_show_completes. }
  split_and!.
  - by apply Hiff.
  - by apply Hiff.
  - intros w' H. apply rename_show_Ok in H; [|done].
    by eapply rename_show_again.
  - intros w' H. apply rename_show_Ok in H; [|done]. split.
    + by eapply rename_show_again.
    + destruct H as (c & _ & _ & Hgone & _). unfold cell20.
      rewrite Image_run. simpl. unfold open_file. by rewrite Hgone.
Qed.

(** ** The paths the notebook's own statements write *)

Lemma foreign_cons n p :
  foreign (n :: p) →
  n ≠ "mastDownload" ∧ ¬ fnmatch "*flc.fits" n ∧ n ∉ plot_names.
Proof. done. Qed.

Section Frame.

Variable E : Env.
Variable q : path.
Hypothesis Hq : foreign q.
Hypothesis HE : env_keeps E q.

Lemma acquire_keeps : keeps q (acquire E).
Proof.
  destruct HE as (Hd & _ & _). unfold acquire, call, call_io.
  apply keeps_bind; [apply keeps_seq; [apply keeps_emit|apply keeps_ask]|].
  intros ? obsTable ? ?.
  apply keeps_bind; [apply keeps_seq; [apply keeps_emit|apply keeps_ask]|].
  intros ? products ? ?.
  apply keeps_seq; [apply keeps_emit|]. by apply keeps_act.
Qed.

Lemma relocate_keeps : keeps q (relocate E).
Proof.
  destruct q as [|n p]; [done|].
  destruct (foreign_cons _ _ Hq) as (Hn1 & Hn2 & _).
  unfold relocate. apply keeps_bind; [apply keeps_fs_get|].
  intros w found w' Hget. injection Hget as _ <-.
  apply keeps_seq; [|apply keeps_seq; [|apply keeps_ret]].
  - apply keeps_for_each. intros flc Hflc. apply keeps_fs_op.
    intros fs fs' Hcopy.
    apply glob_download_elem in Hflc as (d & f & -> & _ & _ & _ & _ & _ & Hm & _).
    eapply copy_home_other; [exact Hcopy|..];
      change (basename _) with f; by intros [= -> _].
  - apply keeps_fs_op. intros fs fs' [_ Hrm]%rmtree_Ok.
    rewrite Hrm, below_download_cons. by rewrite bool_decide_false.
Qed.

Lemma select_inputs_keeps : keeps q (select_inputs E).
Proof.
  destruct q as [|n p]; [done|].
  destruct (foreign_cons _ _ Hq) as (_ & Hn2 & _).
  unfold select_inputs. apply keeps_seq.
  - apply keeps_fs_op. intros fs fs' [_ ->]%remove_Ok.
    apply lookup_delete_ne. intros [= <- _]. apply Hn2. by vm_compute.
  - apply keeps_bind; [apply keeps_fs_get|]. intros ? l ? ?. apply keeps_ret.
Qed.

Lemma alignment_keeps flcs kw : keeps q (tweakreg E flcs kw).
Proof. destruct HE as (_ & Ht & _). by apply tweakreg_keeps. Qed.

Lemma cell37_keeps flcs : keeps q (cell37 E flcs).
Proof.
  destruct HE as (_ & _ & Ha). unfold cell37, call_io.
  apply keeps_seq; [apply keeps_emit|]. by apply keeps_act.
Qed.

Lemma plot_cell_keeps (old new : string) :
  old ∈ plot_names → new ∈ plot_names →
  keeps q (fs_op (rename [old] [new]) ;; Image new).
Proof.
  intros Ho Hn. destruct q as [|n p]; [done|].
  destruct (foreign_cons _ _ Hq) as (_ & _ & Hn3).
  apply rename_show_keeps; by intros ->.
Qed.

Lemma analysis_keeps flcs : keeps q (analysis E flcs).
Proof.
  unfold analysis.
  apply keeps_seq; [apply cell7_keeps|].
  apply keeps_seq; [apply alignment_keeps|].
  apply keeps_seq; [apply read_shifts_keeps|].
  apply keeps_seq; [apply keeps_reads|].
  apply keeps_seq; [apply keeps_reads|].
  apply keeps_seq; [apply alignment_keeps|].
  apply keeps_seq; [apply read_shifts_keeps|].
  apply keeps_seq; [apply plot_cell_keeps; set_solver|].
  apply keeps_seq; [apply plot_cell_keeps; set_solver|].
  apply keeps_seq; [apply alignment_keeps|].
  apply keeps_seq; [apply cell34_keeps|].
  apply keeps_seq; [apply cell37_keeps|].
  apply keeps_seq; [apply inspect_keeps|].
  apply keeps_seq; [apply inspect_keeps|apply keeps_ret].
Qed.

Lemma notebook_keeps : keeps q (notebook E).
Proof.
  unfold notebook. apply keeps_bind; [|intros; apply analysis_keeps].
  unfold cell5. apply keeps_seq; [apply acquire_keeps|].
  apply keeps_seq; [apply relocate_keeps|apply select_inputs_keeps].
Qed.

End Frame.


Lemma sim_writes_top (flcs : list string) (prods : list (string * node))
    (fs : filesystem) (a b : string) (p : path) :
  foldl (sim_write flcs) fs prods !! (a :: b :: p) = fs !! (a :: b :: p).
Proof.
  revert fs. induction prods as [|prod prods IH]; intros fs; simpl; [done|].
  rewrite IH. unfold sim_write. case_bool_decide; [done|].
  by rewrite lookup_insert_ne.
Qed.

Lemma sim_stamps_top (flcs : list string) (fs : filesystem)
    (a b : string) (p : path) :
  foldr (λ f, alter sim_stamp [f]) fs flcs !! (a :: b :: p)
  = fs !! (a :: b :: p).
Proof.
  induction flcs as [|f flcs IH]; simpl; [done|].
  by rewrite lookup_alter_ne.
Qed.

(** The simulated library writes into the working directory itself and
    below [mastDownload]: a file in a folder of the user's is left
    alone. *)
Lemma sim_keeps_notes : env_keeps sim ["docs"; "readme.txt"].
Proof.
  split_and!.
  - intros h kw w. simpl. unfold sim_download.
    by rewrite !lookup_insert_ne.
  - intros flcs kw w. simpl. unfold sim_TweakReg.
    destruct (sim_loads _ _ _); [done|]. simpl.
    rewrite sim_writes_top. case_bool_decide; [|done].
    apply sim_stamps_top.
  - intros flcs kw w. simpl. unfold sim_AstroDrizzle.
    destruct (sim_loads _ _ _); [done|].
    repeat case_match; try done. simpl. by rewrite lookup_insert_ne.
Qed.


(** A completing run with the user's folder in the working directory. *)
Example notes_run_completes : completes sim sim_notes.
Proof. by vm_compute. Qed.

(** ** Which files cell 5 copies, and which become inputs *)

(** X13.  When the relocation completes, the files it copied are
    exactly the files [mastDownload/HST/<obs>/<f>] with [f] ending in
    [flc.fits], neither [<obs>] nor [f] starting with a dot: files
    elsewhere below [mastDownload], deeper or hidden, are removed with
    the directory without a copy. *)
Theorem relocate_copies_visible_flcs E w w' found :
  relocate E w = (w', Ok found) →
  ∀ p, p ∈ found ↔
       ∃ obs f c, p = ["mastDownload"; "HST"; obs; f] ∧
                  downloaded (fs w) obs f c.
Proof.
  intros (-> & Hlen & fs1 & Hcopy & _)%relocate_fs p. split.
  - intros Hp. destruct (copy_all_sources _ _ _ _ Hcopy Hlen Hp) as [c Hc].
    pose proof Hp as (obs & f & -> & _)%glob_download_elem.
    exists obs, f, c. split; [done|].
    by apply (found_downloaded (dir_rank E)).
  - intros (obs & f & c & -> & Hd). by eapply downloaded_found.
Qed.

Lemma relocate_copies_visible_flcs_witness :
  ["mastDownload"; "HST"; "j9irw4040"; "j9irw4b3q_flc.fits"]
    ∈ glob (dir_rank sim) (fs (after_download sim ∅)) download_pattern ↔
  ∃ obs f c,
    ["mastDownload"; "HST"; "j9irw4040"; "j9irw4b3q_flc.fits"]
    = ["mastDownload"; "HST"; obs; f] ∧
    downloaded (fs (after_download sim ∅)) obs f c.
Proof.
  apply (relocate_copies_visible_flcs sim (after_download sim ∅)
           (relocate sim (after_download sim ∅)).1).
  vm_compute. reflexivity.
Defined.

Lemma copy_all_stays (l : list path) (fs fs' : filesystem) (p : path) :
  apply_each copy_home l fs = Ok fs' →
  is_Some (fs !! p) → is_Some (fs' !! p).
Proof.
  revert fs. induction l as [|q0 l IH]; intros fs H Hp; simpl in *.
  { by injection H as <-. }
  destruct (copy_home q0 fs) as [fs1|e] eqn:Hq0; [|done].
  apply (IH fs1 H).
  apply copy_Ok in Hq0 as (c & _ & [[_ ->]|(_ & _ & ->)]);
    rewrite lookup_insert_is_Some'; by right.
Qed.

(** X14.  An entry of the working directory that [*flc.fits] matches,
    other than [j9irw4b3q_flc.fits], that is there when the download
    returns is in the input list cell 5 defines: an exposure left by an
    earlier session is aligned and combined with the downloaded ones. *)
Theorem stale_exposures_become_inputs E fs0 w5 l n :
  cell5 E (init fs0) = (w5, Ok l) →
  is_Some (fs (after_download E fs0) !! [n]) →
  fnmatch "*flc.fits" n → ¬ ishidden n → n ≠ dropped_flc →
  n ∈ l ∧
  Forall (λ ev, is_call alignment ev ∨ is_call combination ev →
                ∃ flcs, event_args ev = [VStrs flcs] ∧ n ∈ flcs)
         (run_log E fs0).
Proof.
  intros H5 Hn Hm Hh Hne.
  pose proof (inputs_of_run _ _ _ _ H5) as Hin.
  destruct (cell5_Ok _ _ _ _ H5) as (wr & found & Hr & Hs).
  apply relocate_fs in Hr as (-> & _ & fs1 & Hcopy & Hfs).
  apply select_inputs_Ok in Hs as (_ & Hfs5 & Hl & _).
  assert (n ∈ l) as Hnl.
  { rewrite Hl. apply glob_cwd_elem. split_and!; [|done..].
    rewrite Hfs5, lookup_delete_ne by congruence.
    rewrite Hfs, below_download_cons. rewrite bool_decide_false.
    - by eapply copy_all_stays.
    - apply flc_name_not_download. by apply fnmatch_flc, Is_true_true. }
  split; [done|].
  eapply Forall_impl; [apply routines_get_inputs|]. simpl.
  intros ev Hev Hcall. exists l. rewrite <-Hin at 1. by split; [apply Hev|].
Qed.

(** The simulated archive, with an exposure of another programme in
    the working directory. *)
Lemma stale_exposures_become_inputs_witness :
  "ib2j02n5q_flc.fits" ∈ inputs sim sim_stale ∧
  Forall (λ ev, is_call alignment ev ∨ is_call combination ev →
                ∃ flcs, event_args ev = [VStrs flcs] ∧
                        "ib2j02n5q_flc.fits" ∈ flcs)
         (run_log sim sim_stale).
Proof.
  apply (stale_exposures_become_inputs sim sim_stale
           (cell5 sim (init sim_stale)).1).
  - vm_compute. reflexivity.
  - vm_compute. eauto.
  - by vm_compute.
  - by vm_compute.
  - done.
Defined.

(** ** Reads and the calls that were asked for the files *)

Lemma script_tail flcs (j : nat) :
  script flcs !! (3 + length (getval_events flcs) + j)%nat
  = analysis_events flcs [] !! j.
Proof.
  unfold script, analysis_events.
  rewrite lookup_app_r by (simpl; lia).
  rewrite lookup_app_r by (simpl; lia).
  simpl. f_equal. lia.
Qed.

Lemma script_lookup flcs (i : nat) ev :
  script flcs !! i = Some ev →
  (∃ fn args kw, ev = ECall fn args kw ∧ fn ≠ alignment ∧ fn ≠ combination) ∨
  (∃ f key, ev = EGetval f key) ∨
  (∃ j : nat, i = (3 + length (getval_events flcs) + j)%nat ∧
              analysis_events flcs [] !! j = Some ev).
Proof.
  unfold script, analysis_events at 1. intros H.
  apply lookup_app_Some in H as [H|[Hi H]].
  { left. do 3 (destruct i as [|i];
      [injection H as <-; eexists _, _, _; by split_and!|]). done. }
  apply lookup_app_Some in H as [H|[Hi' H]].
  { right. left. apply list_elem_of_lookup_2 in H. unfold getval_events in H.
    apply list_elem_of_bind in H as (f & Hev & _).
    rewrite !elem_of_cons, elem_of_nil in Hev.
    destruct Hev as [->|[->|[]]]; eauto. }
  right. right.
  exists (i - length acquire_events - length (getval_events flcs))%nat.
  split; [simpl in *; lia|done].
Qed.

(** X15.  A shift file is read only right after an alignment call that
    was asked to write it: the event before a [Table.read] of a file is
    a [TweakReg] call on the input list with [shiftfile=True] and that
    file as [outshifts].  The combined file is read only after the
    [AstroDrizzle] call, and its name is the call's [output] name
    followed by [_drc.fits]. *)
Theorem reads_follow_requests E fs0 (i : nat) :
  (∀ file names,
     run_log E fs0 !! S i = Some (ETable "Table.read" file names) →
     ∃ kw, run_log E fs0 !! i = Some (tweak_call (inputs E fs0) kw) ∧
           kwarg "shiftfile" kw = Some (VBool true) ∧
           kwarg "outshifts" kw = Some (VStr file)) ∧
  (∀ ext ver,
     run_log E fs0 !! S i = Some (EData drc_file ext ver) →
     ∃ (j : nat) kw out,
       (j ≤ i)%nat ∧
       run_log E fs0 !! j
       = Some (ECall combination [VStrs (inputs E fs0)] kw) ∧
       kwarg "output" kw = Some (VStr out) ∧
       drc_file = out +:+ "_drc.fits").
Proof.
  destruct (run_log_prefix E fs0) as [k ->].
  set (flcs := inputs E fs0). split.
  - intros file names [H Hk]%lookup_take_Some.
    apply script_lookup in H as [(? & ? & ? & ? & _)|[(? & ? & ?)|(j & Hi & Hj)]];
      [done..|].
    assert (j = 1 ∨ j = 5)%nat as Hcase.
    { do 14 (destruct j as [|j]; [simplify_eq/=; auto|]). done. }
    destruct Hcase as [-> | ->]; simpl in Hj; injection Hj as <- <-.
    + exists tweak_thresh_kwargs. split; [|done].
      rewrite lookup_take_lt by lia.
      replace i with (3 + length (getval_events flcs) + 0)%nat by lia.
      by rewrite script_tail.
    + exists tweak_general_kwargs. split; [|done].
      rewrite lookup_take_lt by lia.
      replace i with (3 + length (getval_events flcs) + 4)%nat by lia.
      by rewrite script_tail.
  - intros ext ver [H Hk]%lookup_take_Some.
    apply script_lookup in H as [(? & ? & ? & ? & _)|[(? & ? & ?)|(j & Hi & Hj)]];
      [done..|].
    assert (j = 12 ∨ j = 13)%nat as Hcase.
    { do 14 (destruct j as [|j]; [simplify_eq/=; auto|]). done. }
    exists (3 + length (getval_events flcs) + 11)%nat, drizzle_kwargs,
      "f606w_combined".
    split_and!; [lia| |done..].
    rewrite lookup_take_lt by lia. by rewrite script_tail.
Qed.

(** The simulated run: the fifth event after the header reads is the
    read of [shift_thresh.txt]. *)
Example shift_file_read_in_run :
  run_log sim ∅ !! 10%nat
  = Some (ETable "Table.read" "shift_thresh.txt" (Some shift_names)).
Proof. rewrite sim_run_log. reflexivity. Qed.
